(** * Video_productor: caption timing and scene media resolution

    A shallow embedding of the timing and grouping code of the pipeline
    ([utils/caption_overlay.py], [utils/caption_generator.py],
    [utils/audio_generator_fr.py], [utils/voice.py]) and of the scene loop of
    [utils/video_composer.py], with the properties the specification states
    about them.

    Conventions.  Python floats holding seconds are idealised as rationals
    ([Q]); every comparison and subtraction is then exact.  Rounded results
    are described to the precision of the output, the millisecond or the
    pixel, without fixing which way a tie of [round] goes: binary64
    arithmetic can settle it either way.  [format_time_srt], whose result
    turns on the rounding of one product, is modelled on binary64 itself.
    Python dicts read with [d["k"]] are
    records of optional fields, the read raising [KeyError] on an absent
    key.  Calls into moviepy are modelled by what they return: a clip is a
    term describing how it was built, together with its duration. *)

From Stdlib Require Import ZArith QArith Qround Qminmax Lqa Lia.
From Stdlib Require Import List String Ascii Sorted Bool.
From Stdlib Require Import DecimalString DecimalN Floats.
From stdpp Require Import gmap strings list sorting.
Import ListNotations.

Local Open Scope string_scope.
Local Open Scope list_scope.

(** ** Exceptions *)

Inductive exn : Type :=
| KeyError (key : string)
| IndexError
| ValueError
| ZeroDivisionError
| OverflowError
| OSError (path : string).

Inductive result (A : Type) : Type :=
| Ok (a : A)
| Raise (e : exn).
Arguments Ok {A} a.
Arguments Raise {A} e.

Definition rbind {A B} (r : result A) (k : A -> result B) : result B :=
  match r with
  | Ok a => k a
  | Raise e => Raise e
  end.

Notation "'try!' x ':=' r 'in' k" := (rbind r (fun x => k))
  (at level 10, x name, r at level 100, k at level 200).

(** [d[key]] on a dict that may lack the key. *)
Definition getitem {A} (key : string) (field : option A) : result A :=
  match field with
  | Some v => Ok v
  | None => Raise (KeyError key)
  end.

(** ** Python string helpers *)

Module Py.

(** [s.endswith(p)] *)
Definition endswith (s p : string) : bool :=
  let ls := String.length s in
  let lp := String.length p in
  (lp <=? ls)%nat && String.eqb (substring (ls - lp) lp s) p.

(** [sep.join(parts)] *)
Definition join (sep : string) (parts : list string) : string :=
  String.concat sep parts.

(** The ASCII characters [str.split()] and [str.strip()] treat as blank. *)
Definition is_space (c : ascii) : bool :=
  let n := nat_of_ascii c in
  ((9 <=? n) && (n <=? 13) || (28 <=? n) && (n <=? 32))%nat.

(** [s.split()]: maximal runs of non-blank characters.  [cur] holds the
    characters of the run being read, most recent first. *)
Fixpoint split_ws_aux (cur : list ascii) (s : list ascii) : list string :=
  let flush rest :=
    match cur with
    | [] => rest
    | _ => string_of_list_ascii (rev cur) :: rest
    end in
  match s with
  | [] => flush []
  | c :: s' =>
      if is_space c then flush (split_ws_aux [] s')
      else split_ws_aux (c :: cur) s'
  end.

Definition split (s : string) : list string :=
  split_ws_aux [] (list_ascii_of_string s).

(** [s.split(sep)] for a one-character separator: always at least one part. *)
Fixpoint split_on_aux (sep : ascii) (cur : list ascii) (s : list ascii)
  : list string :=
  match s with
  | [] => [string_of_list_ascii (rev cur)]
  | c :: s' =>
      if Ascii.eqb c sep
      then string_of_list_ascii (rev cur) :: split_on_aux sep [] s'
      else split_on_aux sep (c :: cur) s'
  end.

Definition split_on (sep : ascii) (s : string) : list string :=
  split_on_aux sep [] (list_ascii_of_string s).

Fixpoint lstrip_chars (s : list ascii) : list ascii :=
  match s with
  | c :: s' => if is_space c then lstrip_chars s' else s
  | [] => []
  end.

(** [s.strip()] *)
Definition strip (s : string) : string :=
  string_of_list_ascii
    (rev (lstrip_chars (rev (lstrip_chars (list_ascii_of_string s))))).

(** [str(n)] for a non-negative integer. *)
Definition str_of_N (n : N) : string :=
  NilZero.string_of_uint (N.to_uint n).

(** [int(s)] for a string of ASCII digits; [ValueError] on the empty string
    and on any other character. *)
Definition int_of_digits (s : string) : result N :=
  match NilZero.uint_of_string s with
  | Some d => Ok (N.of_uint d)
  | None => Raise ValueError
  end.

Definition is_digit (c : ascii) : bool :=
  let n := nat_of_ascii c in ((48 <=? n) && (n <=? 57))%nat.

(** A string made of ASCII digits only. *)
Definition digits_only (s : string) : Prop :=
  Forall (fun c => is_digit c = true) (list_ascii_of_string s).

(** [s.splitlines()] on the ASCII line boundaries. *)
Definition is_linebreak (c : ascii) : bool :=
  let n := nat_of_ascii c in
  ((10 <=? n) && (n <=? 13) || (28 <=? n) && (n <=? 30))%nat.

Fixpoint splitlines_aux (after_cr : bool) (cur : list ascii)
    (s : list ascii) : list string :=
  match s with
  | [] =>
      match cur with
      | [] => []
      | _ => [string_of_list_ascii (rev cur)]
      end
  | c :: s' =>
      if (after_cr && (nat_of_ascii c =? 10)%nat)%bool
      then splitlines_aux false cur s'
      else if is_linebreak c
      then string_of_list_ascii (rev cur)
             :: splitlines_aux (nat_of_ascii c =? 13)%nat [] s'
      else splitlines_aux false (c :: cur) s'
  end.

Definition splitlines (s : string) : list string :=
  splitlines_aux false [] (list_ascii_of_string s).

(** [f"{z:0{width}d}"]: decimal, zero-padded to [width] characters, the
    sign counted in the width. *)
Definition zfill (width : nat) (digits : string) : string :=
  (string_of_list_ascii
     (repeat "0"%char (width - String.length digits))
   ++ digits)%string.

Definition format_d (width : nat) (z : Z) : string :=
  if (z <? 0)%Z
  then ("-" ++ zfill (width - 1) (str_of_N (Z.to_N (- z))))%string
  else zfill width (str_of_N (Z.to_N z)).

(** [int(x)] on a number: truncation toward zero. *)
Definition int_of_Q (x : Q) : Z := Z.quot (Qnum x) (Zpos (Qden x)).

(** [round(x, 3)]: to the nearest thousandth, ties to the even one. *)
Definition round_half_even (y : Q) : Z :=
  let f := Qfloor y in
  match Qcompare (y - inject_Z f) (1 # 2) with
  | Lt => f
  | Gt => (f + 1)%Z
  | Eq => if Z.even f then f else (f + 1)%Z
  end.

Definition round3 (x : Q) : Q :=
  inject_Z (round_half_even (x * 1000)) / 1000.

(** [k] is a whole number nearest to [y]: either of the two when [y] lies
    half-way between them.  [round] settles such a tie on the binary64
    number it is given, which may lie on either side of [y]. *)
Definition nearest (k : Z) (y : Q) : Prop :=
  (inject_Z k - (1 # 2) <= y /\ y <= inject_Z k + (1 # 2))%Q.

(** [str(z)] for an integer. *)
Definition str_of_Z (z : Z) : string :=
  if (z <? 0)%Z then ("-" ++ str_of_N (Z.to_N (- z)))%string
  else str_of_N (Z.to_N z).

(** [x > y] on numbers. *)
Definition gtb (x y : Q) : bool := negb (Qle_bool x y).

(** [x >= y] on numbers. *)
Definition geb (x y : Q) : bool := Qle_bool y x.

(** [x < y] on numbers. *)
Definition ltb (x y : Q) : bool := negb (Qle_bool y x).

End Py.

(** ** [utils/caption_overlay.py] *)

Module CaptionOverlay.

(** One element of the timed-words list as read from JSON: a dict whose keys
    may be absent. *)
Record word_info : Type := WordInfo {
  wi_text : option string;
  wi_start : option Q;
  wi_end : option Q
}.

(** A well-formed timed word, the [TimedWord] of the data model. *)
Record TimedWord : Type := mkWord {
  text : string;
  start : Q;
  end_ : Q
}.

Definition to_dict (w : TimedWord) : word_info :=
  WordInfo (Some (text w)) (Some (start w)) (Some (end_ w)).

(** The dict has the three keys. *)
Definition has_keys (w : word_info) : Prop :=
  is_Some (wi_text w) /\ is_Some (wi_start w) /\ is_Some (wi_end w).

(** A finalized group: the values stored under ["start"] and ["end"], and
    the list [words_to_finalize] whose join is stored under ["text"].
    ["end"] is [last_word_end_time] or [word_end], the former [None] while no
    group is open. *)
Record group : Type := Group {
  g_start : Q;
  g_end : option Q;
  g_words : list string
}.

(** The dict appended to [grouped_captions]. *)
Record caption : Type := Caption {
  c_start : Q;
  c_end : option Q;
  c_text : string
}.

Definition caption_of_group (g : group) : caption :=
  Caption (g_start g) (g_end g) (Py.join " " (g_words g)).

(** The variables the loop updates. *)
Record gstate : Type := GState {
  grouped_captions : list group;
  current_group_words : list string;
  current_start_time : option Q;
  last_word_end_time : option Q
}.

Definition punctuation : list string := ["."; ","; "!"; "?"; ";"; ":"].

Definition is_nil {A} (l : list A) : bool :=
  match l with [] => true | _ => false end.

Section Grouping.

Variable max_words_per_caption : Z.
Variable max_duration_per_caption : Q.

(** One iteration of the loop, for the word at index [i] of [n] words. *)
Definition step (n i : nat) (st : gstate)
    (word_text : string) (word_start word_end : Q) : gstate :=
  let cgw := current_group_words st in
  (* if not current_group_words: current_start_time = word_start *)
  let cst0 := if is_nil cgw then Some word_start else current_start_time st in
  let exceeds_word_limit :=
    (max_words_per_caption <=? Z.of_nat (List.length cgw))%Z in
  (* if current_start_time is None: current_start_time = word_start *)
  let cst := match cst0 with Some c => c | None => word_start end in
  let exceeds_duration :=
    Py.gtb (word_end - cst) max_duration_per_caption in
  let ends_with_punctuation :=
    existsb (Py.endswith word_text) punctuation in
  let is_last_word := (i =? n - 1)%nat in
  let should_finalize :=
    negb (is_nil cgw)
    && (exceeds_word_limit || exceeds_duration
        || ends_with_punctuation || is_last_word) in
  if should_finalize then
    let included :=
      negb (exceeds_word_limit || exceeds_duration) || is_last_word in
    let words_to_finalize :=
      if included then cgw ++ [word_text] else cgw in
    let final_group_end_time :=
      if included then Some word_end else last_word_end_time st in
    let grouped :=
      grouped_captions st
        ++ [Group cst final_group_end_time words_to_finalize] in
    if negb is_last_word && (exceeds_word_limit || exceeds_duration)
    then GState grouped [word_text] (Some word_start) (Some word_end)
    else GState grouped [] None None
  else
    GState (grouped_captions st) (cgw ++ [word_text])
           (Some cst) (Some word_end).

(** [for i, word_info in enumerate(timed_words)], from index [i] on. *)
Fixpoint loop (n i : nat) (ws : list word_info) (st : gstate)
  : result gstate :=
  match ws with
  | [] => Ok st
  | word_info :: rest =>
      try! word_text := getitem "text" (wi_text word_info) in
      try! word_start := getitem "start" (wi_start word_info) in
      try! word_end := getitem "end" (wi_end word_info) in
      loop n (S i) rest (step n i st word_text word_start word_end)
  end.

(** The safeguard after the loop. *)
Definition flush (st : gstate) : list group :=
  match current_group_words st, current_start_time st,
        last_word_end_time st with
  | _ :: _, Some s, Some e =>
      grouped_captions st ++ [Group s (Some e) (current_group_words st)]
  | _, _, _ => grouped_captions st
  end.

Definition group_runs (timed_words : list word_info)
  : result (list group) :=
  match timed_words with
  | [] => Ok []
  | first :: _ =>
      try! s0 := getitem "start" (wi_start first) in
      try! e0 := getitem "end" (wi_end first) in
      try! st := loop (List.length timed_words) 0 timed_words
                   (GState [] [] (Some s0) (Some e0)) in
      Ok (flush st)
  end.

Definition group_words_into_captions (timed_words : list word_info)
  : result (list caption) :=
  try! gs := group_runs timed_words in
  Ok (map caption_of_group gs).

End Grouping.

(** *** [load_captions] and [add_captions_to_video] *)

(** A value found under ["start"] or ["end"] in the JSON file.  A JSON
    boolean is a Python [bool], which is an [int]. *)
Inductive json_value : Type :=
| JNumber (q : Q)
| JBool (b : bool)
| JString (s : string)
| JNull.

(** One element of the JSON list before it is checked; the value under
    ["text"] is taken to be a string. *)
Record json_word : Type := JsonWord {
  jw_text : option string;
  jw_start : option json_value;
  jw_end : option json_value
}.

(** The parsed file: a list of words, or any other JSON value. *)
Inductive json_doc : Type :=
| JList (data : list json_word)
| JOther.

(** [isinstance(v, (int, float))], with the number [v] then stands for. *)
Definition number_of (v : json_value) : option Q :=
  match v with
  | JNumber q => Some q
  | JBool b => Some (if b then 1%Q else 0%Q)
  | JString _ | JNull => None
  end.

(** The two checks [load_captions] makes on a word. *)
Definition check_word (w : json_word) : result word_info :=
  match jw_start w, jw_end w, jw_text w with
  | Some s, Some e, Some t =>
      match number_of s, number_of e with
      | Some s, Some e => Ok (WordInfo (Some t) (Some s) (Some e))
      | _, _ => Raise ValueError
      end
  | _, _, _ => Raise ValueError
  end.

(** [for i, word_info in enumerate(data)] *)
Fixpoint check_words (data : list json_word) : result (list word_info) :=
  match data with
  | [] => Ok []
  | w :: rest =>
      try! w' := check_word w in
      try! rest' := check_words rest in
      Ok (w' :: rest')
  end.

(** [load_captions] on a file that exists and parses as JSON. *)
Definition load_captions (doc : json_doc) : result (list word_info) :=
  match doc with
  | JList data => check_words data
  | JOther => Raise ValueError
  end.

(** A [TextClip] with the start and the duration set on it. *)
Record text_clip : Type := TextClip {
  tc_text : string;
  tc_start : Q;
  tc_duration : Q
}.

(** [for caption in grouped_captions]: the clips appended to [text_clips],
    or [None] for the [TypeError] of a block whose end is [None]. *)
Fixpoint caption_clips (captions : list caption) : option (list text_clip) :=
  match captions with
  | [] => Some []
  | caption :: rest =>
      match c_end caption with
      | None => None
      | Some end_time =>
          let start_time := c_start caption in
          let duration := (end_time - start_time)%Q in
          if Qle_bool duration 0 then caption_clips rest  (* continue *)
          else
            option_map (cons (TextClip (c_text caption) start_time duration))
                       (caption_clips rest)
      end
  end.

(** What [add_captions_to_video] leaves at [output_path]: a copy of the
    input video, the video composited with the text clips, or a copy
    followed by [RuntimeError]. *)
Inductive overlay : Type :=
| Copied
| Composited (text_clips : list text_clip)
| CopiedThenRaised.

(** [add_captions_to_video] for a video and a captions file that open, the
    text clips rendering and the write succeeding. *)
Definition add_captions_to_video (doc : json_doc) : overlay :=
  match load_captions doc with
  | Raise _ => CopiedThenRaised
  | Ok timed_words =>
      if is_nil timed_words then Copied
      else
        match group_words_into_captions 4%Z 4%Q timed_words with
        | Raise _ => CopiedThenRaised
        | Ok grouped_captions =>
            if is_nil grouped_captions then Copied
            else
              match caption_clips grouped_captions with
              | None => CopiedThenRaised
              | Some [] => Copied
              | Some text_clips => Composited text_clips
              end
        end
  end.

(** A word as [json.dump] writes it. *)
Definition to_json (w : TimedWord) : json_word :=
  JsonWord (Some (text w)) (Some (JNumber (start w)))
           (Some (JNumber (end_ w))).

(** The word passes the checks of [load_captions]. *)
Definition valid_word (w : json_word) : Prop :=
  is_Some (jw_text w)
  /\ is_Some (jw_start w ≫= number_of)
  /\ is_Some (jw_end w ≫= number_of).

End CaptionOverlay.

(** ** [utils/caption_generator.py] *)

Module CaptionGenerator.
Import CaptionOverlay.

Local Open Scope Q_scope.

(** The body of [parse_srt_time] inside its [try].  The regular expression
    of [convert_srt_to_timed_words] only lets digits, [:] and [,] through,
    so [int] is only applied to digit strings. *)
Definition parse_srt_time_body (time_str : string) : result Q :=
  let parts := Py.split_on "," time_str in
  match Py.split_on ":" (List.nth 0 parts "") with
  | [hs; ms; ss] =>
      try! h := Py.int_of_digits hs in
      try! m := Py.int_of_digits ms in
      try! s := Py.int_of_digits ss in
      match parts with
      | _ :: p1 :: _ =>
          try! ms := Py.int_of_digits p1 in
          Ok (inject_Z (Z.of_N h) * 3600 + inject_Z (Z.of_N m) * 60
              + inject_Z (Z.of_N s) + inject_Z (Z.of_N ms) / 1000)
      | _ => Raise IndexError
      end
  | _ => Raise ValueError
  end.

(** [parse_srt_time]: any exception is logged and turned into [0.0]. *)
Definition parse_srt_time (time_str : string) : Q :=
  match parse_srt_time_body time_str with
  | Ok t => t
  | Raise _ => 0
  end.

(** One match of the block pattern: index, the two time strings, the text. *)
Record srt_match : Type := SrtMatch {
  index : string;
  start_str : string;
  end_str : string;
  text_block : string
}.

(** The inner [for i, word in enumerate(words)] loop. *)
Fixpoint spread_words (time_per_word end_time : Q)
    (current_word_start_time : Q) (words : list string) : list TimedWord :=
  match words with
  | [] => []
  | word :: rest =>
      let word_end_time :=
        Qmin (current_word_start_time + time_per_word) end_time in
      mkWord word (Py.round3 current_word_start_time)
             (Py.round3 word_end_time)
        :: spread_words time_per_word end_time word_end_time rest
  end.

(** [words]: the text block cleaned and split. *)
Definition block_words (m : srt_match) : list string :=
  let text :=
    Py.strip (Py.join " " (Py.splitlines (Py.strip (text_block m)))) in
  Py.split text.

(** The words one block contributes to [timed_words]. *)
Definition words_of_match (m : srt_match) : list TimedWord :=
  let start_time := parse_srt_time (start_str m) in
  let end_time := parse_srt_time (end_str m) in
  let duration := end_time - start_time in
  if Qle_bool duration 0 then []
  else
    let words := block_words m in
    match words with
    | [] => []
    | _ =>
        let num_words := List.length words in
        let time_per_word := duration / inject_Z (Z.of_nat num_words) in
        spread_words time_per_word end_time start_time words
    end.

(** [convert_srt_to_timed_words] on the matches found in the file: the list
    written to the JSON file, or [None] where the function returns [False]
    before writing. *)
Definition convert_srt_to_timed_words (matches : list srt_match)
  : option (list TimedWord) :=
  match matches with
  | [] => None
  | _ => Some (List.flat_map words_of_match matches)
  end.

End CaptionGenerator.

(** ** [utils/audio_generator_fr.py] *)

Module AudioGenerator.
Import CaptionOverlay.

Local Open Scope Q_scope.

(** The rendering of a millisecond count, shared by the two readings of
    [seconds] below. *)
Definition format_milliseconds (total_milliseconds : Z) : string :=
  let hours := (total_milliseconds / 3600000)%Z in
  let remainder := (total_milliseconds mod 3600000)%Z in
  let minutes := (remainder / 60000)%Z in
  let remainder := (remainder mod 60000)%Z in
  let seconds_part := (remainder / 1000)%Z in
  let milliseconds := (remainder mod 1000)%Z in
  (Py.format_d 2 hours ++ ":" ++ Py.format_d 2 minutes ++ ":"
     ++ Py.format_d 2 seconds_part ++ "," ++ Py.format_d 3 milliseconds)%string.

(** [format_time_srt] on seconds idealised as rationals, as the subtitle
    formatter below writes its time stamps; [format_time_srt_float] is the
    function on binary64. *)
Definition format_time_srt (seconds : Q) : string :=
  let seconds := if Py.ltb seconds 0 then 0 else seconds in
  let total_milliseconds := Py.int_of_Q (seconds * 1000) in
  format_milliseconds total_milliseconds.

(** The number a binary64 float stands for, written [m * 2 ^ e] with its
    sign; [None] for an infinity and for a NaN. *)
Definition float_value (x : float) : option Q :=
  match Prim2SF x with
  | S754_zero _ => Some 0
  | S754_finite sign m e =>
      let magnitude :=
        if (0 <=? e)%Z then inject_Z (Z.pos m * 2 ^ e)
        else inject_Z (Z.pos m) / inject_Z (2 ^ (- e)) in
      Some (if sign then - magnitude else magnitude)
  | S754_infinity _ | S754_nan => None
  end.

(** [int(x)] on a binary64 float: truncation toward zero, [OverflowError] on
    an infinity and [ValueError] on a NaN. *)
Definition int_of_float (x : float) : result Z :=
  match Prim2SF x with
  | S754_zero _ => Ok 0%Z
  | S754_finite sign m e =>
      let magnitude :=
        if (0 <=? e)%Z then (Z.pos m * 2 ^ e)%Z
        else (Z.pos m / 2 ^ (- e))%Z in
      Ok (if sign then (- magnitude)%Z else magnitude)
  | S754_infinity _ => Raise OverflowError
  | S754_nan => Raise ValueError
  end.

(** [if seconds < 0: seconds = 0] *)
Definition clamp_seconds (seconds : float) : float :=
  if PrimFloat.ltb seconds 0%float then 0%float else seconds.

(** [format_time_srt] in the arithmetic Python performs, on binary64
    floats: the product [seconds * 1000] is rounded to binary64 before [int]
    truncates it. *)
Definition format_time_srt_float (seconds : float) : result string :=
  let seconds := clamp_seconds seconds in
  try! total_milliseconds := int_of_float (PrimFloat.mul seconds 1000%float) in
  Ok (format_milliseconds total_milliseconds).

(** A [SubMaker]: the parallel lists [subs] and [offset], the offsets in
    ticks of 100 ns. *)
Record SubMaker : Type := mkSubMaker {
  subs : list string;
  offset : list (Q * Q)
}.

(** Nothing is left of the string once stripped. *)
Definition blank (s : string) : Prop := Py.strip s = "".

Section WithUnescape.

(** [xml.sax.saxutils.unescape] *)
Variable unescape : string -> string.

Definition timed_word_of_sub (sub : string) (off : Q * Q) : TimedWord :=
  let text := Py.strip (unescape sub) in
  let start_sec := fst off / 10000000 in
  let end_sec := snd off / 10000000 in
  let end_sec := if Py.ltb end_sec start_sec then start_sec else end_sec in
  mkWord text (Py.round3 start_sec) (Py.round3 end_sec).

(** [for i in range(min_len)] over both lists. *)
Fixpoint timed_words_loop (ss : list string) (os : list (Q * Q))
  : list TimedWord :=
  match ss, os with
  | sub :: ss', off :: os' =>
      timed_word_of_sub sub off :: timed_words_loop ss' os'
  | _, _ => []
  end.

Definition get_timed_words_from_submaker (sub_maker : option SubMaker)
  : list TimedWord :=
  match sub_maker with
  | None => []
  | Some sm =>
      if is_nil (subs sm) || is_nil (offset sm) then []
      else timed_words_loop (subs sm) (offset sm)
  end.

(** *** [create_subtitle] *)

(** The wrapping loop of [formatter]: [current_line] grows by [" " + word]
    and is cut after every fifth word that is not the last. *)
Fixpoint wrap_lines (n i : nat) (current_line : string)
    (words : list string) : list string :=
  match words with
  | [] =>
      if is_nil (list_ascii_of_string (Py.strip current_line)) then []
      else [Py.strip current_line]
  | word :: rest =>
      let current_line := (current_line ++ " " ++ word)%string in
      if (((S i) mod 5 =? 0) && (i <? n - 1))%nat
      then Py.strip current_line :: wrap_lines n (S i) "" rest
      else wrap_lines n (S i) current_line rest
  end.

Definition newline : string := String (ascii_of_nat 10) EmptyString.

Definition formatter (idx : nat) (start_time_ns end_time_ns : Q)
    (sub_text : string) : string :=
  let start_t := format_time_srt (start_time_ns / 10000000) in
  let end_t := format_time_srt (end_time_ns / 10000000) in
  let words := Py.split sub_text in
  let lines := wrap_lines (List.length words) 0 "" words in
  let formatted_text :=
    Py.join newline
      (List.filter (fun l => negb (is_nil (list_ascii_of_string l))) lines) in
  (Py.str_of_N (N.of_nat idx) ++ newline ++ start_t ++ " --> " ++ end_t
     ++ newline ++ formatted_text ++ newline)%string.

(** The punctuation marks tested by the alignment, one string per
    character of the source literal. *)
Definition align_punctuation : list string :=
  [","; "."; "!"; "?"; "。"; "，"; "、"; "？"; "！"; "；"; "："].

Definition ends_with_any (s : string) : bool :=
  existsb (Py.endswith s) align_punctuation.

(** The variables of the alignment loop, which [utils/voice.py] has word
    for word; only the formatter of the time stamps differs there. *)
Record astate : Type := AState {
  start_time_ns : Q;
  sub_items : list string;
  sub_index : nat;
  current_sub_line : string;
  script_line_idx : nat;
  processed_words : nat
}.

Definition astate0 : astate := AState (-1) [] 0 "" 0 0.

Section Align.

Variable script_lines : list string.

(** The body of the [while] loop for a non-empty [word] with offsets
    [(start_ns, end_ns)]; [is_last] is [word_idx == len(sub_maker.subs) - 1]. *)
Definition align_word (st : astate) (is_last : bool) (word : string)
    (start_ns end_ns : Q) : astate :=
  let start_time := if Py.ltb (start_time_ns st) 0 then start_ns
                    else start_time_ns st in
  let line := (current_sub_line st ++ " " ++ word)%string in
  let processed := S (processed_words st) in
  let ends_with_punctuation := ends_with_any word in
  let current_script_line :=
    Py.strip (List.nth (script_line_idx st) script_lines "") in
  let finalize_block :=
    (ends_with_punctuation && ends_with_any current_script_line)
    || (8 <=? processed)%nat
    || is_last in
  if finalize_block then
    let idx := S (sub_index st) in
    AState (-1)
           (sub_items st
              ++ [formatter idx start_time end_ns current_script_line])
           idx "" (S (script_line_idx st)) 0
  else
    AState start_time (sub_items st) (sub_index st) line
           (script_line_idx st) processed.

(** The [while] loop, run while [word_idx < len(sub_maker.subs)] and
    [script_line_idx < len(script_lines)], on the words from [word_idx] on
    and their offsets. *)
Fixpoint align_loop (ss : list string) (os : list (Q * Q)) (st : astate)
  : result astate :=
  match ss with
  | [] => Ok st
  | sub :: ss' =>
      if (script_line_idx st <? List.length script_lines)%nat then
        match os with
        | [] => Raise IndexError
        | (start_ns, end_ns) :: os' =>
            let word := Py.strip (unescape sub) in
            if is_nil (list_ascii_of_string word)
            then align_loop ss' os' st
            else align_loop ss' os'
                   (align_word st (is_nil ss') word start_ns end_ns)
        end
      else Ok st
  end.

(** What [create_subtitle] has when it reaches the file write: the items and
    whether the warning about imperfect alignment was logged. *)
Record subtitle_items : Type := SubtitleItems {
  items : list string;
  warned : bool
}.

(** The block after the loop. *)
Definition append_remaining (sm : SubMaker) (st : astate)
  : result subtitle_items :=
  if negb (is_nil (list_ascii_of_string (Py.strip (current_sub_line st))))
     && (script_line_idx st <? List.length script_lines)%nat
  then
    match List.rev (offset sm) with
    | [] => Raise IndexError
    | (_, last_end) :: _ =>
        Ok (SubtitleItems
              (sub_items st
                 ++ [formatter (S (sub_index st)) (start_time_ns st) last_end
                       (Py.strip
                          (List.nth (script_line_idx st) script_lines ""))])
              true)
    end
  else Ok (SubtitleItems (sub_items st) false).

(** [create_subtitle] up to the file write, [script_lines] being
    [split_string_by_punctuations(_format_text(text))].  [Ok None] is the
    early [return False]. *)
Definition create_subtitle (sub_maker : option SubMaker)
  : result (option subtitle_items) :=
  match sub_maker with
  | None => Ok None
  | Some sm =>
      if is_nil (offset sm) || is_nil (subs sm) then Ok None
      else if is_nil script_lines then Ok None
      else
        try! st := align_loop (subs sm) (offset sm) astate0 in
        try! r := append_remaining sm st in
        if is_nil (items r) then Ok None else Ok (Some r)
  end.

End Align.

End WithUnescape.


(** *** [split_string_by_punctuations]

    Strings are read as UTF-8, a mark of the character class being the one
    or three bytes of its encoding; [\s] is a blank of [Py.is_space]. *)

Definition SPLIT : list ascii := list_ascii_of_string "<SPLIT>".

(** [s.startswith(p)] on the characters. *)
Fixpoint starts_with (p s : list ascii) : bool :=
  match p, s with
  | [], _ => true
  | a :: p', b :: s' => Ascii.eqb a b && starts_with p' s'
  | _ :: _, [] => false
  end.

Definition marks : list (list ascii) :=
  List.map list_ascii_of_string align_punctuation.

(** The mark the character class matches at the head of [s]. *)
Definition mark_at (s : list ascii) : option (list ascii) :=
  List.find (fun m => starts_with m s) marks.

(** [re.sub(r'([,.!?...])\s*', r'\1<SPLIT>', s)]: a mark and the blanks
    after it are replaced by the mark and the marker, any other character
    is copied.  [fuel] bounds the number of steps; the length of [s] and
    one more are enough. *)
Fixpoint re_sub (fuel : nat) (s : list ascii) : list ascii :=
  match fuel with
  | O => []
  | S fuel' =>
      match s with
      | [] => []
      | c :: s' =>
          match mark_at s with
          | Some m =>
              m ++ SPLIT
                ++ re_sub fuel'
                     (Py.lstrip_chars (List.skipn (List.length m) s))
          | None => c :: re_sub fuel' s'
          end
      end
  end.

(** [s.split(sep)] for a separator of any length, with the same bound. *)
Fixpoint split_at (sep : list ascii) (fuel : nat) (cur : list ascii)
    (s : list ascii) : list string :=
  match fuel with
  | O => []
  | S fuel' =>
      match s with
      | [] => [string_of_list_ascii (rev cur)]
      | c :: s' =>
          if starts_with sep s
          then string_of_list_ascii (rev cur)
                 :: split_at sep fuel' [] (List.skipn (List.length sep) s)
          else split_at sep fuel' (c :: cur) s'
      end
  end.

Definition split_string_by_punctuations (s : string) : list string :=
  if String.eqb s "" then []
  else
    let chars := list_ascii_of_string s in
    let s := re_sub (S (List.length chars)) chars in
    let parts := split_at SPLIT (S (List.length s)) [] s in
    List.filter (fun part => negb (is_nil (list_ascii_of_string part)))
                (List.map Py.strip parts).

(** The characters [_format_text] replaces by a space. *)
Definition is_bracket (c : ascii) : bool :=
  existsb (Ascii.eqb c) ["("; ")"; "["; "]"; "{"; "}"]%char.

Definition brackets_to_spaces (text : string) : string :=
  string_of_list_ascii
    (List.map (fun c => if is_bracket c then " "%char else c)
              (list_ascii_of_string text)).

Definition _format_text (text : string) : string :=
  let text := brackets_to_spaces text in
  let text := Py.join " " (Py.split text) in
  Py.strip text.

(** The items are numbered from 1 and the item numbered [k + 1] shows the
    script line of index [k]. *)
Definition follows_script (script_lines items : list string) : Prop :=
  (List.length items <= List.length script_lines)%nat
  /\ forall k item,
       List.nth_error items k = Some item ->
       exists s e,
         item = formatter (S k) s e (Py.strip (List.nth k script_lines "")).

(** What holds of the variables of the alignment loop between two
    iterations. *)
Record aligned (script_lines : list string) (st : astate) : Prop := {
  aligned_index : sub_index st = List.length (sub_items st);
  aligned_line : script_line_idx st = List.length (sub_items st);
  aligned_items : follows_script script_lines (sub_items st)
}.

(** An item has been written, or words are pending with a script line left
    for them. *)
Definition productive (script_lines : list string) (st : astate) : Prop :=
  sub_items st <> []
  \/ (~ blank (current_sub_line st)
      /\ (script_line_idx st < List.length script_lines)%nat).

(** [get_audio_duration] *)
Definition get_audio_duration (sub_maker : option SubMaker) : Q :=
  match sub_maker with
  | None => 0
  | Some sm =>
      match List.rev (offset sm) with
      | [] => 0
      | (_, last_end) :: _ => last_end / 10000000
      end
  end.

End AudioGenerator.

(** ** [utils/voice.py]

    The module has [create_subtitle], [get_audio_duration] and
    [get_timed_words_from_submaker] as above; its [formatter] wraps the text
    with a loop of its own. *)

Module Voice.
Import CaptionOverlay.

(** The wrapping loop of [formatter]: before every fifth word the line is
    closed and the word opens the next one. *)
Fixpoint wrap_lines (i : nat) (current_line : string) (words : list string)
  : list string :=
  match words with
  | [] => [Py.strip current_line]
  | word :: rest =>
      if ((0 <? i) && (i mod 5 =? 0))%nat
      then Py.strip current_line :: wrap_lines (S i) word rest
      else wrap_lines (S i) (current_line ++ " " ++ word)%string rest
  end.

(** [l for l in lines if l] *)
Definition kept (lines : list string) : list string :=
  List.filter (fun l => negb (is_nil (list_ascii_of_string l))) lines.

(** [formatted_text] of [formatter]. *)
Definition formatted_text (sub_text : string) : string :=
  let words := Py.split sub_text in
  let lines := wrap_lines 0 "" words in
  Py.join AudioGenerator.newline (kept lines).

End Voice.

(** ** Lines of words

    The vocabulary in which the wrapped text of a subtitle is described. *)

Module Lines.
Import CaptionOverlay.

(** A word as [str.split()] returns them: not empty, no blank in it. *)
Definition token (w : string) : Prop :=
  w <> ""
  /\ forallb (fun c => negb (Py.is_space c)) (list_ascii_of_string w) = true.

(** The line being built once the words [cur] have been added to it. *)
Definition pending (cur : list string) : string :=
  List.fold_left (fun line w => (line ++ " " ++ w)%string) cur "".

(** The words of the lines the wrapping loop of [audio_generator_fr.py]
    closes, for the words from index [i] on, [cur] being the words of the
    line being built. *)
Fixpoint chunks (n i : nat) (cur : list string) (words : list string)
  : list (list string) :=
  match words with
  | [] => if is_nil cur then [] else [cur]
  | word :: rest =>
      if (((S i) mod 5 =? 0) && (i <? n - 1))%nat
      then (cur ++ [word]) :: chunks n (S i) [] rest
      else chunks n (S i) (cur ++ [word]) rest
  end.

(** The first character of the marker. *)
Definition lt_char : ascii := "<"%char.

(** The characters that are not blank. *)
Definition inked (l : list ascii) : list ascii :=
  List.filter (fun c => negb (Py.is_space c)) l.

(** The pieces [segs], each followed by the marker, then [last]. *)
Definition flat (segs : list (list ascii)) (last : list ascii)
  : list ascii :=
  List.concat (List.map (fun g => g ++ AudioGenerator.SPLIT) segs) ++ last.

(** No mark starts inside [pre] when [after] follows it. *)
Definition quiet (pre after : list ascii) : Prop :=
  forall a b,
    pre = a ++ b -> b <> [] -> AudioGenerator.mark_at (b ++ after) = None.

(** A piece that ends with a mark and has no other. *)
Definition marked (g : list ascii) : Prop :=
  exists pre m,
    In m AudioGenerator.marks /\ g = pre ++ m /\ quiet pre m.

(** A mark occurs in the line only as its end. *)
Definition mark_only_last (l : list ascii) : Prop :=
  forall a b,
    l = a ++ b -> AudioGenerator.mark_at b <> None ->
    In b AudioGenerator.marks.

End Lines.

(** ** [utils/video_composer.py] *)

Module VideoComposer.

Local Open Scope Q_scope.

(** One element of [script_data["scenes"]], read with [scene.get]. *)
Record scene : Type := Scene {
  scene_number : option Z;
  visual_type : option string;
  duration_seconds : option Q
}.

(** Where a clip's frames come from. *)
Inductive source : Type :=
| VideoFileClip (path : string)
| ImageClip (path : string)
| ColorClip (color : Z * Z * Z)
| ErrorClip (scene_number : Z).

(** How the frames of the source are laid out in time. *)
Inductive timing : Type :=
| Natural
| Subclip (t_start t_end : Q)
| Loop (period duration : Q).


(** A moviepy clip: [duration] is [None] for an image without duration. *)
Record clip : Type := Clip {
  src : source;
  cut : timing;
  size : Z * Z;
  duration : option Q
}.

Definition set_duration (c : clip) (d : Q) : clip :=
  Clip (src c) (cut c) (size c) (Some d).

(** What is on disk and what the libraries answer.  [video_file p] is the
    size and duration of [VideoFileClip(p)], [image_file p] the size of
    [ImageClip(p)], or the exception the constructor raises; [draws k] is
    the random number behind the [k]-th call of [random.choice]. *)
Record assets : Type := Assets {
  is_file : string -> bool;
  video_file : string -> result ((Z * Z) * Q);
  image_file : string -> result (Z * Z);
  ai_images_dir : list string;
  stock_videos_map : gmap Z (list string);
  hook_video_path : option string;
  product_image_path : option string;
  main_product_video_path : option string;
  audio_duration : result Q;
  draws : nat -> nat
}.

Definition TIKTOK_ASPECT_RATIO : Z * Z := (1080, 1920)%Z.
Definition DEFAULT_BG_COLOR : Z * Z * Z := (0, 0, 0)%Z.
Definition MAX_HOOK_DURATION : Q := 4.

(** Truth value of an optional Python value. *)
Definition truthy_int (v : option Z) : bool :=
  match v with Some n => negb (n =? 0)%Z | None => false end.
Definition truthy_str (v : option string) : bool :=
  match v with Some s => negb (String.eqb s "") | None => false end.
Definition truthy_num (v : option Q) : bool :=
  match v with Some q => negb (Qeq_bool q 0) | None => false end.

(** [sorted(...)] on paths of one directory: insertion into the
    lexicographic order of the names. *)
Fixpoint insert_sorted (x : string) (l : list string) : list string :=
  match l with
  | [] => [x]
  | y :: l' => if String.leb x y then x :: l else y :: insert_sorted x l'
  end.

Definition sorted (l : list string) : list string :=
  List.fold_right insert_sorted [] l.

(** [dir.glob("*.jpeg")] *)
Definition glob_jpeg (dir : list string) : list string :=
  List.filter (fun name => Py.endswith name ".jpeg") dir.

(** [a / b] on integers. *)
Definition div (a b : Z) : result Q :=
  if (b =? 0)%Z then Raise ZeroDivisionError
  else Ok (inject_Z a / inject_Z b).

(** [resize_clip_to_aspect]; both branches give the target frame in exact
    arithmetic, the second by compositing on a background. *)
Definition resize_clip_to_aspect (c : clip) (target_width target_height : Z)
  : result clip :=
  let '(clip_w, clip_h) := size c in
  try! target_ratio := div target_width target_height in
  try! clip_ratio := div clip_w clip_h in
  if Qeq_bool clip_ratio target_ratio then
    (* clip.resize(width=target_width) *)
    try! new_height := div (clip_h * target_width) clip_w in
    Ok (Clip (src c) (cut c) (target_width, Py.int_of_Q new_height)
             (duration c))
  else
    try! scale_factor :=
      (if Py.gtb clip_ratio target_ratio then div target_width clip_w
       else div target_height clip_h) in
    let clip_duration :=
      match duration c with Some d => d | None => 1 end in
    Ok (Clip (src c) (cut c) (target_width, target_height)
             (Some clip_duration)).

(** The variables the scene loop updates; [processing_log] lists the scene
    numbers of the ["Processing Scene ..."] log lines, in the order logged;
    [choices] counts the calls of [random.choice]. *)
Record cstate : Type := CState {
  video_clips : list clip;
  ai_image_index : nat;
  current_video_duration : Q;
  error_occurred : bool;
  choices : nat;
  processing_log : list Z
}.

Definition cstate0 : cstate := CState [] 0 0 false 0 [].

Section Compose.

Variable env : assets.
Variables target_w target_h : Z.

(** [path and Path(path).is_file()] *)
Definition available (path : option string) : option string :=
  match path with
  | Some p => if negb (String.eqb p "") && is_file env p then Some p else None
  | None => None
  end.

(** The trim-or-loop of a video to [duration_seconds]. *)
Definition fit_video (path : string) (video : (Z * Z) * Q)
    (duration_seconds : Q) : clip :=
  let '(sz, temp_duration) := video in
  if Py.geb temp_duration duration_seconds
  then Clip (VideoFileClip path) (Subclip 0 duration_seconds) sz
            (Some (duration_seconds - 0))
  else Clip (VideoFileClip path) (Loop temp_duration duration_seconds) sz
            (Some duration_seconds).

(** [random.choice(video_paths)] for the [k]-th call. *)
Definition random_choice (k : nat) (video_paths : list string) : string :=
  List.nth (draws env k mod List.length video_paths) video_paths "".

(** The part of the [try] body that loads the media: the new
    [ai_image_index] and [choices], and [scene_clip_raw] ([None] where the
    code leaves it so) or the exception that leaves the [try]. *)
Definition load_media (st : cstate) (number : Z) (vtype : string)
    (duration_seconds : Q) : (nat * nat) * result (option clip) :=
  let keep := (ai_image_index st, choices st) in
  if String.eqb vtype "hook" then
    match available (hook_video_path env) with
    | Some p =>
        match video_file env p with
        | Ok (sz, actual_hook_duration) =>
            let target_duration :=
              Qmin (Qmin duration_seconds actual_hook_duration)
                   MAX_HOOK_DURATION in
            (keep, Ok (Some (Clip (VideoFileClip p)
                                  (Subclip 0 target_duration) sz
                                  (Some (target_duration - 0)))))
        | Raise _ => (keep, Ok None)
        end
    | None => (keep, Ok None)
    end
  else if String.eqb vtype "ai_image" then
    let ai_image_files := sorted (glob_jpeg (ai_images_dir env)) in
    match List.nth_error ai_image_files (ai_image_index st) with
    | Some p =>
        match image_file env p with
        | Ok sz =>
            ((S (ai_image_index st), choices st),
             Ok (Some (set_duration (Clip (ImageClip p) Natural sz None)
                                    duration_seconds)))
        | Raise e => (keep, Raise e)
        end
    | None => (keep, Ok None)
    end
  else if String.eqb vtype "stock_video" then
    match default [] (stock_videos_map env !! number) with
    | [] => (keep, Ok None)
    | video_paths =>
        let p := random_choice (choices st) video_paths in
        let drawn := (ai_image_index st, S (choices st)) in
        match video_file env p with
        | Ok video => (drawn, Ok (Some (fit_video p video duration_seconds)))
        | Raise e => (drawn, Raise e)
        end
    end
  else if String.eqb vtype "product_shot" then
    match available (product_image_path env) with
    | Some p =>
        match image_file env p with
        | Ok sz =>
            (keep,
             Ok (Some (set_duration (Clip (ImageClip p) Natural sz None)
                                    duration_seconds)))
        | Raise e => (keep, Raise e)
        end
    | None => (keep, Ok None)
    end
  else if String.eqb vtype "product_video" then
    match available (main_product_video_path env) with
    | Some p =>
        match video_file env p with
        | Ok video => (keep, Ok (Some (fit_video p video duration_seconds)))
        | Raise _ => (keep, Ok None)
        end
    | None => (keep, Ok None)
    end
  else (keep, Ok None).

(** The rest of the [try] body: placeholder, forced duration, reframing. *)
Definition finish_clip (scene_clip_raw : option clip) (duration_seconds : Q)
  : result clip :=
  let raw :=
    match scene_clip_raw with
    | Some c => c
    | None =>
        Clip (ColorClip DEFAULT_BG_COLOR) Natural (target_w, target_h)
             (Some duration_seconds)
    end in
  resize_clip_to_aspect (set_duration raw duration_seconds) target_w target_h.

(** The clip of the [except] branch, once it is built; [error_clip] below
    is its construction, which can fail. *)
Definition error_placeholder (number : Z) (duration_seconds : Q) : clip :=
  Clip (ErrorClip number) Natural (target_w, target_h)
       (Some duration_seconds).

(** One iteration of [for scene in scenes] in a run where the clip of the
    [except] branch can be built; [run_scene] below is the iteration in
    general.  The [finally] clause closes the raw clip and changes none of
    the variables. *)
Definition process_scene (st : cstate) (sc : scene) : cstate :=
  if negb (truthy_int (scene_number sc) && truthy_str (visual_type sc)
           && truthy_num (duration_seconds sc))
  then st  (* continue *)
  else
    match scene_number sc, visual_type sc, duration_seconds sc with
    | Some number, Some vtype, Some d =>
        let log := processing_log st ++ [number] in
        let '((ai_index, drawn), loaded) := load_media st number vtype d in
        match (try! raw := loaded in finish_clip raw d) with
        | Ok processed_clip =>
            CState (video_clips st ++ [processed_clip]) ai_index
                   (current_video_duration st + d) (error_occurred st)
                   drawn log
        | Raise _ =>
            CState (video_clips st ++ [error_placeholder number d]) ai_index
                   (current_video_duration st + d) true drawn log
        end
    | _, _, _ => st
    end.

Definition process_scenes (scenes : list scene) : cstate :=
  List.fold_left process_scene scenes cstate0.

(** The scenes that pass the guard at the top of the loop body, with the
    three values read from them. *)
Definition accepted (sc : scene) : option (Z * string * Q) :=
  if truthy_int (scene_number sc) && truthy_str (visual_type sc)
     && truthy_num (duration_seconds sc)
  then
    match scene_number sc, visual_type sc, duration_seconds sc with
    | Some number, Some vtype, Some d => Some (number, vtype, d)
    | _, _, _ => None
    end
  else None.

(** [concatenate_videoclips(video_clips, method="compose")]: the clips in
    list order; its duration is the sum of theirs, undefined if one has
    none. *)
Fixpoint total_duration (clips : list clip) : option Q :=
  match clips with
  | [] => Some 0
  | c :: rest =>
      match duration c, total_duration rest with
      | Some d, Some t => Some (d + t)
      | _, _ => None
      end
  end.

Definition sum_durations (ds : list Q) : Q := List.fold_right Qplus 0 ds.

Record timeline : Type := Timeline {
  track : list clip;
  final_duration : Q;
  target_duration : Q
}.

(** [compose_final_video] up to the file write: the concatenated track that
    is written, or [None] where the function returns [False] before. *)
Definition compose_final_video (scenes : list scene) : option timeline :=
  match scenes with
  | [] => None
  | _ =>
      match audio_duration env with
      | Raise _ => None
      | Ok total_audio_duration =>
          let st := process_scenes scenes in
          match video_clips st with
          | [] => None
          | clips =>
              match total_duration clips with
              | Some d => Some (Timeline clips d (current_video_duration st))
              | None => None
              end
          end
      end
  end.

(** *** The exception that leaves the loop

    The [except] branch builds its clip from a [ColorClip] and a [TextClip]
    outside any [try]: what [TextClip] raises leaves the loop and the
    function. *)

Section Raising.

(** [TextClip(text, fontsize=50, color='white')], which has ImageMagick draw
    the text: nothing to report when the text is drawn, the exception
    otherwise. *)
Variable text_clip : string -> result unit.

(** [f"Error\nScene {scene_number}"] *)
Definition error_text (number : Z) : string :=
  ("Error" ++ AudioGenerator.newline ++ "Scene " ++ Py.str_of_Z number)%string.

(** The [except] branch up to [processed_clip]. *)
Definition error_clip (number : Z) (duration_seconds : Q) : result clip :=
  try! drawn := text_clip (error_text number) in
  Ok (error_placeholder number duration_seconds).

(** One iteration of [for scene in scenes]: the variables after it, or the
    exception that leaves it. *)
Definition run_scene (st : cstate) (sc : scene) : result cstate :=
  if negb (truthy_int (scene_number sc) && truthy_str (visual_type sc)
           && truthy_num (duration_seconds sc))
  then Ok st  (* continue *)
  else
    match scene_number sc, visual_type sc, duration_seconds sc with
    | Some number, Some vtype, Some d =>
        let log := processing_log st ++ [number] in
        let '((ai_index, drawn), loaded) := load_media st number vtype d in
        match (try! raw := loaded in finish_clip raw d) with
        | Ok processed_clip =>
            Ok (CState (video_clips st ++ [processed_clip]) ai_index
                       (current_video_duration st + d) (error_occurred st)
                       drawn log)
        | Raise _ =>
            try! processed_clip := error_clip number d in
            Ok (CState (video_clips st ++ [processed_clip]) ai_index
                       (current_video_duration st + d) true drawn log)
        end
    | _, _, _ => Ok st
    end.

(** [for scene in scenes], from the variables [st]. *)
Fixpoint run_scenes (scenes : list scene) (st : cstate) : result cstate :=
  match scenes with
  | [] => Ok st
  | sc :: rest =>
      try! st' := run_scene st sc in
      run_scenes rest st'
  end.

(** [compose_final_video] up to the file write: the concatenated track that
    is written, [None] where the function returns [False] before, or the
    exception that leaves the function. *)
Definition run_compose_final_video (scenes : list scene)
  : result (option timeline) :=
  match scenes with
  | [] => Ok None
  | _ =>
      match audio_duration env with
      | Raise _ => Ok None
      | Ok total_audio_duration =>
          try! st := run_scenes scenes cstate0 in
          match video_clips st with
          | [] => Ok None
          | clips =>
              match total_duration clips with
              | Some d =>
                  Ok (Some (Timeline clips d (current_video_duration st)))
              | None => Ok None
              end
          end
      end
  end.

(** The text of the error clip is drawn, whatever the scene. *)
Definition text_is_drawn : Prop :=
  forall number, exists u, text_clip (error_text number) = Ok u.

(** The media of the scene cannot be loaded or framed: the iteration goes
    through the [except] branch. *)
Definition media_fails (st : cstate) (sc : scene) : Prop :=
  exists number vtype d e,
    accepted sc = Some (number, vtype, d)
    /\ (try! raw := snd (load_media st number vtype d) in finish_clip raw d)
       = Raise e.

End Raising.

End Compose.

(** A scene as the data model has it, with the values the guard of the loop
    takes for present: a non-zero number, a non-empty type, a positive
    duration. *)
Definition well_formed_scene (sc : scene) : Prop :=
  exists number vtype d,
    scene_number sc = Some number /\ number <> 0%Z
    /\ visual_type sc = Some vtype /\ vtype <> ""
    /\ duration_seconds sc = Some d /\ 0 < d.

(** The pool order the comments and the specification speak of: by the
    number in the file name. *)
Definition numeric_key (name : string) : N :=
  match Py.int_of_digits (substring 0 (String.length name - 5) name) with
  | Ok n => n
  | Raise _ => 0%N
  end.

Fixpoint insert_numeric (x : string) (l : list string) : list string :=
  match l with
  | [] => [x]
  | y :: l' =>
      if (numeric_key x <=? numeric_key y)%N then x :: l
      else y :: insert_numeric x l'
  end.

Definition sorted_numeric (l : list string) : list string :=
  List.fold_right insert_numeric [] l.

(** The declared durations of a scene list. *)
Definition declared (scenes : list scene) : list Q :=
  List.map (fun sc => default 0 (duration_seconds sc)) scenes.




(** The scenes of type ["ai_image"] among those the loop processes. *)
Definition ai_image_scenes (scenes : list scene) : nat :=
  List.length
    (List.filter (fun a => String.eqb (snd (fst a)) "ai_image")
                 (omap accepted scenes)).

(** The pool of generated images as the loop lists it. *)
Definition ai_image_files (env : assets) : list string :=
  sorted (glob_jpeg (ai_images_dir env)).

End VideoComposer.

(** ** [utils/image_generator.py] *)

Module ImageGenerator.
Import VideoComposer.

(** [Path(name).stem] for a name matched by [*.jpeg]. *)
Definition stem (name : string) : string :=
  substring 0 (String.length name - 5) name.

(** The number of the next file, from the listing of [output_dir]; [int]
    is taken on stems made of digits, any other stem counting as the
    [ValueError] case. *)
Definition next_number (output_dir : list string) : N :=
  let existing_files := sorted (glob_jpeg output_dir) in
  match List.rev existing_files with
  | [] => 1%N
  | last_file :: _ =>
      match Py.int_of_digits (stem last_file) with
      | Ok last_number => (last_number + 1)%N
      | Raise _ => (N.of_nat (List.length existing_files) + 1)%N
      end
  end.

(** [open(image_path, "wb")]: the file is created, or overwritten when it
    exists. *)
Definition save_image (output_dir : list string) : list string :=
  let image_path := (Py.str_of_N (next_number output_dir) ++ ".jpeg")%string in
  if existsb (String.eqb image_path) output_dir then output_dir
  else output_dir ++ [image_path].

(** The loop of [generate_images] over [prompts] prompts whose images are
    all received. *)
Definition generate_images (prompts : nat) (output_dir : list string)
  : list string :=
  Nat.iter prompts save_image output_dir.

End ImageGenerator.

(** ** [utils/image_prompt_generator_gemini.py] *)

Module ImagePrompts.
Import VideoComposer.

(** A scene of the script with the key the prompt extraction reads too; the
    description is taken to be a string when present. *)
Record script_scene : Type := ScriptScene {
  base : scene;
  visual_description : option string
}.

(** The dict appended to [ai_prompts] for a scene, if any. *)
Definition prompt_of (sc : script_scene) : option (Z * string) :=
  match visual_type (base sc) with
  | Some vtype =>
      if String.eqb vtype "product_video" then None  (* continue *)
      else if String.eqb vtype "ai_image"
              && truthy_str (visual_description sc)
      then
        match scene_number (base sc), visual_description sc with
        | Some number, Some description =>
            if String.eqb (Py.strip description) "" then None
            else Some (number, Py.strip description)
        | _, _ => None
        end
      else None
  | None => None
  end.

Definition extract_ai_image_prompts (scenes : list script_scene)
  : list (Z * string) :=
  omap prompt_of scenes.

(** A scene of type ["ai_image"] is complete: it has a description that is
    not blank, and the number and the duration the composer wants. *)
Definition complete (sc : script_scene) : Prop :=
  visual_type (base sc) = Some "ai_image" ->
  (exists description,
     visual_description sc = Some description
     /\ Py.strip description <> "")
  /\ truthy_int (scene_number (base sc)) = true
  /\ truthy_num (duration_seconds (base sc)) = true.

End ImagePrompts.

(** ** [utils/stock_video_finder.py] *)

Module StockVideoFinder.

Local Open Scope Z_scope.

(** [TIKTOK_ASPECT] *)
Definition video_width : Z := 1080.
Definition video_height : Z := 1920.

(** *** Key rotation *)

(** The value of [api_keys]: one key, or the list of the configuration. *)
Inductive keys : Type :=
| OneKey (key : string)
| KeyList (api_keys : list string).

(** The two module-level indices. *)
Record key_indices : Type := KeyIndices {
  _pexels_key_index : nat;
  _pixabay_key_index : nat
}.

(** [api_keys[idx]] *)
Definition key_at (api_keys : list string) (idx : nat) : result string :=
  match api_keys !! idx with
  | Some key => Ok key
  | None => Raise IndexError
  end.

(** The call returns or raises, and leaves the indices as the second
    component: the index is stored before the list is read. *)
Definition get_rotating_api_key (api_keys : keys) (key_type : string)
    (st : key_indices) : result string * key_indices :=
  match api_keys with
  | OneKey "" | KeyList [] => (Raise ValueError, st)
  | OneKey key => (Ok key, st)
  | KeyList api_keys =>
      if String.eqb key_type "pexels" then
        let idx := _pexels_key_index st in
        (key_at api_keys idx,
         KeyIndices ((idx + 1) mod List.length api_keys)%nat
                    (_pixabay_key_index st))
      else if String.eqb key_type "pixabay" then
        let idx := _pixabay_key_index st in
        (key_at api_keys idx,
         KeyIndices (_pexels_key_index st)
                    ((idx + 1) mod List.length api_keys)%nat)
      else (key_at api_keys 0, st)
  end.

(** The results of [n] calls one after the other, as the searches make
    them, and the indices they leave. *)
Fixpoint requests (n : nat) (api_keys : keys) (key_type : string)
    (st : key_indices) : list (result string) * key_indices :=
  match n with
  | O => ([], st)
  | S n' =>
      let (r, st') := get_rotating_api_key api_keys key_type st in
      let (rs, st'') := requests n' api_keys key_type st' in
      (r :: rs, st'')
  end.

(** *** The Pexels search *)

(** An entry of ["video_files"]: each of the three values may be missing or
    null; sizes are integers. *)
Record video_file : Type := VideoFile {
  vf_width : option Z;
  vf_height : option Z;
  vf_link : option string
}.

(** An entry of ["videos"]. *)
Record pexels_video : Type := PexelsVideo {
  pv_duration : option Z;
  pv_video_files : option (list video_file)
}.

Record video_item : Type := VideoItem {
  provider : string;
  url : string;
  duration : Z
}.

(** The loop over [video_files], from the values [found_link] and
    [best_area] have on entry. *)
Fixpoint pick (found_link : option string) (best_area : Z)
    (video_files : list video_file) : option string :=
  match video_files with
  | [] => found_link
  | video :: rest =>
      match vf_width video, vf_height video, vf_link video with
      | Some w, Some h, Some link =>
          if h >? w then
            if (w =? video_width) && (h =? video_height)
            then Some link  (* break *)
            else
              let area := w * h in
              if area >? best_area then pick (Some link) area rest
              else pick found_link best_area rest
          else pick found_link best_area rest
      | _, _, _ => pick found_link best_area rest  (* continue *)
      end
  end.

(** What the loop over the files has established once the files [seen] are
    behind it. *)
Definition chosen (seen : list video_file) (found_link : option string)
    (best_area : Z) : Prop :=
  0 <= best_area
  /\ (forall w h l, In (VideoFile (Some w) (Some h) (Some l)) seen -> w < h ->
        ~ (w = video_width /\ h = video_height) /\ w * h <= best_area)
  /\ (forall l, found_link = Some l ->
        exists w h, In (VideoFile (Some w) (Some h) (Some l)) seen
                    /\ w < h /\ w * h = best_area).

(** The loop over the videos of a response that was received and has the
    key ["videos"]. *)
Fixpoint search_videos_pexels (minimum_duration : Z)
    (videos : list pexels_video) : list video_item :=
  match videos with
  | [] => []
  | v :: rest =>
      let duration := default 0 (pv_duration v) in
      if duration <? minimum_duration
      then search_videos_pexels minimum_duration rest
      else
        match pick None 0 (default [] (pv_video_files v)) with
        | Some (String c link) =>
            VideoItem "pexels" (String c link) duration
            :: search_videos_pexels minimum_duration rest
        | _ => search_videos_pexels minimum_duration rest
        end
  end.

(** *** Downloads of a scene *)

Section Download.

(** [save_video], the path of the saved file or the empty string; what it
    returns is taken to depend on the address only. *)
Variable save_video : string -> string.

Definition nonempty (s : string) : bool :=
  match s with
  | "" => false
  | _ => true
  end.

(** The loop over [found_videos_for_scene], after the shuffle, from the
    value [download_count] has on entry. *)
Fixpoint download (videos_per_scene download_count : Z)
    (found_videos_for_scene : list video_item) : list string :=
  match found_videos_for_scene with
  | [] => []
  | video_info :: rest =>
      if download_count >=? videos_per_scene then []  (* break *)
      else
        let video_url := url video_info in
        if nonempty video_url then
          let saved_path := save_video video_url in
          if nonempty saved_path then
            saved_path :: download videos_per_scene (download_count + 1) rest
          else download videos_per_scene download_count rest
        else download videos_per_scene download_count rest
  end.

End Download.

End StockVideoFinder.

(** ** Runs of consecutive words

    The vocabulary in which the grouper's result is described: a block is
    built from a run of consecutive input words. *)

Module Runs.
Import CaptionOverlay.

Local Open Scope Q_scope.

(** A non-empty run of consecutive timed words: its first word and the rest. *)
Definition seg : Type := (TimedWord * list TimedWord)%type.

Definition seg_words (s : seg) : list TimedWord := fst s :: snd s.
Definition seg_last (s : seg) : TimedWord := List.last (snd s) (fst s).
Definition seg_size (s : seg) : Z := Z.of_nat (List.length (seg_words s)).

Definition group_of_seg (s : seg) : group :=
  Group (start (fst s)) (Some (end_ (seg_last s)))
        (List.map text (seg_words s)).

Definition flatten (segs : list seg) : list TimedWord :=
  List.concat (List.map seg_words segs).

(** [for] loop of the grouper on words that have all three keys. *)
Fixpoint run (mw : Z) (md : Q) (n i : nat) (ws : list TimedWord)
    (st : gstate) : gstate :=
  match ws with
  | [] => st
  | w :: rest =>
      run mw md n (S i) rest (step mw md n i st (text w) (start w) (end_ w))
  end.

(** The group the loop has open, as a run of input words. *)
Inductive open_group (st : gstate) : list TimedWord -> Prop :=
| open_none :
    current_group_words st = [] -> open_group st []
| open_some w0 r :
    current_group_words st = List.map text (w0 :: r) ->
    current_start_time st = Some (start w0) ->
    last_word_end_time st = Some (end_ (List.last r w0)) ->
    open_group st (w0 :: r).

Record Inv (mw : Z) (pre : list TimedWord) (st : gstate)
    (segs : list seg) (cur : list TimedWord) : Prop := {
  inv_pre : pre = flatten segs ++ cur;
  inv_grouped : grouped_captions st = List.map group_of_seg segs;
  inv_open : open_group st cur;
  inv_sizes : (1 <= mw)%Z ->
              Forall (fun s => (seg_size s <= mw)%Z) segs
              /\ (Z.of_nat (List.length cur) <= mw)%Z
}.

(** Each word starts where the one before it ends. *)
Fixpoint chained (ws : list TimedWord) : Prop :=
  match ws with
  | a :: (b :: _) as rest => start b = end_ a /\ chained rest
  | _ => True
  end.

(** The word does not end with one of the marks the grouper looks for. *)
Definition plain (word_text : string) : Prop :=
  existsb (Py.endswith word_text) punctuation = false.

(** The words of a block that are neither its first nor its last. *)
Definition interior {A} (l : list A) : list A := List.removelast (List.tl l).

(** A block of two words or more spans at most [md] seconds. *)
Definition within (md : Q) (g : group) : Prop :=
  (2 <= List.length (g_words g))%nat ->
  exists e, g_end g = Some e /\ e - g_start g <= md.

(** What holds of the loop variables between two iterations. *)
Record tidy (md : Q) (st : gstate) : Prop := {
  tidy_grouped :
    Forall (fun g => Forall plain (interior (g_words g)) /\ within md g)
           (grouped_captions st);
  tidy_open : Forall plain (List.tl (current_group_words st));
  tidy_span :
    current_group_words st <> [] ->
    exists s e,
      current_start_time st = Some s /\ last_word_end_time st = Some e
      /\ ((2 <= List.length (current_group_words st))%nat -> e - s <= md)
}.

(** What holds of the list returned: no mark inside a block, and every block
    but the last within the duration. *)
Definition tidy_blocks (md : Q) (gs : list group) : Prop :=
  Forall (fun g => Forall plain (interior (g_words g))) gs
  /\ Forall (within md) (List.removelast gs).

(** The text clip shown for a run of words. *)
Definition clip_of_seg (s : seg) : text_clip :=
  TextClip (Py.join " " (List.map text (seg_words s))) (start (fst s))
           (end_ (seg_last s) - start (fst s)).

End Runs.

(** ** Scenarios

    Concrete inputs on which the properties below are checked. *)

Module Scenarios.
Import CaptionOverlay CaptionGenerator AudioGenerator VideoComposer.

Local Open Scope Q_scope.

Definition overlapping_words : list TimedWord :=
  [mkWord "a" 0 100; mkWord "b" 1 200; mkWord "c" 2 3].

Definition bonjour : list TimedWord :=
  [mkWord "Bonjour" 0 (4 # 10); mkWord "tout" (4 # 10) (6 # 10);
   mkWord "le" (6 # 10) (7 # 10)].

Definition five_words : list TimedWord :=
  [mkWord "a" 0 1; mkWord "b" 1 2; mkWord "c" 2 3; mkWord "d" 3 (7 # 2);
   mkWord "e" (7 # 2) 4].

Definition unsorted_words : list TimedWord :=
  [mkWord "a" 5 6; mkWord "b" 0 1].

(** Words that end before they start. *)
Definition backwards_words : list TimedWord :=
  [mkWord "Oui" 5 2; mkWord "non." 6 3; mkWord "merci" 7 4].

Definition dummy_block : srt_match :=
  SrtMatch "3" "00:00:08,000" "00:00:09,000" "Test: 1, 2, 3.".

Definition no_unescape (s : string) : string := s.

Definition hello_stream : SubMaker := mkSubMaker ["hello"] [(0, 5000000)].

Definition hello_blank_stream : SubMaker :=
  mkSubMaker ["hello"; "  "] [(0, 5000000); (5000000, 6000000)].

Definition blank_stream : SubMaker :=
  mkSubMaker [" "; ""] [(0, 5000000); (5000000, 6000000)].

Definition pending_hello : astate := AState 0 [] 0 " hello" 0 1.

Definition bare_assets : assets :=
  Assets (fun _ => false) (fun p => Raise (OSError p))
         (fun p => Raise (OSError p)) [] ∅ None None None (Ok 19)
         (fun _ => 0%nat).

Definition silent_assets : assets :=
  Assets (fun _ => false) (fun p => Raise (OSError p))
         (fun p => Raise (OSError p)) [] ∅ None None None
         (Raise (OSError "voiceover.mp3")) (fun _ => 0%nat).

(** [TextClip] with ImageMagick at hand, and without it. *)
Definition imagemagick (text : string) : result unit := Ok tt.
Definition no_imagemagick (text : string) : result unit :=
  Raise (OSError "convert").

Definition scene_zero : scene := Scene (Some 0%Z) (Some "hook") (Some 3).
Definition scene_one : scene := Scene (Some 1%Z) (Some "hook") (Some 3).

Definition scenes_two_then_one : list scene :=
  [Scene (Some 2%Z) (Some "product_shot") (Some 3);
   Scene (Some 1%Z) (Some "product_shot") (Some 5)].

Definition scenes_one_then_two : list scene :=
  [Scene (Some 1%Z) (Some "product_shot") (Some 5);
   Scene (Some 2%Z) (Some "product_shot") (Some 3)].


Definition ten_images : list string :=
  ["1.jpeg"; "2.jpeg"; "3.jpeg"; "4.jpeg"; "5.jpeg"; "6.jpeg"; "7.jpeg";
   "8.jpeg"; "9.jpeg"; "10.jpeg"].

Definition image_assets : assets :=
  Assets (fun _ => true) (fun p => Raise (OSError p))
         (fun _ => Ok (1008, 1792)%Z) ten_images ∅ None None None (Ok 19)
         (fun _ => 0%nat).


Definition unreadable_assets : assets :=
  Assets (fun _ => true) (fun p => Raise (OSError p))
         (fun p => Raise (OSError p)) ten_images ∅ None None None (Ok 19)
         (fun _ => 0%nat).

Definition two_image_scenes : list scene :=
  [Scene (Some 3%Z) (Some "ai_image") (Some 5);
   Scene (Some 5%Z) (Some "ai_image") (Some 4)].

Definition described_scenes : list ImagePrompts.script_scene :=
  [ImagePrompts.ScriptScene (Scene (Some 1%Z) (Some "hook") (Some 3)) None;
   ImagePrompts.ScriptScene (Scene (Some 3%Z) (Some "ai_image") (Some 5))
     (Some "A red bicycle ");
   ImagePrompts.ScriptScene (Scene (Some 5%Z) (Some "ai_image") (Some 4))
     (Some "A lake at dawn")].

Definition word_without_number : json_word :=
  JsonWord (Some "b") (Some (JNumber 1)) (Some (JString "2.5")).

Definition marked_words : list TimedWord :=
  [mkWord "Oui," 0 1; mkWord "non." 1 2; mkWord "Et" 2 3; mkWord "toi?" 3 4].

Definition three_keys : list string := ["k0"; "k1"; "k2"].

Definition pexels_files : list StockVideoFinder.video_file :=
  [StockVideoFinder.VideoFile (Some 1920%Z) (Some 1080%Z) (Some "wide");
   StockVideoFinder.VideoFile (Some 720%Z) (Some 1280%Z) (Some "small");
   StockVideoFinder.VideoFile (Some 2160%Z) (Some 3840%Z) None;
   StockVideoFinder.VideoFile (Some 1440%Z) (Some 2560%Z) (Some "large");
   StockVideoFinder.VideoFile (Some 540%Z) (Some 960%Z) (Some "tiny")].

Definition pexels_videos : list StockVideoFinder.pexels_video :=
  [StockVideoFinder.PexelsVideo (Some 2%Z) (Some pexels_files);
   StockVideoFinder.PexelsVideo (Some 12%Z) (Some pexels_files)].

End Scenarios.

(** * Properties *)

(** ** Rounding *)

Module RoundingFacts.

Local Open Scope Q_scope.

Lemma round_half_even_bounds (y : Q) :
  (Qfloor y <= Py.round_half_even y <= Qfloor y + 1)%Z.
Proof.
  unfold Py.round_half_even.
  destruct (Qcompare _ _); [destruct (Z.even _)| |]; lia.
Qed.

Lemma round_half_even_mono (x y : Q) :
  x <= y -> (Py.round_half_even x <= Py.round_half_even y)%Z.
Proof.
  intros Hxy.
  pose proof (Qfloor_resp_le _ _ Hxy) as Hf.
  destruct (Z.eq_dec (Qfloor x) (Qfloor y)) as [Heq | Hne].
  - unfold Py.round_half_even. rewrite Heq.
    set (f := Qfloor y).
    destruct (Qcompare_spec (x - inject_Z f) (1 # 2)) as [Hx | Hx | Hx];
      destruct (Qcompare_spec (y - inject_Z f) (1 # 2)) as [Hy | Hy | Hy];
      try (destruct (Z.even f)); try lia; exfalso; lra.
  - pose proof (round_half_even_bounds x).
    pose proof (round_half_even_bounds y). lia.
Qed.

Lemma round3_mono (x y : Q) : x <= y -> Py.round3 x <= Py.round3 y.
Proof.
  intros Hxy. unfold Py.round3.
  assert (H : (Py.round_half_even (x * 1000)
               <= Py.round_half_even (y * 1000))%Z).
  { apply round_half_even_mono. lra. }
  rewrite Zle_Qle in H. unfold Qdiv.
  apply Qmult_le_compat_r; [exact H | discriminate].
Qed.

(** A whole number of thousandths is its own rounding. *)
Lemma round3_thousandths (k : Z) :
  Py.round3 (inject_Z k / 1000) == inject_Z k / 1000.
Proof.
  unfold Py.round3.
  assert (Hk : inject_Z k / 1000 * 1000 == inject_Z k) by field.
  assert (Hfl : Qfloor (inject_Z k / 1000 * 1000) = k).
  { rewrite Hk. apply Qfloor_Z. }
  unfold Py.round_half_even. rewrite Hfl.
  destruct (Qcompare_spec (inject_Z k / 1000 * 1000 - inject_Z k) (1 # 2))
    as [Hc | Hc | Hc].
  - exfalso. lra.
  - reflexivity.
  - exfalso. lra.
Qed.

Lemma round_half_even_nearest (y : Q) :
  Py.nearest (Py.round_half_even y) y.
Proof.
  unfold Py.nearest, Py.round_half_even.
  pose proof (Qfloor_le y) as Hlo. pose proof (Qlt_floor y) as Hhi.
  rewrite inject_Z_plus in Hhi. change (inject_Z 1) with 1 in Hhi.
  destruct (Qcompare_spec (y - inject_Z (Qfloor y)) (1 # 2)) as [H | H | H].
  - destruct (Z.even (Qfloor y)); [split; lra|].
    rewrite inject_Z_plus. change (inject_Z 1) with 1. split; lra.
  - split; lra.
  - rewrite inject_Z_plus. change (inject_Z 1) with 1. split; lra.
Qed.

(** A rounded time is a whole number of milliseconds nearest to the time. *)
Lemma round3_nearest (x y : Q) :
  x == Py.round3 y ->
  exists k : Z, x == inject_Z k / 1000 /\ Py.nearest k (y * 1000).
Proof.
  intros Hx. exists (Py.round_half_even (y * 1000)).
  split; [exact Hx | apply round_half_even_nearest].
Qed.

End RoundingFacts.

(** ** Caption grouping: every block is a run of consecutive words *)

Module GroupingFacts.
Import CaptionOverlay Runs Scenarios.

Local Open Scope Q_scope.

Lemma loop_to_dict mw md n ws : forall i st,
  loop mw md n i (List.map to_dict ws) st = Ok (run mw md n i ws st).
Proof.
  induction ws as [|w rest IH]; intros i st; simpl; [reflexivity|].
  apply IH.
Qed.

Lemma flatten_snoc segs s : flatten (segs ++ [s]) = flatten segs ++ seg_words s.
Proof.
  unfold flatten. rewrite List.map_app, List.concat_app. simpl.
  now rewrite List.app_nil_r.
Qed.

Lemma last_snoc {A} (l : list A) (x d : A) : List.last (l ++ [x]) d = x.
Proof. apply List.last_last. Qed.

Lemma map_text_length (l : list TimedWord) :
  List.length (List.map text l) = List.length l.
Proof. apply List.length_map. Qed.

(** A word that is not the last one. *)
Lemma step_inv mw md n i pre st segs cur w :
  Inv mw pre st segs cur ->
  (i =? n - 1)%nat = false ->
  exists segs' cur',
    Inv mw (pre ++ [w]) (step mw md n i st (text w) (start w) (end_ w))
        segs' cur'.
Proof.
  intros [Hpre Hgr Hop Hsz] Hlast.
  destruct Hop as [Hnil | w0 r Hcgw Hcst Hlwe].
  - (* no group open *)
    exists segs, [w]. unfold step. rewrite Hnil. simpl.
    constructor; simpl.
    + now rewrite Hpre, List.app_nil_r.
    + exact Hgr.
    + now apply open_some.
    + intros H1. split; [apply Hsz, H1 | lia].
  - unfold step. rewrite Hcgw, Hcst, Hlast. cbn [is_nil List.map negb andb].
    set (ewl := (mw <=? _)%Z).
    set (ed := Py.gtb _ _).
    set (ewp := existsb _ _).
    assert (Hlen : List.length (text w0 :: List.map text r)
                   = S (List.length r)).
    { simpl. now rewrite List.length_map. }
    destruct (ewl || ed) eqn:Hexc.
    + (* a limit is exceeded: the group closes before the word *)
      exists (segs ++ [(w0, r)]), [w].
      replace (ewl || ed || ewp || false)%bool with true
        by (now rewrite Hexc).
      cbn [negb orb andb].
      constructor; simpl.
      * rewrite flatten_snoc, Hpre. unfold seg_words; simpl.
        now rewrite <- !List.app_assoc.
      * rewrite Hgr, List.map_app. simpl. f_equal. f_equal.
        unfold group_of_seg, seg_last, seg_words; simpl.
        now rewrite Hlwe.
      * now apply open_some.
      * intros H1. destruct (Hsz H1) as [Hall Hcur]. split; [|lia].
        apply Forall_app. split; [exact Hall|].
        constructor; [|constructor].
        unfold seg_size, seg_words. simpl in *. lia.
    + apply orb_false_iff in Hexc. destruct Hexc as [Hewl Hed].
      assert (Hroom : (1 <= mw)%Z ->
                      (Z.of_nat (S (S (List.length r))) <= mw)%Z).
      { intros _. subst ewl. apply Z.leb_gt in Hewl.
        rewrite Hlen in Hewl. lia. }
      destruct ewp eqn:Hewp.
      * (* punctuation: the group closes with the word *)
        exists (segs ++ [(w0, r ++ [w])]), [].
        cbn [negb orb andb].
        constructor; simpl.
        -- rewrite flatten_snoc, Hpre. unfold seg_words; simpl.
           now rewrite List.app_nil_r, <- !List.app_assoc.
        -- rewrite Hgr, List.map_app. simpl. f_equal. f_equal.
           unfold group_of_seg, seg_last, seg_words; simpl.
           rewrite last_snoc, List.map_app. reflexivity.
        -- now apply open_none.
        -- intros H1. destruct (Hsz H1) as [Hall Hcur]. split; [|lia].
           apply Forall_app. split; [exact Hall|].
           constructor; [|constructor].
           unfold seg_size, seg_words. simpl.
           rewrite List.length_app. simpl. specialize (Hroom H1). lia.
      * (* the word joins the open group *)
        exists segs, (w0 :: r ++ [w]).
        cbn [negb orb andb].
        constructor; simpl.
        -- rewrite Hpre. now rewrite <- List.app_assoc.
        -- exact Hgr.
        -- apply open_some; simpl.
           ++ now rewrite List.map_app.
           ++ reflexivity.
           ++ now rewrite last_snoc.
        -- intros H1. destruct (Hsz H1) as [Hall Hcur]. split; [exact Hall|].
           rewrite List.length_app. simpl. specialize (Hroom H1). lia.
Qed.

(** The last word closes whatever is open and is always included. *)
Lemma step_last mw md n i pre st segs cur w :
  Inv mw pre st segs cur ->
  (i =? n - 1)%nat = true ->
  exists s,
    pre ++ [w] = flatten (segs ++ [s])
    /\ flush (step mw md n i st (text w) (start w) (end_ w))
       = List.map group_of_seg (segs ++ [s])
    /\ ((1 <= mw)%Z ->
        Forall (fun s => (seg_size s <= mw)%Z) segs
        /\ (seg_size s <= mw + 1)%Z).
Proof.
  intros [Hpre Hgr Hop Hsz] Hlast.
  destruct Hop as [Hnil | w0 r Hcgw Hcst Hlwe].
  - exists (w, []). unfold step. rewrite Hnil. simpl.
    unfold flush; simpl. rewrite flatten_snoc, Hgr, List.map_app, Hpre.
    rewrite List.app_nil_r. repeat split.
    + apply Hsz, H.
    + unfold seg_size; simpl. lia.
  - exists (w0, r ++ [w]). unfold step.
    rewrite Hcgw, Hcst, Hlast. cbn [is_nil List.map negb andb].
    rewrite !orb_true_r. cbn [negb orb andb].
    unfold flush; simpl. rewrite flatten_snoc, Hgr, List.map_app, Hpre.
    repeat split.
    + unfold seg_words; simpl. now rewrite <- !List.app_assoc.
    + simpl. f_equal. f_equal. unfold group_of_seg, seg_last, seg_words.
      simpl. now rewrite last_snoc, List.map_app.
    + apply Hsz, H.
    + destruct (Hsz H) as [_ Hcur]. unfold seg_size, seg_words. simpl in *.
      rewrite List.length_app. simpl. lia.
Qed.

(** The whole loop followed by the safeguard, from any reachable state. *)
Lemma run_segments mw md n : forall ws pre st segs cur,
  ws <> [] ->
  Inv mw pre st segs cur ->
  n = (List.length pre + List.length ws)%nat ->
  exists init s,
    pre ++ ws = flatten (init ++ [s])
    /\ flush (run mw md n (List.length pre) ws st)
       = List.map group_of_seg (init ++ [s])
    /\ ((1 <= mw)%Z ->
        Forall (fun s => (seg_size s <= mw)%Z) init
        /\ (seg_size s <= mw + 1)%Z).
Proof.
  induction ws as [|w rest IH]; intros pre st segs cur Hne HInv Hn;
    [congruence|].
  destruct rest as [|w' rest'].
  - (* [w] is the last word *)
    simpl. exists segs.
    apply (step_last mw md n (List.length pre) pre st segs cur w HInv).
    apply Nat.eqb_eq. simpl in Hn. lia.
  - assert (Hnl : (List.length pre =? n - 1)%nat = false).
    { apply Nat.eqb_neq. simpl in Hn. lia. }
    destruct (step_inv mw md n _ pre st segs cur w HInv Hnl)
      as (segs' & cur' & HInv').
    destruct (IH (pre ++ [w]) _ segs' cur' ltac:(discriminate) HInv')
      as (init & s & Hflat & Hflush & Hsize).
    { rewrite List.length_app. simpl in *. lia. }
    exists init, s. rewrite <- List.app_assoc in Hflat. simpl in Hflat.
    split; [exact Hflat|]. split; [|exact Hsize].
    rewrite List.length_app in Hflush. simpl in Hflush.
    replace (List.length pre + 1)%nat with (S (List.length pre))
      in Hflush by lia.
    exact Hflush.
Qed.

(** Every block returned for well-formed words is a run of consecutive
    input words: its start is the start of the run's first word, its end the
    end of the run's last word, its words the run's texts. *)
Lemma group_runs_segments mw md (ws : list TimedWord) :
  ws <> [] ->
  exists init s,
    ws = flatten (init ++ [s])
    /\ group_runs mw md (List.map to_dict ws)
       = Ok (List.map group_of_seg (init ++ [s]))
    /\ ((1 <= mw)%Z ->
        Forall (fun s => (seg_size s <= mw)%Z) init
        /\ (seg_size s <= mw + 1)%Z).
Proof.
  intros Hne.
  destruct ws as [|w0 rest] eqn:Hws; [congruence|].
  set (st0 := GState [] [] (Some (start w0)) (Some (end_ w0))).
  destruct (run_segments mw md (List.length ws) ws [] st0 [] []) as
    (init & s & Hflat & Hflush & Hsize).
  - now rewrite Hws.
  - constructor; simpl; try reflexivity.
    + now apply open_none.
    + intros H1. split; [apply List.Forall_nil | simpl; lia].
  - reflexivity.
  - exists init, s. rewrite Hws in *. simpl in Hflat.
    split; [exact Hflat|]. split; [|exact Hsize].
    unfold group_runs.
    change (List.map to_dict (w0 :: rest))
      with (to_dict w0 :: List.map to_dict rest) at 1.
    cbn [to_dict wi_start wi_end getitem rbind].
    change (WordInfo (Some (text w0)) (Some (start w0)) (Some (end_ w0))
              :: List.map to_dict rest)
      with (List.map to_dict (w0 :: rest)).
    rewrite loop_to_dict. cbn [rbind].
    rewrite List.length_map. simpl in Hflush. simpl.
    now rewrite <- Hflush.
Qed.

(** *** What follows for runs of a sorted word list *)

Lemma ss_app_inv {A} (R : relation A) (l1 l2 : list A) :
  StronglySorted R (l1 ++ l2) ->
  StronglySorted R l1 /\ StronglySorted R l2
  /\ (forall x y, In x l1 -> In y l2 -> R x y).
Proof.
  intros H. apply StronglySorted_app in H. destruct H as (H12 & H1 & H2).
  repeat split; try assumption.
  intros x y Hx Hy. apply H12; now apply list_elem_of_In.
Qed.

Lemma last_default_or_in {A} (l : list A) (d : A) :
  (l = [] /\ List.last l d = d) \/ In (List.last l d) l.
Proof.
  induction l as [|x l IH]; [now left|]. right.
  destruct IH as [[-> _] | Hin]; simpl; [now left|].
  destruct l; [contradiction | now right].
Qed.

Lemma seg_last_in (s : seg) : In (seg_last s) (seg_words s).
Proof.
  unfold seg_last, seg_words.
  destruct (last_default_or_in (snd s) (fst s)) as [[_ ->] | Hin];
    [now left | now right].
Qed.

Lemma seg_first_in (s : seg) : In (fst s) (seg_words s).
Proof. now left. Qed.

Lemma flatten_cons s segs : flatten (s :: segs) = seg_words s ++ flatten segs.
Proof. reflexivity. Qed.

Lemma in_flatten s segs w :
  In s segs -> In w (seg_words s) -> In w (flatten segs).
Proof.
  intros Hs Hw. unfold flatten. apply List.in_concat.
  exists (seg_words s). split; [now apply List.in_map | exact Hw].
Qed.

(** One word picked in every run: the picks inherit the order of the list. *)
Lemma picks_sorted (f : TimedWord -> Q) (pick : seg -> TimedWord) :
  (forall s, In (pick s) (seg_words s)) ->
  forall segs,
    StronglySorted Qle (List.map f (flatten segs)) ->
    StronglySorted Qle (List.map (fun s => f (pick s)) segs).
Proof.
  intros Hpick. induction segs as [|s segs IH]; intros Hs; simpl.
  - constructor.
  - rewrite flatten_cons, List.map_app in Hs.
    apply ss_app_inv in Hs. destruct Hs as (_ & Hs2 & H12).
    constructor; [now apply IH|].
    apply List.Forall_forall. intros q Hq.
    apply List.in_map_iff in Hq. destruct Hq as (s' & <- & Hs').
    apply H12.
    + apply List.in_map, Hpick.
    + apply List.in_map. eapply in_flatten; [exact Hs' | apply Hpick].
Qed.

Lemma seg_spans (segs : list seg) :
  StronglySorted Qle (List.map start (flatten segs)) ->
  Forall (fun w => start w <= end_ w) (flatten segs) ->
  Forall (fun s => start (fst s) <= end_ (seg_last s)) segs.
Proof.
  induction segs as [|s segs IH]; intros Hs Hwf; [apply List.Forall_nil|].
  rewrite flatten_cons in Hs, Hwf. rewrite List.map_app in Hs.
  apply ss_app_inv in Hs. destruct Hs as (Hs1 & Hs2 & _).
  apply List.Forall_app in Hwf. destruct Hwf as [Hwf1 Hwf2].
  constructor; [|now apply IH].
  assert (Hlast : start (seg_last s) <= end_ (seg_last s)).
  { eapply List.Forall_forall in Hwf1; [exact Hwf1 | apply seg_last_in]. }
  apply Qle_trans with (start (seg_last s)); [|exact Hlast].
  unfold seg_last.
  destruct (last_default_or_in (snd s) (fst s)) as [[_ ->] | Hin].
  - apply Qle_refl.
  - unfold seg_words in Hs1. simpl in Hs1.
    apply StronglySorted_inv in Hs1. destruct Hs1 as [_ Hall].
    eapply List.Forall_forall in Hall; [exact Hall|].
    now apply List.in_map.
Qed.

Lemma words_of_segments (segs : list seg) :
  List.concat (List.map g_words (List.map group_of_seg segs))
  = List.map text (flatten segs).
Proof.
  unfold flatten. rewrite List.map_map. simpl.
  rewrite List.concat_map, List.map_map. reflexivity.
Qed.

Lemma count_of_segments (segs : list seg) :
  list_sum (List.map (fun g => List.length (g_words g))
              (List.map group_of_seg segs))
  = List.length (flatten segs).
Proof.
  induction segs as [|s segs IH]; [reflexivity|].
  rewrite flatten_cons, List.length_app. simpl in *.
  rewrite IH, List.length_map. reflexivity.
Qed.

Lemma sorted_strongly (l : list Q) : Sorted Qle l -> StronglySorted Qle l.
Proof.
  apply Sorted.Sorted_StronglySorted. intros x y z. apply Qle_trans.
Qed.

(** Joining the joined runs is joining all the words. *)
Lemma string_app_assoc (a b c : string) :
  ((a ++ b) ++ c = a ++ (b ++ c))%string.
Proof.
  induction a as [|x a IH]; [reflexivity|].
  change (String x ((a ++ b) ++ c) = String x (a ++ (b ++ c)))%string.
  now rewrite IH.
Qed.

Lemma join_app (sep : string) (l1 l2 : list string) :
  l1 <> [] -> l2 <> [] ->
  Py.join sep (l1 ++ l2)
  = (Py.join sep l1 ++ sep ++ Py.join sep l2)%string.
Proof.
  intros H1 H2. induction l1 as [|x l1 IH]; [congruence|].
  destruct l1 as [|y l1].
  - destruct l2; [congruence | reflexivity].
  - change (Py.join sep ((x :: y :: l1) ++ l2))
      with (x ++ sep ++ Py.join sep ((y :: l1) ++ l2))%string.
    rewrite IH by discriminate.
    change (Py.join sep (x :: y :: l1))
      with (x ++ sep ++ Py.join sep (y :: l1))%string.
    now rewrite !string_app_assoc.
Qed.

Lemma flatten_nonempty (segs : list seg) : segs <> [] -> flatten segs <> [].
Proof. destruct segs as [|s segs]; [congruence | discriminate]. Qed.

Lemma text_of_segments (segs : list seg) :
  Py.join " " (List.map c_text
                 (List.map caption_of_group (List.map group_of_seg segs)))
  = Py.join " " (List.map text (flatten segs)).
Proof.
  induction segs as [|s segs IH]; [reflexivity|].
  rewrite flatten_cons, List.map_app.
  destruct segs as [|s' segs'].
  - simpl. now rewrite List.app_nil_r.
  - rewrite join_app;
      [| discriminate
       | intros H; apply List.map_eq_nil in H;
         now apply (flatten_nonempty (s' :: segs')) in H].
    rewrite <- IH. reflexivity.
Qed.

Lemma captions_of_runs mw md (ws : list word_info) (gs : list group) :
  group_runs mw md ws = Ok gs ->
  group_words_into_captions mw md ws = Ok (List.map caption_of_group gs).
Proof. intros H. unfold group_words_into_captions. now rewrite H. Qed.

Lemma starts_of_segments (segs : list seg) :
  List.map c_start (List.map caption_of_group (List.map group_of_seg segs))
  = List.map (fun s => start (fst s)) segs.
Proof. rewrite !List.map_map. reflexivity. Qed.

Lemma ends_of_segments (segs : list seg) :
  List.map c_end (List.map caption_of_group (List.map group_of_seg segs))
  = List.map Some (List.map (fun s => end_ (seg_last s)) segs).
Proof. rewrite !List.map_map. reflexivity. Qed.

(** C2, amended.  For every non-empty list of timed words sorted by start,
    [group_words_into_captions] returns blocks whose word sequences,
    concatenated, are the input word sequence (so the word counts add up to
    the input word count, and the texts of the blocks read one after the
    other are the input words in order), and whose start times are
    non-decreasing; the end times of the blocks are non-decreasing when the
    end times of the input words are. *)
Theorem group_words_keep_words_and_order mw md (ws : list TimedWord) :
  ws <> [] ->
  Sorted Qle (List.map start ws) ->
  exists gs,
    let blocks := List.map caption_of_group gs in
    group_runs mw md (List.map to_dict ws) = Ok gs
    /\ group_words_into_captions mw md (List.map to_dict ws) = Ok blocks
    /\ List.concat (List.map g_words gs) = List.map text ws
    /\ Py.join " " (List.map c_text blocks) = Py.join " " (List.map text ws)
    /\ list_sum (List.map (fun g => List.length (g_words g)) gs)
       = List.length ws
    /\ Sorted Qle (List.map c_start blocks)
    /\ (Sorted Qle (List.map end_ ws) ->
        exists es,
          List.map c_end blocks = List.map Some es /\ Sorted Qle es).
Proof.
  intros Hne Hstart.
  destruct (group_runs_segments mw md ws Hne) as (init & s & Hflat & Hrun & _).
  set (segs := init ++ [s]) in *.
  exists (List.map group_of_seg segs). cbv zeta.
  split; [exact Hrun|].
  split; [now apply captions_of_runs|].
  split; [now rewrite words_of_segments, <- Hflat|].
  split; [now rewrite text_of_segments, <- Hflat|].
  split; [now rewrite count_of_segments, <- Hflat|].
  split.
  - rewrite starts_of_segments. apply StronglySorted_Sorted.
    apply (picks_sorted start fst seg_first_in).
    rewrite <- Hflat. now apply sorted_strongly.
  - intros Hend. exists (List.map (fun s => end_ (seg_last s)) segs).
    split; [apply ends_of_segments|].
    apply StronglySorted_Sorted.
    apply (picks_sorted end_ seg_last seg_last_in).
    rewrite <- Hflat. now apply sorted_strongly.
Qed.

Lemma Sorted_Qle_3 (a b c : Q) : a <= b -> b <= c -> Sorted Qle [a; b; c].
Proof. intros Hab Hbc. repeat constructor; assumption. Qed.

(** C2 as stated fails: three words sorted by start, each ending after it
    starts, grouped with the default limits, give two blocks whose end
    times decrease. *)
Lemma group_words_ends_can_decrease :
  overlapping_words <> []
  /\ Sorted Qle (List.map start overlapping_words)
  /\ Forall (fun w => start w <= end_ w) overlapping_words
  /\ group_words_into_captions 4 4 (List.map to_dict overlapping_words)
     = Ok [Caption 0 (Some 100) "a"; Caption 1 (Some 3) "b c"]
  /\ ~ (100 <= 3).
Proof.
  split; [discriminate|].
  split; [apply Sorted_Qle_3; discriminate|].
  split; [repeat constructor; discriminate|].
  split; [reflexivity|].
  intros H. now apply H.
Qed.

Lemma group_words_keep_words_and_order_witness :
  bonjour <> []
  /\ Sorted Qle (List.map start bonjour)
  /\ exists gs,
      let blocks := List.map caption_of_group gs in
      group_runs 4 4 (List.map to_dict bonjour) = Ok gs
      /\ group_words_into_captions 4 4 (List.map to_dict bonjour) = Ok blocks
      /\ List.concat (List.map g_words gs) = List.map text bonjour
      /\ Py.join " " (List.map c_text blocks)
         = Py.join " " (List.map text bonjour)
      /\ list_sum (List.map (fun g => List.length (g_words g)) gs)
         = List.length bonjour
      /\ Sorted Qle (List.map c_start blocks)
      /\ (Sorted Qle (List.map end_ bonjour) ->
          exists es,
            List.map c_end blocks = List.map Some es /\ Sorted Qle es).
Proof.
  assert (Hne : bonjour <> []) by discriminate.
  assert (Hs : Sorted Qle (List.map start bonjour))
    by (apply Sorted_Qle_3; discriminate).
  split; [exact Hne|]. split; [exact Hs|].
  exact (group_words_keep_words_and_order 4 4 bonjour Hne Hs).
Defined.

Lemma group_runs_nil mw md : group_runs mw md [] = Ok [].
Proof. reflexivity. Qed.

Lemma spans_of_segments (segs : list seg) :
  Forall (fun s => start (fst s) <= end_ (seg_last s)) segs ->
  Forall (fun b => exists e, c_end b = Some e /\ c_start b <= e)
         (List.map caption_of_group (List.map group_of_seg segs)).
Proof.
  intros H. rewrite List.map_map. apply List.Forall_map.
  eapply List.Forall_impl; [|exact H].
  intros s Hs. exists (end_ (seg_last s)). now split.
Qed.

Lemma sizes_of_segments (bound : Z) (segs : list seg) :
  Forall (fun s => (seg_size s <= bound)%Z) segs ->
  Forall (fun g => (1 <= Z.of_nat (List.length (g_words g)) <= bound)%Z)
         (List.map group_of_seg segs).
Proof.
  intros H. apply List.Forall_map.
  eapply List.Forall_impl; [|exact H].
  intros s Hs. unfold seg_size, seg_words in Hs. simpl in *.
  rewrite List.length_map. lia.
Qed.

(** C3, amended.  For every list of timed words sorted by start, each
    ending no earlier than it starts, and every [max_words >= 1], every
    block has [end >= start]; every block but the last holds between one and
    [max_words] words, and the last block, which takes the final input word
    whatever the limits say, holds at most [max_words + 1]. *)
Theorem group_words_block_bounds mw md (ws : list TimedWord) :
  (1 <= mw)%Z ->
  Sorted Qle (List.map start ws) ->
  Forall (fun w => start w <= end_ w) ws ->
  exists gs,
    let blocks := List.map caption_of_group gs in
    group_runs mw md (List.map to_dict ws) = Ok gs
    /\ group_words_into_captions mw md (List.map to_dict ws) = Ok blocks
    /\ Forall (fun b => exists e, c_end b = Some e /\ c_start b <= e) blocks
    /\ Forall (fun g => (1 <= Z.of_nat (List.length (g_words g)) <= mw)%Z)
              (List.removelast gs)
    /\ Forall (fun g => (1 <= Z.of_nat (List.length (g_words g))
                         <= mw + 1)%Z) gs.
Proof.
  intros Hmw Hstart Hwf.
  destruct ws as [|w0 rest].
  { exists []. cbv zeta. simpl.
    split; [reflexivity|]. split; [reflexivity|].
    split; [apply List.Forall_nil|].
    split; apply List.Forall_nil. }
  destruct (group_runs_segments mw md (w0 :: rest)) as
    (init & s & Hflat & Hrun & Hsize); [discriminate|].
  destruct (Hsize Hmw) as [Hinit Hlast].
  exists (List.map group_of_seg (init ++ [s])). cbv zeta.
  split; [exact Hrun|].
  split; [now apply captions_of_runs|].
  split.
  - apply spans_of_segments, seg_spans.
    + rewrite <- Hflat. now apply sorted_strongly.
    + now rewrite <- Hflat.
  - split.
    + rewrite List.map_app. simpl. rewrite List.removelast_last.
      now apply sizes_of_segments.
    + apply sizes_of_segments, Forall_app. split.
      * eapply List.Forall_impl; [|exact Hinit]. simpl. intros; lia.
      * constructor; [exact Hlast | constructor].
Qed.

(** C3 as stated fails: five plain words inside four seconds, grouped with
    [max_words = 4], come back as one block of five words, the fifth being
    the final word of the input.  And on a list that is not sorted by start,
    two words, each ending after it starts, make a block that ends before
    it starts. *)
Lemma group_words_last_block_exceeds_max_words :
  Forall (fun w => start w <= end_ w) five_words
  /\ Sorted Qle (List.map start five_words)
  /\ group_words_into_captions 4 4 (List.map to_dict five_words)
     = Ok [Caption 0 (Some 4) "a b c d e"]
  /\ group_runs 4 4 (List.map to_dict five_words)
     = Ok [Group 0 (Some 4) ["a"; "b"; "c"; "d"; "e"]]
  /\ ~ (List.length ["a"; "b"; "c"; "d"; "e"] <= 4)%nat
  /\ Forall (fun w => start w <= end_ w) unsorted_words
  /\ group_words_into_captions 4 4 (List.map to_dict unsorted_words)
     = Ok [Caption 5 (Some 1) "a b"]
  /\ ~ (5 <= 1).
Proof.
  split; [repeat constructor; discriminate|].
  split; [repeat constructor; discriminate|].
  split; [reflexivity|]. split; [reflexivity|].
  split; [simpl; lia|].
  split; [repeat constructor; discriminate|].
  split; [reflexivity|].
  intros H. now apply H.
Qed.

Lemma group_words_block_bounds_witness :
  (1 <= 4)%Z
  /\ Sorted Qle (List.map start five_words)
  /\ Forall (fun w => start w <= end_ w) five_words
  /\ exists gs,
      let blocks := List.map caption_of_group gs in
      group_runs 4 4 (List.map to_dict five_words) = Ok gs
      /\ group_words_into_captions 4 4 (List.map to_dict five_words) = Ok blocks
      /\ Forall (fun b => exists e, c_end b = Some e /\ c_start b <= e) blocks
      /\ Forall (fun g => (1 <= Z.of_nat (List.length (g_words g)) <= 4)%Z)
                (List.removelast gs)
      /\ Forall (fun g => (1 <= Z.of_nat (List.length (g_words g))
                           <= 4 + 1)%Z) gs.
Proof.
  assert (H1 : (1 <= 4)%Z) by lia.
  assert (Hs : Sorted Qle (List.map start five_words))
    by (repeat constructor; discriminate).
  assert (Hwf : Forall (fun w => start w <= end_ w) five_words)
    by (repeat constructor; discriminate).
  split; [exact H1|]. split; [exact Hs|]. split; [exact Hwf|].
  exact (group_words_block_bounds 4 4 five_words H1 Hs Hwf).
Defined.

(** *** Malformed words *)

Lemma has_keys_to_dict (ws : list word_info) :
  Forall has_keys ws -> exists tws, ws = List.map to_dict tws.
Proof.
  induction 1 as [|w ws Hw _ IH]; [now exists []|].
  destruct IH as [tws ->].
  destruct w as [t s e]. destruct Hw as ([t' Ht] & [s' Hs] & [e' He]).
  simpl in *. subst. now exists (mkWord t' s' e' :: tws).
Qed.

Lemma has_keys_dec (w : word_info) : {has_keys w} + {~ has_keys w}.
Proof.
  destruct w as [[t|] [s|] [e|]];
    try (left; repeat split; eexists; reflexivity);
    right; intros (Ht & Hs & He); simpl in *;
    first [ now destruct Ht | now destruct Hs | now destruct He ].
Qed.

Lemma loop_key_error mw md n (ws : list word_info) :
  Exists (fun w => ~ has_keys w) ws ->
  forall i st, exists key, loop mw md n i ws st = Raise (KeyError key).
Proof.
  induction ws as [|w ws IH]; intros Hex i st; [now inversion Hex|].
  destruct (has_keys_dec w) as [Hw | Hw].
  - destruct w as [t s e]. destruct Hw as ([t' Ht] & [s' Hs] & [e' He]).
    simpl in *. subst. simpl. apply IH.
    inversion Hex as [? ? Hbad | ? ? Hrest]; subst; [|exact Hrest].
    exfalso. apply Hbad. repeat split; eexists; reflexivity.
  - destruct w as [[t|] [s|] [e|]]; simpl; eauto.
    exfalso. apply Hw. repeat split; eexists; reflexivity.
Qed.

Lemma group_key_error mw md (ws : list word_info) :
  Exists (fun w => ~ has_keys w) ws ->
  exists key, group_words_into_captions mw md ws = Raise (KeyError key).
Proof.
  intros Hex. unfold group_words_into_captions, group_runs.
  destruct ws as [|w ws]; [now inversion Hex|].
  destruct (wi_start w) as [s0|] eqn:Hs; cbn [getitem rbind]; [|eauto].
  destruct (wi_end w) as [e0|] eqn:He; cbn [getitem rbind]; [|eauto].
  destruct (loop_key_error mw md (List.length (w :: ws)) (w :: ws) Hex 0
              (GState [] [] (Some s0) (Some e0))) as [key Hkey].
  exists key. now rewrite Hkey.
Qed.

Lemma group_single_word mw md (w : TimedWord) :
  group_words_into_captions mw md [to_dict w]
  = Ok [Caption (start w) (Some (end_ w)) (text w)].
Proof. reflexivity. Qed.

Import AudioGenerator.

Lemma timed_word_of_sub_span unescape sub off :
  start (timed_word_of_sub unescape sub off)
  <= end_ (timed_word_of_sub unescape sub off).
Proof.
  unfold timed_word_of_sub. simpl. apply RoundingFacts.round3_mono.
  unfold Py.ltb. destruct (Qle_bool _ _) eqn:Hle; simpl.
  - now apply Qle_bool_iff.
  - apply Qle_refl.
Qed.

Lemma timed_words_loop_spans unescape : forall ss os,
  Forall (fun w => start w <= end_ w) (timed_words_loop unescape ss os).
Proof.
  induction ss as [|sub ss IH]; intros [|off os]; simpl;
    try apply List.Forall_nil.
  constructor; [apply timed_word_of_sub_span | apply IH].
Qed.

(** C8, amended.  [group_words_into_captions] returns without raising
    whenever every word carries [text], [start] and [end]; as soon as one
    word lacks one of them the call raises [KeyError], so the whole batch is
    rejected.  Times are stored as given, for every input: each block is made
    of a run of consecutive input words and carries the [start] of the first
    word of the run and the [end] of the last, whatever their order, so a
    word that ends before it starts is not clamped.  The clamp [end = start]
    is the work of [get_timed_words_from_submaker], every word of which ends
    no earlier than it starts. *)
Theorem group_words_malformed_input mw md :
  (forall ws : list word_info,
     Forall has_keys ws ->
     exists blocks, group_words_into_captions mw md ws = Ok blocks)
  /\ (forall ws : list word_info,
        Exists (fun w => ~ has_keys w) ws ->
        exists key, group_words_into_captions mw md ws = Raise (KeyError key))
  /\ (forall ws : list TimedWord,
        ws <> [] ->
        exists segs,
          ws = flatten segs
          /\ group_words_into_captions mw md (List.map to_dict ws)
             = Ok (List.map
                     (fun s => Caption (start (fst s))
                                       (Some (end_ (seg_last s)))
                                       (Py.join " "
                                          (List.map text (seg_words s))))
                     segs))
  /\ (forall unescape sub_maker,
        Forall (fun w => start w <= end_ w)
               (get_timed_words_from_submaker unescape sub_maker)).
Proof.
  split; [|split; [|split]].
  - intros ws Hws. destruct (has_keys_to_dict ws Hws) as [tws ->].
    destruct tws as [|w0 rest]; [now exists []|].
    destruct (group_runs_segments mw md (w0 :: rest)) as
      (init & s & _ & Hrun & _); [discriminate|].
    eexists. apply captions_of_runs, Hrun.
  - apply group_key_error.
  - intros ws Hne.
    destruct (group_runs_segments mw md ws Hne) as (init & s & Hflat & Hrun & _).
    exists (init ++ [s]). split; [exact Hflat|].
    rewrite (captions_of_runs mw md _ _ Hrun), List.map_map.
    reflexivity.
  - intros unescape [sm|]; simpl; [|apply List.Forall_nil].
    destruct (is_nil (subs sm) || is_nil (offset sm));
      [apply List.Forall_nil | apply timed_words_loop_spans].
Qed.

(** C8 as stated fails: a word without ["end"] makes the call raise instead
    of being clamped, the well-formed word before it notwithstanding; and a
    word that ends before it starts is stored unclamped. *)
Lemma group_words_rejects_malformed_batch :
  group_words_into_captions 4 4
    [to_dict (mkWord "a" 0 1); WordInfo (Some "b") (Some 1) None]
  = Raise (KeyError "end")
  /\ group_words_into_captions 4 4 [to_dict (mkWord "a" 5 2)]
     = Ok [Caption 5 (Some 2) "a"]
  /\ ~ (5 <= 2).
Proof.
  split; [reflexivity|]. split; [reflexivity|].
  intros H. now apply H.
Qed.

Lemma group_words_malformed_input_witness :
  Forall has_keys [to_dict (mkWord "a" 0 1)]
  /\ (exists blocks,
        group_words_into_captions 4 4 [to_dict (mkWord "a" 0 1)] = Ok blocks)
  /\ Exists (fun w => ~ has_keys w) [WordInfo (Some "b") (Some 1) None]
  /\ (exists key,
        group_words_into_captions 4 4 [WordInfo (Some "b") (Some 1) None]
        = Raise (KeyError key))
  /\ backwards_words <> []
  /\ (exists segs,
        backwards_words = flatten segs
        /\ group_words_into_captions 4 4 (List.map to_dict backwards_words)
           = Ok (List.map
                   (fun s => Caption (start (fst s))
                                     (Some (end_ (seg_last s)))
                                     (Py.join " "
                                        (List.map text (seg_words s))))
                   segs))
  /\ group_words_into_captions 4 4 (List.map to_dict backwards_words)
     = Ok [Caption 5 (Some 3) "Oui non."; Caption 7 (Some 4) "merci"].
Proof.
  assert (Hok : Forall has_keys [to_dict (mkWord "a" 0 1)]).
  { repeat constructor; eexists; reflexivity. }
  assert (Hbad : Exists (fun w => ~ has_keys w)
                        [WordInfo (Some "b") (Some 1) None]).
  { constructor. intros (_ & _ & [e He]). discriminate He. }
  assert (Hne : backwards_words <> []) by discriminate.
  destruct (group_words_malformed_input 4 4) as (Hwell & Hraise & Hruns & _).
  split; [exact Hok|]. split; [exact (Hwell _ Hok)|].
  split; [exact Hbad|]. split; [exact (Hraise _ Hbad)|].
  split; [exact Hne|]. split; [exact (Hruns _ Hne) | reflexivity].
Defined.

End GroupingFacts.

(** ** SRT blocks spread over their words *)

Module SrtFacts.
Import CaptionOverlay CaptionGenerator Runs RoundingFacts Scenarios.

Local Open Scope Q_scope.

Lemma round3_proper (x y : Q) : x == y -> Py.round3 x == Py.round3 y.
Proof.
  intros H. apply Qle_antisym; apply round3_mono; rewrite H; apply Qle_refl.
Qed.

(** Whatever the string, the parsed time is a whole number of
    thousandths. *)
Lemma parse_srt_time_thousandths (time_str : string) :
  exists k : Z, parse_srt_time time_str == inject_Z k / 1000.
Proof.
  unfold parse_srt_time, parse_srt_time_body.
  assert (H0 : exists k : Z, 0 == inject_Z k / 1000) by (now exists 0%Z).
  destruct (Py.split_on ":" _) as [|hs [|ms [|ss [|? ?]]]]; try exact H0.
  destruct (Py.int_of_digits hs) as [h|]; cbn [rbind]; try exact H0.
  destruct (Py.int_of_digits ms) as [m|]; cbn [rbind]; try exact H0.
  destruct (Py.int_of_digits ss) as [sec|]; cbn [rbind]; try exact H0.
  destruct (Py.split_on "," time_str) as [|p0 [|p1 ?]]; try exact H0.
  destruct (Py.int_of_digits p1) as [msec|]; cbn [rbind]; try exact H0.
  exists (Z.of_N h * 3600000 + Z.of_N m * 60000 + Z.of_N sec * 1000
          + Z.of_N msec)%Z.
  rewrite !inject_Z_plus, !inject_Z_mult. field.
Qed.

Lemma round3_parse_srt_time (time_str : string) :
  Py.round3 (parse_srt_time time_str) == parse_srt_time time_str.
Proof.
  destruct (parse_srt_time_thousandths time_str) as [k Hk].
  rewrite (round3_proper _ _ Hk), Hk. apply round3_thousandths.
Qed.

Lemma spread_words_text tpw end_time : forall words cur,
  List.map text (spread_words tpw end_time cur words) = words.
Proof.
  induction words as [|w rest IH]; intros cur; simpl; [reflexivity|].
  now rewrite IH.
Qed.

Lemma spread_words_head tpw end_time cur word rest :
  exists tl,
    spread_words tpw end_time cur (word :: rest)
    = mkWord word (Py.round3 cur)
             (Py.round3 (Qmin (cur + tpw) end_time)) :: tl.
Proof. simpl. eauto. Qed.

Lemma spread_words_chained tpw end_time : forall words cur,
  chained (spread_words tpw end_time cur words).
Proof.
  induction words as [|w rest IH]; intros cur; [exact I|].
  destruct rest as [|w' rest']; [exact I|].
  specialize (IH (Qmin (cur + tpw) end_time)).
  cbn [spread_words chained] in *. cbn [start end_]. split; [reflexivity|].
  exact IH.
Qed.

Lemma spread_words_ends tpw end_time : forall words cur,
  Forall (fun w => end_ w <= Py.round3 end_time)
         (spread_words tpw end_time cur words).
Proof.
  induction words as [|w rest IH]; intros cur; simpl;
    [apply List.Forall_nil|].
  constructor; [|apply IH].
  simpl. apply round3_mono, Q.le_min_r.
Qed.

(** With [n] words left for the rest of the span, no end is cut off: the
    word at position [i] runs from [cur + i * tpw] to [cur + (i+1) * tpw]. *)
Lemma spread_words_uniform tpw end_time : forall words cur,
  0 <= tpw ->
  cur + inject_Z (Z.of_nat (List.length words)) * tpw <= end_time ->
  forall i w,
    List.nth_error (spread_words tpw end_time cur words) i = Some w ->
    start w == Py.round3 (cur + inject_Z (Z.of_nat i) * tpw)
    /\ end_ w == Py.round3 (cur + inject_Z (Z.of_nat (S i)) * tpw).
Proof.
  induction words as [|word rest IH]; intros cur Htpw Hfit i w Hi.
  { destruct i; discriminate Hi. }
  assert (Hlen : inject_Z (Z.of_nat (List.length (word :: rest)))
                 == inject_Z (Z.of_nat (List.length rest)) + 1).
  { simpl List.length. rewrite Nat2Z.inj_succ, <- Z.add_1_r, inject_Z_plus.
    reflexivity. }
  rewrite Hlen in Hfit.
  assert (Hrest : 0 <= inject_Z (Z.of_nat (List.length rest)) * tpw).
  { apply Qmult_le_0_compat; [|exact Htpw].
    rewrite <- (Zle_Qle 0). lia. }
  assert (Hmin : Qmin (cur + tpw) end_time == cur + tpw).
  { apply Q.min_l. lra. }
  destruct i as [|i]; simpl in Hi.
  - injection Hi as <-. cbn [start end_]. split; apply round3_proper.
    + change (inject_Z (Z.of_nat 0)) with 0. lra.
    + rewrite Hmin. change (inject_Z (Z.of_nat 1)) with 1. lra.
  - destruct (IH (Qmin (cur + tpw) end_time) Htpw) with (i := i) (w := w)
      as [Hs He]; [rewrite Hmin; lra | exact Hi |].
    assert (Hi1 : forall j, inject_Z (Z.of_nat (S j))
                            == inject_Z (Z.of_nat j) + 1).
    { intros j. rewrite Nat2Z.inj_succ, <- Z.add_1_r, inject_Z_plus.
      reflexivity. }
    split.
    + rewrite Hs. apply round3_proper. rewrite Hmin, Hi1. lra.
    + rewrite He. apply round3_proper. rewrite Hmin, (Hi1 (S i)), Hi1. lra.
Qed.

Lemma words_of_match_spread (m : srt_match) :
  let start_time := parse_srt_time (start_str m) in
  let end_time := parse_srt_time (end_str m) in
  start_time < end_time ->
  words_of_match m
  = spread_words
      ((end_time - start_time)
       / inject_Z (Z.of_nat (List.length (block_words m))))
      end_time start_time (block_words m).
Proof.
  cbv zeta. intros Hlt. unfold words_of_match.
  destruct (Qle_bool _ 0) eqn:Hle.
  - apply Qle_bool_iff in Hle. exfalso. lra.
  - now destruct (block_words m).
Qed.

Lemma length_positive {A} (l : list A) :
  l <> [] -> 0 < inject_Z (Z.of_nat (List.length l)).
Proof.
  intros Hne. destruct l as [|x l]; [congruence|].
  rewrite <- (Zlt_Qlt 0). simpl List.length. lia.
Qed.

(** C10.  The words emitted for a block split its span evenly: the word at
    position [i] runs from [start + i * (duration / n)] to
    [start + (i+1) * (duration / n)], each taken to a nearest millisecond;
    so the first word starts at the block's start, each later word starts
    exactly where the one before ends, and no word ends after the block's
    end.  A block whose duration is zero or negative contributes nothing.
    The words of every block appear, as emitted, in the converted list. *)
Theorem srt_block_words_partition (m : srt_match) :
  let start_time := parse_srt_time (start_str m) in
  let end_time := parse_srt_time (end_str m) in
  let words := block_words m in
  let time_per_word :=
    (end_time - start_time) / inject_Z (Z.of_nat (List.length words)) in
  (end_time - start_time <= 0 -> words_of_match m = [])
  /\ (start_time < end_time -> words <> [] ->
      List.map text (words_of_match m) = words
      /\ (exists w0 rest,
            words_of_match m = w0 :: rest /\ start w0 == start_time)
      /\ chained (words_of_match m)
      /\ Forall (fun w => end_ w <= end_time) (words_of_match m)
      /\ (forall i w,
            List.nth_error (words_of_match m) i = Some w ->
            exists ks ke : Z,
              start w == inject_Z ks / 1000
              /\ end_ w == inject_Z ke / 1000
              /\ Py.nearest ks
                   ((start_time + inject_Z (Z.of_nat i) * time_per_word)
                    * 1000)
              /\ Py.nearest ke
                   ((start_time + inject_Z (Z.of_nat (S i)) * time_per_word)
                    * 1000)))
  /\ (forall matches,
        In m matches ->
        exists before after,
          convert_srt_to_timed_words matches
          = Some (before ++ words_of_match m ++ after)).
Proof.
  cbv zeta. split; [|split].
  - intros Hle. unfold words_of_match.
    apply Qle_bool_iff in Hle. now rewrite Hle.
  - intros Hlt Hne. rewrite (words_of_match_spread m Hlt).
    pose proof (length_positive _ Hne) as Hn.
    split; [apply spread_words_text|].
    split.
    { destruct (block_words m) as [|word rest] eqn:Hw; [congruence|].
      destruct (spread_words_head
                  ((parse_srt_time (end_str m) - parse_srt_time (start_str m))
                   / inject_Z (Z.of_nat (List.length (word :: rest))))
                  (parse_srt_time (end_str m))
                  (parse_srt_time (start_str m)) word rest) as [tl Htl].
      rewrite Htl. eexists _, tl. split; [reflexivity|].
      apply round3_parse_srt_time. }
    split; [apply spread_words_chained|].
    split.
    { eapply List.Forall_impl; [|apply spread_words_ends].
      intros w Hw. simpl in Hw.
      now rewrite round3_parse_srt_time in Hw. }
    intros i w Hw.
    assert (Htpw : 0 <= (parse_srt_time (end_str m)
                         - parse_srt_time (start_str m))
                        / inject_Z (Z.of_nat (List.length (block_words m)))).
    { apply Qlt_le_weak, Qlt_shift_div_l; [exact Hn | lra]. }
    assert (Hfit : parse_srt_time (start_str m)
                   + inject_Z (Z.of_nat (List.length (block_words m)))
                     * ((parse_srt_time (end_str m)
                         - parse_srt_time (start_str m))
                        / inject_Z (Z.of_nat (List.length (block_words m))))
                   <= parse_srt_time (end_str m)).
    { apply Qle_lteq. right. field. intros H0. rewrite H0 in Hn.
      now apply Qlt_irrefl in Hn. }
    destruct (spread_words_uniform _ _ _ _ Htpw Hfit i w Hw) as [Hs He].
    destruct (round3_nearest _ _ Hs) as (ks & Hks & Hns).
    destruct (round3_nearest _ _ He) as (ke & Hke & Hne').
    now exists ks, ke.
  - intros matches Hin. destruct (List.in_split _ _ Hin) as (l1 & l2 & ->).
    exists (List.flat_map words_of_match l1),
           (List.flat_map words_of_match l2).
    unfold convert_srt_to_timed_words.
    destruct (l1 ++ m :: l2) eqn:Hl; [now destruct l1|].
    rewrite <- Hl, List.flat_map_app. reflexivity.
Qed.

Lemma srt_block_words_partition_witness :
  parse_srt_time (start_str dummy_block) < parse_srt_time (end_str dummy_block)
  /\ block_words dummy_block <> []
  /\ List.map text (words_of_match dummy_block) = block_words dummy_block
  /\ chained (words_of_match dummy_block)
  /\ Forall (fun w => end_ w <= parse_srt_time (end_str dummy_block))
            (words_of_match dummy_block).
Proof.
  assert (Hlt : parse_srt_time (start_str dummy_block)
                < parse_srt_time (end_str dummy_block)) by reflexivity.
  assert (Hne : block_words dummy_block <> []) by discriminate.
  destruct (srt_block_words_partition dummy_block) as (_ & Hpart & _).
  destruct (Hpart Hlt Hne) as (Htext & _ & Hchain & Hends & _).
  split; [exact Hlt|]. split; [exact Hne|]. split; [exact Htext|].
  split; [exact Hchain | exact Hends].
Defined.

End SrtFacts.

(** ** Decimal fields and their parsing *)

Module DigitFacts.

Lemma list_ascii_app (a b : string) :
  list_ascii_of_string (a ++ b)%string
  = list_ascii_of_string a ++ list_ascii_of_string b.
Proof. induction a as [|c a IH]; simpl; [reflexivity | now rewrite IH]. Qed.

Lemma digits_only_uint (d : Decimal.uint) :
  Py.digits_only (NilEmpty.string_of_uint d).
Proof.
  unfold Py.digits_only.
  induction d; simpl; try apply List.Forall_nil; now constructor.
Qed.

Lemma digits_only_str_of_N (n : N) : Py.digits_only (Py.str_of_N n).
Proof.
  unfold Py.str_of_N, NilZero.string_of_uint.
  destruct (N.to_uint n); try apply digits_only_uint.
  repeat constructor.
Qed.

Lemma zfill_chars (width : nat) (s : string) :
  list_ascii_of_string (Py.zfill width s)
  = repeat "0"%char (width - String.length s) ++ list_ascii_of_string s.
Proof.
  unfold Py.zfill.
  now rewrite list_ascii_app, list_ascii_of_string_of_list_ascii.
Qed.

Lemma digits_only_zfill (width : nat) (s : string) :
  Py.digits_only s -> Py.digits_only (Py.zfill width s).
Proof.
  unfold Py.digits_only. rewrite zfill_chars. intros H.
  apply Forall_app. split; [|exact H].
  apply List.Forall_forall. intros c Hc.
  apply repeat_spec in Hc. now subst.
Qed.

Lemma digits_only_format_d (width : nat) (z : Z) :
  (0 <= z)%Z -> Py.digits_only (Py.format_d width z).
Proof.
  intros Hz. unfold Py.format_d.
  destruct (z <? 0)%Z eqn:Hneg; [apply Z.ltb_lt in Hneg; lia|].
  apply digits_only_zfill, digits_only_str_of_N.
Qed.

(** Reading back what [str] wrote. *)
Lemma uint_of_str_of_N (n : N) :
  exists d, NilEmpty.uint_of_string (Py.str_of_N n) = Some d
            /\ N.of_uint d = n.
Proof.
  unfold Py.str_of_N, NilZero.string_of_uint.
  pose proof (DecimalN.Unsigned.of_to n) as Hn.
  destruct (N.to_uint n) eqn:Hd;
    try (eexists; split; [apply NilEmpty.usu | exact Hn]).
  exists (Decimal.D0 Decimal.Nil). split; [reflexivity|].
  simpl in Hn. now subst.
Qed.

Lemma uint_of_zeros (k : nat) (s : string) (d : Decimal.uint) :
  NilEmpty.uint_of_string s = Some d ->
  exists d', NilEmpty.uint_of_string
               (string_of_list_ascii (repeat "0"%char k) ++ s)%string
             = Some d'
             /\ N.of_uint d' = N.of_uint d.
Proof.
  intros Hs. induction k as [|k IH]; simpl; [now exists d|].
  destruct IH as (d' & Hd' & Hval). rewrite Hd'.
  exists (Decimal.D0 d'). split; [reflexivity | exact Hval].
Qed.

Lemma str_of_N_nonempty (n : N) : Py.str_of_N n <> EmptyString.
Proof.
  unfold Py.str_of_N, NilZero.string_of_uint.
  pose proof (DecimalN.Unsigned.of_to n) as Hn.
  destruct (N.to_uint n) eqn:Hd; simpl; discriminate.
Qed.

Lemma int_of_format_d (width : nat) (z : Z) :
  (0 <= z)%Z -> Py.int_of_digits (Py.format_d width z) = Ok (Z.to_N z).
Proof.
  intros Hz. unfold Py.format_d.
  destruct (z <? 0)%Z eqn:Hneg; [apply Z.ltb_lt in Hneg; lia|].
  destruct (uint_of_str_of_N (Z.to_N z)) as (d & Hd & Hval).
  destruct (uint_of_zeros (width - String.length (Py.str_of_N (Z.to_N z)))
              _ _ Hd) as (d' & Hd' & Hval').
  unfold Py.int_of_digits, NilZero.uint_of_string, Py.zfill.
  destruct (_ ++ _)%string eqn:Hs.
  - exfalso. apply (str_of_N_nonempty (Z.to_N z)).
    destruct (string_of_list_ascii _); [exact Hs | discriminate Hs].
  - rewrite Hd'. now rewrite Hval', Hval.
Qed.

(** Splitting at a separator that the fields do not contain. *)
Lemma split_on_aux_last (sep : ascii) : forall (s cur : list ascii),
  ~ In sep s ->
  Py.split_on_aux sep cur s = [string_of_list_ascii (rev cur ++ s)].
Proof.
  induction s as [|c s IH]; intros cur Hnot; simpl.
  - now rewrite List.app_nil_r.
  - destruct (Ascii.eqb c sep) eqn:Hc.
    + apply Ascii.eqb_eq in Hc. exfalso. apply Hnot. now left.
    + rewrite IH; [|intros Hin; apply Hnot; now right].
      simpl. now rewrite <- List.app_assoc.
Qed.

Lemma split_on_aux_field (sep : ascii) : forall (s cur rest : list ascii),
  ~ In sep s ->
  Py.split_on_aux sep cur (s ++ sep :: rest)
  = string_of_list_ascii (rev cur ++ s) :: Py.split_on_aux sep [] rest.
Proof.
  induction s as [|c s IH]; intros cur rest Hnot; simpl.
  - rewrite Ascii.eqb_refl. now rewrite List.app_nil_r.
  - destruct (Ascii.eqb c sep) eqn:Hc.
    + apply Ascii.eqb_eq in Hc. exfalso. apply Hnot. now left.
    + rewrite IH; [|intros Hin; apply Hnot; now right].
      simpl. now rewrite <- List.app_assoc.
Qed.

Lemma digits_exclude (sep : ascii) (s : string) :
  Py.is_digit sep = false -> Py.digits_only s ->
  ~ In sep (list_ascii_of_string s).
Proof.
  intros Hsep Hs Hin. unfold Py.digits_only in Hs.
  eapply List.Forall_forall in Hs; [|exact Hin]. congruence.
Qed.

End DigitFacts.

(** ** Subtitle time stamps *)

Module FormatFacts.
Import CaptionGenerator AudioGenerator DigitFacts.

Local Open Scope Q_scope.

Lemma colon_not_digit : Py.is_digit ":"%char = false.
Proof. reflexivity. Qed.

Lemma comma_not_digit : Py.is_digit ","%char = false.
Proof. reflexivity. Qed.

(** [parse_srt_time] finds the four fields of [hs:ms:ss,xs] again. *)
Lemma parse_fields (hs ms ss xs : string) :
  Py.digits_only hs -> Py.digits_only ms ->
  Py.digits_only ss -> Py.digits_only xs ->
  parse_srt_time_body (hs ++ ":" ++ ms ++ ":" ++ ss ++ "," ++ xs)%string
  = (try! h := Py.int_of_digits hs in
     try! m := Py.int_of_digits ms in
     try! s := Py.int_of_digits ss in
     try! x := Py.int_of_digits xs in
     Ok (inject_Z (Z.of_N h) * 3600 + inject_Z (Z.of_N m) * 60
         + inject_Z (Z.of_N s) + inject_Z (Z.of_N x) / 1000)).
Proof.
  intros Hh Hm Hs Hx.
  set (lh := list_ascii_of_string hs). set (lm := list_ascii_of_string ms).
  set (ls := list_ascii_of_string ss). set (lx := list_ascii_of_string xs).
  set (hms := lh ++ ":"%char :: lm ++ ":"%char :: ls).
  assert (Hchars :
    list_ascii_of_string (hs ++ ":" ++ ms ++ ":" ++ ss ++ "," ++ xs)%string
    = hms ++ ","%char :: lx).
  { rewrite !list_ascii_app. cbn [list_ascii_of_string]. unfold hms.
    fold lh lm ls lx. cbn [List.app].
    rewrite <- List.app_assoc. cbn [List.app].
    rewrite <- List.app_assoc. reflexivity. }
  assert (Hnc : forall l, In l [lh; lm; ls; lx] -> ~ In ","%char l).
  { intros l [<- | [<- | [<- | [<- | []]]]];
      now apply digits_exclude; [apply comma_not_digit|]. }
  assert (Hncol : forall l, In l [lh; lm; ls] -> ~ In ":"%char l).
  { intros l [<- | [<- | [<- | []]]];
      now apply digits_exclude; [apply colon_not_digit|]. }
  assert (Hhms : ~ In ","%char hms).
  { unfold hms. intros Hin.
    apply List.in_app_or in Hin. destruct Hin as [Hin | [Hin | Hin]].
    - apply (Hnc lh); simpl; auto.
    - discriminate Hin.
    - apply List.in_app_or in Hin. destruct Hin as [Hin | [Hin | Hin]].
      + apply (Hnc lm); simpl; auto.
      + discriminate Hin.
      + apply (Hnc ls); simpl; auto. }
  unfold parse_srt_time_body, Py.split_on.
  rewrite Hchars.
  rewrite (split_on_aux_field ","%char hms [] lx Hhms).
  rewrite (split_on_aux_last ","%char lx [])
    by (apply (Hnc lx); simpl; auto).
  cbn [List.nth rev List.app].
  rewrite list_ascii_of_string_of_list_ascii. unfold hms.
  rewrite (split_on_aux_field ":"%char lh [])
    by (apply (Hncol lh); simpl; auto).
  rewrite (split_on_aux_field ":"%char lm [])
    by (apply (Hncol lm); simpl; auto).
  rewrite (split_on_aux_last ":"%char ls [])
    by (apply (Hncol ls); simpl; auto).
  cbn [rev List.app]. unfold lh, lm, ls, lx.
  rewrite !string_of_list_ascii_of_string. reflexivity.
Qed.

(** The fields written for a millisecond count denote that count. *)
Lemma parse_format_milliseconds (total : Z) :
  (0 <= total)%Z ->
  parse_srt_time (format_milliseconds total) == inject_Z total / 1000.
Proof.
  intros Htotal. unfold parse_srt_time, format_milliseconds.
  set (h := (total / 3600000)%Z).
  set (r1 := (total mod 3600000)%Z).
  set (m := (r1 / 60000)%Z).
  set (r2 := (r1 mod 60000)%Z).
  assert (Hr1 : (0 <= r1 < 3600000)%Z) by (apply Z.mod_pos_bound; lia).
  assert (Hr2 : (0 <= r2 < 60000)%Z) by (apply Z.mod_pos_bound; lia).
  assert (Hh : (0 <= h)%Z) by (apply Z.div_pos; lia).
  assert (Hm : (0 <= m)%Z) by (apply Z.div_pos; lia).
  assert (Hs : (0 <= r2 / 1000)%Z) by (apply Z.div_pos; lia).
  assert (Hx : (0 <= r2 mod 1000)%Z) by (apply Z.mod_pos_bound; lia).
  rewrite parse_fields by (now apply digits_only_format_d).
  rewrite !int_of_format_d by assumption. cbn [rbind].
  rewrite !Z2N.id by assumption.
  assert (Hsum : total = (h * 3600000 + m * 60000 + r2 / 1000 * 1000
                          + r2 mod 1000)%Z).
  { pose proof (Z.div_mod total 3600000). pose proof (Z.div_mod r1 60000).
    pose proof (Z.div_mod r2 1000). fold h r1 in H. fold m r2 in H0. lia. }
  replace (inject_Z total)
    with (inject_Z (h * 3600000 + m * 60000 + r2 / 1000 * 1000
                    + r2 mod 1000))
    by (f_equal; symmetry; exact Hsum).
  rewrite !inject_Z_plus, !inject_Z_mult. field.
Qed.


Lemma string_length_app (a b : string) :
  String.length (a ++ b)%string = (String.length a + String.length b)%nat.
Proof. induction a as [|c a IH]; simpl; [reflexivity | now rewrite IH]. Qed.

Lemma string_length_of_list (l : list ascii) :
  String.length (string_of_list_ascii l) = List.length l.
Proof. induction l as [|c l IH]; simpl; [reflexivity | now rewrite IH]. Qed.

Lemma zfill_length (width : nat) (s : string) :
  String.length (Py.zfill width s)
  = (width - String.length s + String.length s)%nat.
Proof.
  unfold Py.zfill.
  now rewrite string_length_app, string_length_of_list, List.repeat_length.
Qed.

Lemma format_d_min_width (width : nat) (z : Z) :
  (0 <= z)%Z -> (width <= String.length (Py.format_d width z))%nat.
Proof.
  intros Hz. unfold Py.format_d.
  destruct (z <? 0)%Z eqn:Hneg; [apply Z.ltb_lt in Hneg; lia|].
  rewrite zfill_length. lia.
Qed.

(** Below [bound], a check over [0 .. bound - 1] decides the exact width. *)
Lemma format_d_exact_width (width bound : nat) :
  forallb (fun n => String.length (Py.format_d width (Z.of_nat n)) =? width)%nat
          (seq 0 bound) = true ->
  forall z, (0 <= z < Z.of_nat bound)%Z ->
            String.length (Py.format_d width z) = width.
Proof.
  intros Hall z Hz. rewrite List.forallb_forall in Hall.
  specialize (Hall (Z.to_nat z)).
  rewrite Z2Nat.id in Hall by lia.
  apply Nat.eqb_eq, Hall, List.in_seq. lia.
Qed.

Lemma format_d_two (z : Z) :
  (0 <= z < 60)%Z -> String.length (Py.format_d 2 z) = 2%nat.
Proof. apply (format_d_exact_width 2 60). vm_compute. reflexivity. Qed.

Lemma format_d_three (z : Z) :
  (0 <= z < 1000)%Z -> String.length (Py.format_d 3 z) = 3%nat.
Proof. apply (format_d_exact_width 3 1000). vm_compute. reflexivity. Qed.

(** The shape [HH:MM:SS,mmm] of a rendered millisecond count. *)
Lemma format_milliseconds_shape (total : Z) :
  (0 <= total)%Z ->
  exists hh mm ss mmm,
    format_milliseconds total
    = (hh ++ ":" ++ mm ++ ":" ++ ss ++ "," ++ mmm)%string
    /\ Py.digits_only hh /\ Py.digits_only mm
    /\ Py.digits_only ss /\ Py.digits_only mmm
    /\ (2 <= String.length hh)%nat /\ String.length mm = 2%nat
    /\ String.length ss = 2%nat /\ String.length mmm = 3%nat.
Proof.
  intros Htotal. unfold format_milliseconds.
  set (h := (total / 3600000)%Z).
  set (r1 := (total mod 3600000)%Z).
  set (r2 := (r1 mod 60000)%Z).
  assert (Hr1 : (0 <= r1 < 3600000)%Z) by (apply Z.mod_pos_bound; lia).
  assert (Hr2 : (0 <= r2 < 60000)%Z) by (apply Z.mod_pos_bound; lia).
  assert (Hh : (0 <= h)%Z) by (apply Z.div_pos; lia).
  assert (Hm : (0 <= r1 / 60000 < 60)%Z).
  { split; [apply Z.div_pos; lia | apply Z.div_lt_upper_bound; lia]. }
  assert (Hs : (0 <= r2 / 1000 < 60)%Z).
  { split; [apply Z.div_pos; lia | apply Z.div_lt_upper_bound; lia]. }
  assert (Hx : (0 <= r2 mod 1000 < 1000)%Z) by (apply Z.mod_pos_bound; lia).
  eexists _, _, _, _. split; [reflexivity|].
  repeat split; try (apply digits_only_format_d; lia).
  - now apply format_d_min_width.
  - now apply format_d_two.
  - now apply format_d_two.
  - now apply format_d_three.
Qed.

(** *** The arithmetic of [format_time_srt] on binary64 *)

Lemma round_aux_sign (sx : bool) (mx ex : Z) (lx : location) :
  match binary_round_aux prec emax sx mx ex lx with
  | S754_zero s | S754_infinity s | S754_finite s _ _ => s = sx
  | S754_nan => True
  end.
Proof.
  unfold binary_round_aux.
  destruct (shr_fexp prec emax mx ex lx) as [mrs' e'].
  destruct (shr_fexp prec emax _ e' loc_Exact) as [mrs'' e''].
  destruct (shr_m mrs''); [reflexivity | | exact I].
  destruct (Z.leb e'' (emax - prec)); reflexivity.
Qed.

(** The product the function truncates is never below zero. *)
Lemma product_sign (t : float) :
  match Prim2SF (clamp_seconds t * 1000)%float with
  | S754_finite sign _ _ => sign = false
  | _ => True
  end.
Proof.
  unfold clamp_seconds.
  destruct (t <? 0)%float eqn:Hlt; [vm_compute; exact I|].
  rewrite mul_spec. rewrite ltb_spec in Hlt.
  assert (H0 : Prim2SF 0 = S754_zero false) by (vm_compute; reflexivity).
  assert (Hk : Prim2SF 1000 = S754_finite false 8796093022208000 (-43))
    by (vm_compute; reflexivity).
  rewrite H0 in Hlt. rewrite Hk.
  destruct (Prim2SF t) as [s | s | | s m e]; try exact I.
  destruct s; [discriminate Hlt|].
  unfold SF64mul, SFmul. cbn [xorb].
  pose proof (round_aux_sign false (Z.pos (m * 8796093022208000))
                (e + -43) loc_Exact) as Hs.
  destruct (binary_round_aux _ _ _ _ _ _); try exact I. exact Hs.
Qed.

Lemma quotient_floor (a b : Z) :
  (0 < b)%Z ->
  inject_Z (a / b) <= inject_Z a / inject_Z b
  /\ inject_Z a / inject_Z b < inject_Z (a / b) + 1.
Proof.
  intros Hb. destruct b as [|pb|pb]; try lia.
  rewrite <- Qmake_Qdiv.
  pose proof (Qfloor_le (a # pb)) as Hlo.
  pose proof (Qlt_floor (a # pb)) as Hhi.
  rewrite inject_Z_plus in Hhi. change (inject_Z 1) with 1 in Hhi.
  unfold Qfloor in Hlo, Hhi. now split.
Qed.

(** [int] of a float that is not negative is its value rounded down. *)
Lemma int_of_float_floor (x : float) (p : Q) :
  match Prim2SF x with S754_finite sign _ _ => sign = false | _ => True end ->
  float_value x = Some p ->
  exists z : Z,
    int_of_float x = Ok z /\ (0 <= z)%Z
    /\ inject_Z z <= p /\ p < inject_Z z + 1.
Proof.
  unfold float_value, int_of_float.
  destruct (Prim2SF x) as [s | s | | s m e]; intros Hs Hp; try discriminate.
  - injection Hp as <-. exists 0%Z. split; [reflexivity|]. split; [lia|].
    split; [apply Qle_refl | reflexivity].
  - subst s. injection Hp as <-.
    destruct (0 <=? e)%Z eqn:He.
    + eexists. split; [reflexivity|]. split; [|split].
      * apply Z.leb_le in He. apply Z.mul_nonneg_nonneg; [lia|].
        now apply Z.pow_nonneg.
      * apply Qle_refl.
      * lra.
    + apply Z.leb_gt in He.
      assert (Hpow : (0 < 2 ^ (- e))%Z) by (apply Z.pow_pos_nonneg; lia).
      eexists. split; [reflexivity|]. split; [|apply quotient_floor, Hpow].
      apply Z.div_pos; lia.
Qed.

(** C7, amended.  For every binary64 number [t], [format_time_srt t] is
    decided by the product [t * 1000] as binary64 computes it, [t] below
    zero counting as zero.  When that product is a number the result is the
    time stamp of its whole part [ms], the product truncated and not
    rounded: a stamp of the shape [HH:MM:SS,mmm] (two digits for minutes and
    seconds, three for milliseconds, two or more for hours) which
    [parse_srt_time] reads back as exactly [ms] thousandths, so the hour
    field carries all the hours, as for 25 hours.  When the product is an
    infinity or a NaN the call raises.  3725.256 seconds give
    [01:02:05,256] and 1.9999 seconds give [00:00:01,999]. *)
Theorem format_time_srt_truncates (t : float) :
  let product := (clamp_seconds t * 1000)%float in
  ((t <? 0)%float = true -> format_time_srt_float t = Ok "00:00:00,000")
  /\ (forall p : Q,
        float_value product = Some p ->
        exists ms : Z,
          format_time_srt_float t = Ok (format_milliseconds ms)
          /\ (0 <= ms)%Z
          /\ inject_Z ms <= p /\ p < inject_Z ms + 1
          /\ parse_srt_time (format_milliseconds ms) == inject_Z ms / 1000
          /\ exists hh mm ss mmm,
               format_milliseconds ms
               = (hh ++ ":" ++ mm ++ ":" ++ ss ++ "," ++ mmm)%string
               /\ Py.digits_only hh /\ Py.digits_only mm
               /\ Py.digits_only ss /\ Py.digits_only mmm
               /\ (2 <= String.length hh)%nat /\ String.length mm = 2%nat
               /\ String.length ss = 2%nat /\ String.length mmm = 3%nat)
  /\ (float_value product = None ->
      exists e, format_time_srt_float t = Raise e)
  /\ format_time_srt_float (3725256 / 1000)%float = Ok "01:02:05,256"
  /\ format_time_srt_float (19999 / 10000)%float = Ok "00:00:01,999"
  /\ format_time_srt_float (25 * 3600)%float = Ok "25:00:00,000".
Proof.
  cbv zeta. split; [|split; [|split; [|split; [|split]]]].
  - intros Hneg. unfold format_time_srt_float, clamp_seconds.
    rewrite Hneg. vm_compute. reflexivity.
  - intros p Hp.
    destruct (int_of_float_floor _ p (product_sign t) Hp)
      as (ms & Hint & Hms & Hlo & Hhi).
    exists ms. unfold format_time_srt_float. rewrite Hint. cbn [rbind].
    split; [reflexivity|]. split; [exact Hms|].
    split; [exact Hlo|]. split; [exact Hhi|].
    split; [now apply parse_format_milliseconds|].
    now apply format_milliseconds_shape.
  - unfold float_value, format_time_srt_float, int_of_float.
    destruct (Prim2SF (clamp_seconds t * 1000)) as [s | s | | s m e];
      intros H; try discriminate H; cbn [rbind]; eauto.
  - vm_compute. reflexivity.
  - vm_compute. reflexivity.
  - vm_compute. reflexivity.
Qed.

(** C7 as stated fails.  The binary64 number Python reads for 8.2 lies below
    8.2, so that truncated to the millisecond it is 8.199; multiplied by
    1000 in binary64 it gives 8200 exactly, and the time stamp shows
    [,200]. *)
Lemma format_time_srt_shows_next_millisecond :
  float_value (82 / 10)%float
  = Some (4616189618054758 # 562949953421312)
  /\ (4616189618054758 # 562949953421312) < 82 # 10
  /\ Qfloor ((4616189618054758 # 562949953421312) * 1000) = 8199%Z
  /\ float_value ((82 / 10) * 1000)%float
     = Some (4507997673881600 # 549755813888)
  /\ (4507997673881600 # 549755813888) == 8200
  /\ format_time_srt_float (82 / 10)%float = Ok "00:00:08,200".
Proof.
  split; [vm_compute; reflexivity|]. split; [reflexivity|].
  split; [reflexivity|]. split; [vm_compute; reflexivity|].
  split; [reflexivity | vm_compute; reflexivity].
Qed.

Lemma format_time_srt_truncates_witness :
  (-0.5 <? 0)%float = true
  /\ format_time_srt_float (-0.5)%float = Ok "00:00:00,000"
  /\ float_value (clamp_seconds (19999 / 10000) * 1000)%float
     = Some (8795653217556890 # 4398046511104)
  /\ exists ms : Z,
      format_time_srt_float (19999 / 10000)%float
      = Ok (format_milliseconds ms)
      /\ (0 <= ms)%Z
      /\ inject_Z ms <= 8795653217556890 # 4398046511104
      /\ 8795653217556890 # 4398046511104 < inject_Z ms + 1
      /\ parse_srt_time (format_milliseconds ms) == inject_Z ms / 1000.
Proof.
  assert (Hneg : (-0.5 <? 0)%float = true) by (vm_compute; reflexivity).
  assert (Hp : float_value (clamp_seconds (19999 / 10000) * 1000)%float
               = Some (8795653217556890 # 4398046511104))
    by (vm_compute; reflexivity).
  destruct (format_time_srt_truncates (-0.5)%float) as (Hclamp & _).
  destruct (format_time_srt_truncates (19999 / 10000)%float)
    as (_ & Hms & _).
  destruct (Hms _ Hp) as (ms & Hfmt & H0 & Hlo & Hhi & Hparse & _).
  split; [exact Hneg|]. split; [exact (Hclamp Hneg)|]. split; [exact Hp|].
  exists ms. split; [exact Hfmt|]. split; [exact H0|].
  split; [exact Hlo|]. split; [exact Hhi | exact Hparse].
Defined.

End FormatFacts.

(** ** Alignment of script lines on the word stream *)

Module AlignFacts.
Import CaptionOverlay AudioGenerator Scenarios.

Local Open Scope Q_scope.

Lemma is_nil_chars (s : string) :
  is_nil (list_ascii_of_string s) = true <-> s = "".
Proof. destruct s; simpl; split; congruence. Qed.

Lemma is_nil_chars_false (s : string) :
  is_nil (list_ascii_of_string s) = false <-> s <> "".
Proof. destruct s; simpl; split; congruence. Qed.

Section Loop.

Variable unescape : string -> string.
Variable script_lines : list string.

(** A non-blank word at the end of the stream closes the block that is
    open: when the loop stops, either nothing is pending or no script line
    is left. *)
Lemma align_loop_closes : forall ss os st st',
  ss <> [] ->
  ~ blank (unescape (List.last ss "")) ->
  align_loop unescape script_lines ss os st = Ok st' ->
  current_sub_line st' = ""
  \/ (List.length script_lines <= script_line_idx st')%nat.
Proof.
  induction ss as [|sub ss IH]; intros os st st' Hne Hlast Hrun;
    [congruence|].
  cbn [align_loop] in Hrun.
  destruct (script_line_idx st <? List.length script_lines)%nat eqn:Hidx.
  2:{ injection Hrun as <-. right. apply Nat.ltb_ge in Hidx. exact Hidx. }
  destruct os as [|[start_ns end_ns] os]; [discriminate Hrun|].
  destruct ss as [|sub' ss'].
  - (* the last word *)
    simpl in Hlast.
    destruct (is_nil (list_ascii_of_string (Py.strip (unescape sub))))
      eqn:Hblank.
    + exfalso. apply Hlast. now apply is_nil_chars.
    + cbn [align_loop is_nil] in Hrun. injection Hrun as <-.
      unfold align_word. rewrite !orb_true_r. now left.
  - destruct (is_nil (list_ascii_of_string (Py.strip (unescape sub))));
      (eapply IH; [discriminate | exact Hlast | exact Hrun]).
Qed.

Lemma last_of_rev {A} (l : list A) (x d : A) (tl : list A) :
  List.rev l = x :: tl -> List.last l d = x.
Proof.
  intros H. rewrite <- (List.rev_involutive l), H. simpl.
  apply List.last_last.
Qed.

End Loop.

(** C9, amended.  When the alignment loop stops with words still pending
    (which needs the stream to end in blank words) and a script line left,
    exactly one block is appended after the loop: it shows the next
    unconsumed script line, only that one, starts with the pending words
    and ends at the end time of the last word of the stream; the warning
    about imperfect alignment is logged.  In every other case nothing is
    appended and nothing is logged; in particular, when the last word of
    the stream is not blank, no final block is ever added, whatever script
    lines remain. *)
Theorem create_subtitle_remaining_lines unescape script_lines sm st :
  align_loop unescape script_lines (subs sm) (offset sm) astate0 = Ok st ->
  subs sm <> [] ->
  offset sm <> [] ->
  (~ blank (current_sub_line st) ->
   (script_line_idx st < List.length script_lines)%nat ->
   append_remaining script_lines sm st
   = Ok (SubtitleItems
           (sub_items st
              ++ [formatter (S (sub_index st)) (start_time_ns st)
                    (snd (List.last (offset sm) (0, 0)))
                    (Py.strip
                       (List.nth (script_line_idx st) script_lines ""))])
           true))
  /\ (blank (current_sub_line st)
      \/ (List.length script_lines <= script_line_idx st)%nat ->
      append_remaining script_lines sm st
      = Ok (SubtitleItems (sub_items st) false))
  /\ (~ blank (unescape (List.last (subs sm) "")) ->
      append_remaining script_lines sm st
      = Ok (SubtitleItems (sub_items st) false)).
Proof.
  intros Hrun Hsubs Hoff.
  assert (Hnone :
    blank (current_sub_line st)
    \/ (List.length script_lines <= script_line_idx st)%nat ->
    append_remaining script_lines sm st
    = Ok (SubtitleItems (sub_items st) false)).
  { intros [Hblank | Hidx]; unfold append_remaining.
    - apply is_nil_chars in Hblank. now rewrite Hblank.
    - apply Nat.ltb_ge in Hidx. rewrite Hidx. now rewrite andb_false_r. }
  split; [|split; [exact Hnone|]].
  - intros Hpending Hidx. unfold append_remaining.
    apply is_nil_chars_false in Hpending. apply Nat.ltb_lt in Hidx.
    rewrite Hpending, Hidx. cbn [negb andb].
    destruct (List.rev (offset sm)) as [|[last_start last_end] tl] eqn:Hrev.
    + exfalso. apply Hoff. rewrite <- (List.rev_involutive (offset sm)).
      now rewrite Hrev.
    + now rewrite (last_of_rev _ _ (0, 0) _ Hrev).
  - intros Hlast. apply Hnone.
    destruct (align_loop_closes unescape script_lines _ _ _ _
                Hsubs Hlast Hrun) as [Hcur | Hidx].
    + left. unfold blank. now rewrite Hcur.
    + now right.
Qed.

(** C9 as stated fails.  With the one-word stream [hello] and the script
    lines [Hello,] and [world.], the stream is exhausted while [world.]
    remains, and neither a final block nor a warning is produced.  With a
    blank word after [hello] and three script lines, the final block shows
    only [Hello,]: the two lines after it never appear. *)
Lemma create_subtitle_drops_remaining_lines :
  (exists st,
     align_loop no_unescape ["Hello,"; "world."] (subs hello_stream)
                (offset hello_stream) astate0 = Ok st
     /\ (script_line_idx st < List.length ["Hello,"; "world."])%nat)
  /\ create_subtitle no_unescape ["Hello,"; "world."] (Some hello_stream)
     = Ok (Some (SubtitleItems [formatter 1 0 5000000 "Hello,"] false))
  /\ create_subtitle no_unescape ["Hello,"; "world."; "Bye."]
                     (Some hello_blank_stream)
     = Ok (Some (SubtitleItems [formatter 1 0 6000000 "Hello,"] true)).
Proof.
  split; [|split]; [|reflexivity|reflexivity].
  eexists. split; [reflexivity|]. simpl. lia.
Qed.

Lemma create_subtitle_remaining_lines_witness :
  align_loop no_unescape ["Hello,"; "world."; "Bye."]
             (subs hello_blank_stream) (offset hello_blank_stream) astate0
  = Ok pending_hello
  /\ subs hello_blank_stream <> []
  /\ offset hello_blank_stream <> []
  /\ ~ blank (current_sub_line pending_hello)
  /\ (script_line_idx pending_hello
      < List.length ["Hello,"; "world."; "Bye."])%nat
  /\ append_remaining ["Hello,"; "world."; "Bye."] hello_blank_stream
                      pending_hello
     = Ok (SubtitleItems
             (sub_items pending_hello
                ++ [formatter (S (sub_index pending_hello))
                      (start_time_ns pending_hello)
                      (snd (List.last (offset hello_blank_stream) (0, 0)))
                      (Py.strip
                         (List.nth (script_line_idx pending_hello)
                                   ["Hello,"; "world."; "Bye."] ""))])
             true).
Proof.
  assert (Hrun : align_loop no_unescape ["Hello,"; "world."; "Bye."]
                   (subs hello_blank_stream) (offset hello_blank_stream)
                   astate0 = Ok pending_hello) by reflexivity.
  assert (Hsubs : subs hello_blank_stream <> []) by discriminate.
  assert (Hoff : offset hello_blank_stream <> []) by discriminate.
  assert (Hpending : ~ blank (current_sub_line pending_hello))
    by discriminate.
  assert (Hidx : (script_line_idx pending_hello
                  < List.length ["Hello,"; "world."; "Bye."])%nat)
    by (simpl; lia).
  destruct (create_subtitle_remaining_lines no_unescape
              ["Hello,"; "world."; "Bye."] hello_blank_stream pending_hello
              Hrun Hsubs Hoff) as (Hone & _ & _).
  split; [exact Hrun|]. split; [exact Hsubs|]. split; [exact Hoff|].
  split; [exact Hpending|]. split; [exact Hidx|].
  exact (Hone Hpending Hidx).
Defined.

End AlignFacts.

(** ** The scene loop of the composer *)

Module ComposerFacts.
Import VideoComposer Scenarios.

Local Open Scope Q_scope.

Section Loop.

Variable env : assets.
Variables target_w target_h : Z.

Lemma resize_keeps (c c' : clip) (d : Q) :
  duration c = Some d ->
  resize_clip_to_aspect c target_w target_h = Ok c' ->
  src c' = src c /\ cut c' = cut c /\ duration c' = Some d.
Proof.
  intros Hd. unfold resize_clip_to_aspect.
  destruct (size c) as [clip_w clip_h].
  destruct (div target_w target_h) as [target_ratio|]; cbn [rbind];
    [|discriminate].
  destruct (div clip_w clip_h) as [clip_ratio|]; cbn [rbind];
    [|discriminate].
  destruct (Qeq_bool clip_ratio target_ratio).
  - destruct (div (clip_h * target_w) clip_w); cbn [rbind]; [|discriminate].
    intros [= <-]. now rewrite Hd.
  - destruct (if Py.gtb clip_ratio target_ratio
              then div target_w clip_w else div target_h clip_h);
      cbn [rbind]; [|discriminate].
    intros [= <-]. now rewrite Hd.
Qed.

Lemma finish_clip_keeps (raw : option clip) (d : Q) (c : clip) :
  finish_clip target_w target_h raw d = Ok c ->
  duration c = Some d
  /\ forall r, raw = Some r -> src c = src r /\ cut c = cut r.
Proof.
  unfold finish_clip. intros Hc.
  apply (resize_keeps _ _ d) in Hc; [|reflexivity].
  destruct Hc as (Hsrc & Hcut & Hdur). split; [exact Hdur|].
  intros r ->. now split.
Qed.

(** What one iteration does to the state. *)
Lemma process_scene_step (st : cstate) (sc : scene) :
  match accepted sc with
  | None => process_scene env target_w target_h st sc = st
  | Some (number, vtype, d) =>
      exists c,
        video_clips (process_scene env target_w target_h st sc)
        = video_clips st ++ [c]
        /\ duration c = Some d
        /\ current_video_duration (process_scene env target_w target_h st sc)
           = current_video_duration st + d
        /\ processing_log (process_scene env target_w target_h st sc)
           = processing_log st ++ [number]
  end.
Proof.
  unfold accepted, process_scene.
  destruct (truthy_int (scene_number sc) && truthy_str (visual_type sc)
            && truthy_num (duration_seconds sc)); cbn [negb]; [|reflexivity].
  destruct (scene_number sc) as [number|]; [|reflexivity].
  destruct (visual_type sc) as [vtype|]; [|reflexivity].
  destruct (duration_seconds sc) as [d|]; [|reflexivity].
  destruct (load_media env st number vtype d) as [[ai_index drawn] loaded].
  destruct loaded as [raw|e]; cbn [rbind].
  - destruct (finish_clip target_w target_h raw d) as [c|e] eqn:Hfin.
    + exists c. simpl. apply finish_clip_keeps in Hfin.
      destruct Hfin as [Hdur _]. now repeat split.
    + eexists. simpl. now repeat split.
  - eexists. simpl. now repeat split.
Qed.

(** The whole loop, from any state: one clip per accepted scene, in the
    order of the list. *)
Lemma process_scenes_from : forall (scenes : list scene) (st : cstate),
  let st' := List.fold_left (process_scene env target_w target_h) scenes st in
  let acc := omap accepted scenes in
  exists clips,
    video_clips st' = video_clips st ++ clips
    /\ List.map duration clips = List.map (fun a => Some (snd a)) acc
    /\ processing_log st'
       = processing_log st ++ List.map (fun a => fst (fst a)) acc
    /\ current_video_duration st'
       == current_video_duration st
          + sum_durations (List.map snd acc).
Proof.
  induction scenes as [|sc scenes IH]; intros st; cbv zeta.
  - exists []. simpl. rewrite !List.app_nil_r.
    split; [reflexivity|]. split; [reflexivity|]. split; [reflexivity|].
    unfold sum_durations. simpl. ring.
  - cbn [List.fold_left omap list_omap].
    pose proof (process_scene_step st sc) as Hstep.
    destruct (IH (process_scene env target_w target_h st sc))
      as (clips & Hclips & Hdur & Hlog & Hsum).
    destruct (accepted sc) as [[[number vtype] d]|].
    + destruct Hstep as (c & Hc & Hcd & Hcvd & Hclog).
      exists (c :: clips).
      split; [now rewrite Hclips, Hc, <- List.app_assoc|].
      split; [cbn [List.map snd]; now rewrite Hcd, Hdur|].
      split; [now rewrite Hlog, Hclog, <- List.app_assoc|].
      rewrite Hsum, Hcvd. cbn [List.map snd].
      unfold sum_durations. cbn [List.fold_right]. ring.
    + rewrite Hstep in *. exists clips.
      split; [exact Hclips|]. split; [exact Hdur|]. split; [exact Hlog|].
      exact Hsum.
Qed.

Lemma process_scenes_spec (scenes : list scene) :
  let st := process_scenes env target_w target_h scenes in
  let acc := omap accepted scenes in
  List.map duration (video_clips st) = List.map (fun a => Some (snd a)) acc
  /\ processing_log st = List.map (fun a => fst (fst a)) acc
  /\ current_video_duration st == sum_durations (List.map snd acc).
Proof.
  cbv zeta. unfold process_scenes.
  destruct (process_scenes_from scenes cstate0)
    as (clips & Hclips & Hdur & Hlog & Hsum).
  simpl in Hclips, Hlog, Hsum. rewrite Hclips, Hlog, Hsum.
  split; [exact Hdur|]. split; [reflexivity|]. ring.
Qed.

Lemma accepted_well_formed (sc : scene) :
  well_formed_scene sc ->
  exists number vtype d,
    accepted sc = Some (number, vtype, d)
    /\ scene_number sc = Some number /\ duration_seconds sc = Some d.
Proof.
  intros (number & vtype & d & Hn & Hn0 & Hv & Hv0 & Hd & Hd0).
  exists number, vtype, d. unfold accepted. rewrite Hn, Hv, Hd. simpl.
  assert (Hnz : (number =? 0)%Z = false) by now apply Z.eqb_neq.
  assert (Hvz : String.eqb vtype "" = false) by now apply String.eqb_neq.
  assert (Hdz : Qeq_bool d 0 = false).
  { destruct (Qeq_bool d 0) eqn:Heq; [|reflexivity].
    apply Qeq_bool_iff in Heq. rewrite Heq in Hd0.
    now apply Qlt_irrefl in Hd0. }
  rewrite Hnz, Hvz, Hdz. now repeat split.
Qed.

Lemma accepted_all (scenes : list scene) :
  Forall well_formed_scene scenes ->
  List.map (fun a => Some (snd a)) (omap accepted scenes)
  = List.map duration_seconds scenes
  /\ List.map snd (omap accepted scenes) = declared scenes
  /\ List.map (fun a => Some (fst (fst a))) (omap accepted scenes)
     = List.map scene_number scenes.
Proof.
  induction 1 as [|sc scenes Hsc _ IH]; [now repeat split|].
  destruct IH as (IH1 & IH2 & IH3).
  destruct (accepted_well_formed sc Hsc) as (n & v & d & Hacc & Hn & Hd).
  cbn [omap list_omap]. rewrite Hacc. unfold declared in *.
  cbn [List.map fst snd]. rewrite IH1, IH2, IH3, Hn, Hd.
  now repeat split.
Qed.

Lemma total_duration_sum (clips : list clip) (ds : list Q) :
  List.map duration clips = List.map Some ds ->
  total_duration clips = Some (sum_durations ds).
Proof.
  revert ds. induction clips as [|c clips IH]; intros [|d ds] H;
    try discriminate H; [reflexivity|].
  simpl in H. injection H as Hd Hrest.
  simpl. now rewrite Hd, (IH ds Hrest).
Qed.

End Loop.

(** *** The exception that leaves the loop *)

Section Escape.

Variable env : assets.
Variables target_w target_h : Z.
Variable text_clip : string -> result unit.

(** An iteration that returns leaves the variables [process_scene] gives. *)
Lemma run_scene_returns (st st' : cstate) (sc : scene) :
  run_scene env target_w target_h text_clip st sc = Ok st' ->
  st' = process_scene env target_w target_h st sc.
Proof.
  unfold run_scene, process_scene, error_clip.
  destruct (negb _); [now intros [= <-]|].
  destruct (scene_number sc) as [number|]; [|now intros [= <-]].
  destruct (visual_type sc) as [vtype|]; [|now intros [= <-]].
  destruct (duration_seconds sc) as [d|]; [|now intros [= <-]].
  destruct (load_media env st number vtype d) as [[ai_index drawn] loaded].
  destruct (rbind loaded _) as [c|e]; [now intros [= <-]|].
  destruct (text_clip (error_text number)) as [u|e']; cbn [rbind];
    [now intros [= <-] | discriminate].
Qed.

(** An exception leaves an iteration only from the [except] branch, as the
    exception of [TextClip]. *)
Lemma run_scene_raises (st : cstate) (sc : scene) (e : exn) :
  run_scene env target_w target_h text_clip st sc = Raise e ->
  media_fails env target_w target_h st sc
  /\ exists number vtype d,
       accepted sc = Some (number, vtype, d)
       /\ text_clip (error_text number) = Raise e.
Proof.
  unfold run_scene, media_fails, accepted, error_clip.
  destruct (truthy_int (scene_number sc) && truthy_str (visual_type sc)
            && truthy_num (duration_seconds sc)); cbn [negb];
    [|discriminate].
  destruct (scene_number sc) as [number|]; [|discriminate].
  destruct (visual_type sc) as [vtype|]; [|discriminate].
  destruct (duration_seconds sc) as [d|]; [|discriminate].
  destruct (load_media env st number vtype d) as [[ai_index drawn] loaded]
    eqn:Hload.
  destruct (rbind loaded _) as [c|e0] eqn:Hmedia; [discriminate|].
  destruct (text_clip (error_text number)) as [u|e'] eqn:Htext; cbn [rbind];
    [discriminate|].
  intros [= <-]. split.
  - exists number, vtype, d, e0. split; [reflexivity|].
    rewrite Hload. exact Hmedia.
  - now exists number, vtype, d.
Qed.

(** Where the media of the scene loads, the text is not asked for. *)
Lemma run_scene_loads (st : cstate) (sc : scene) :
  ~ media_fails env target_w target_h st sc ->
  run_scene env target_w target_h text_clip st sc
  = Ok (process_scene env target_w target_h st sc).
Proof.
  intros Hload.
  destruct (run_scene env target_w target_h text_clip st sc) as [st'|e]
    eqn:Hrun.
  - now rewrite (run_scene_returns st st' sc Hrun).
  - exfalso. apply Hload. now apply (run_scene_raises st sc e).
Qed.

Lemma run_scenes_returns : forall (scenes : list scene) (st st' : cstate),
  run_scenes env target_w target_h text_clip scenes st = Ok st' ->
  st' = List.fold_left (process_scene env target_w target_h) scenes st.
Proof.
  induction scenes as [|sc scenes IH]; intros st st' H; cbn in H.
  - now injection H as <-.
  - destruct (run_scene env target_w target_h text_clip st sc) as [st1|e]
      eqn:Hstep; cbn [rbind] in H; [|discriminate].
    rewrite (run_scene_returns st st1 sc Hstep) in H.
    exact (IH _ _ H).
Qed.

Lemma run_scenes_raises : forall (scenes : list scene) (st : cstate) e,
  run_scenes env target_w target_h text_clip scenes st = Raise e ->
  exists sc number vtype d,
    In sc scenes /\ accepted sc = Some (number, vtype, d)
    /\ text_clip (error_text number) = Raise e.
Proof.
  induction scenes as [|sc scenes IH]; intros st e H; cbn in H;
    [discriminate|].
  destruct (run_scene env target_w target_h text_clip st sc) as [st1|e1]
    eqn:Hstep; cbn [rbind] in H.
  - destruct (IH _ _ H) as (sc' & number & vtype & d & Hin & Hacc & Htext).
    exists sc', number, vtype, d. split; [now right | now split].
  - injection H as <-.
    destruct (run_scene_raises st sc e1 Hstep)
      as (_ & number & vtype & d & Hacc & Htext).
    exists sc, number, vtype, d. split; [now left | now split].
Qed.

Lemma run_scenes_draws (scenes : list scene) (st : cstate) :
  text_is_drawn text_clip ->
  run_scenes env target_w target_h text_clip scenes st
  = Ok (List.fold_left (process_scene env target_w target_h) scenes st).
Proof.
  intros Hdraws.
  destruct (run_scenes env target_w target_h text_clip scenes st)
    as [st'|e] eqn:Hrun.
  - now rewrite (run_scenes_returns scenes st st' Hrun).
  - destruct (run_scenes_raises scenes st e Hrun)
      as (sc & number & vtype & d & _ & _ & Hraise).
    destruct (Hdraws number) as [u Hu]. congruence.
Qed.

(** The function as a whole, in a run whose loop returns. *)
Lemma run_compose_returns (scenes : list scene) (st : cstate) :
  run_scenes env target_w target_h text_clip scenes cstate0 = Ok st ->
  run_compose_final_video env target_w target_h text_clip scenes
  = Ok (compose_final_video env target_w target_h scenes).
Proof.
  intros Hrun. unfold run_compose_final_video, compose_final_video.
  destruct scenes as [|sc scenes']; [reflexivity|].
  destruct (audio_duration env); [|reflexivity].
  rewrite Hrun. cbn [rbind].
  rewrite (run_scenes_returns _ _ _ Hrun).
  fold (process_scenes env target_w target_h (sc :: scenes')).
  destruct (video_clips _); [reflexivity|].
  now destruct (total_duration _).
Qed.

End Escape.

(** C1, amended.  For every scene list in which every scene has a non-zero
    [scene_number], a non-empty [visual_type] and [duration_seconds > 0],
    and as long as the text of the error clip can be drawn, the scene loop
    of [compose_final_video] returns and adds exactly one clip per scene,
    whatever the assets: the clip of the media, a placeholder or an error
    placeholder, each of exactly the scene's declared duration.  The
    durations of the clips add up to the sum of the declared durations, and
    when the list is not empty and the voice-over audio loads, that sum is
    the duration of the concatenated timeline the function goes on to
    write. *)
Theorem compose_one_clip_per_scene env target_w target_h text_clip scenes :
  Forall well_formed_scene scenes ->
  text_is_drawn text_clip ->
  exists st,
    run_scenes env target_w target_h text_clip scenes cstate0 = Ok st
    /\ List.length (video_clips st) = List.length scenes
    /\ List.map duration (video_clips st) = List.map duration_seconds scenes
    /\ total_duration (video_clips st) = Some (sum_durations (declared scenes))
    /\ current_video_duration st == sum_durations (declared scenes)
    /\ (scenes <> [] ->
        forall a, audio_duration env = Ok a ->
        exists tl,
          run_compose_final_video env target_w target_h text_clip scenes
          = Ok (Some tl)
          /\ track tl = video_clips st
          /\ final_duration tl = sum_durations (declared scenes)).
Proof.
  intros Hwf Hdraws.
  exists (process_scenes env target_w target_h scenes).
  assert (Hrun : run_scenes env target_w target_h text_clip scenes cstate0
                 = Ok (process_scenes env target_w target_h scenes)).
  { now apply run_scenes_draws. }
  destruct (process_scenes_spec env target_w target_h scenes)
    as (Hdur & _ & Hsum).
  destruct (accepted_all scenes Hwf) as (Hacc1 & Hacc2 & _).
  rewrite Hacc1 in Hdur. rewrite Hacc2 in Hsum.
  assert (Hlen : List.length
                   (video_clips (process_scenes env target_w target_h scenes))
                 = List.length scenes).
  { now rewrite <- (List.length_map duration), Hdur, List.length_map. }
  assert (Htot : total_duration
                   (video_clips (process_scenes env target_w target_h scenes))
                 = Some (sum_durations (declared scenes))).
  { apply total_duration_sum. rewrite Hdur, <- Hacc1, <- Hacc2.
    now rewrite List.map_map. }
  split; [exact Hrun|]. split; [exact Hlen|]. split; [exact Hdur|].
  split; [exact Htot|]. split; [exact Hsum|].
  intros Hne a Ha.
  rewrite (run_compose_returns env target_w target_h text_clip scenes _ Hrun).
  unfold compose_final_video. rewrite Ha.
  destruct scenes as [|sc scenes']; [congruence|].
  destruct (video_clips (process_scenes env target_w target_h (sc :: scenes')))
    as [|c clips] eqn:Hclips; [discriminate Hlen|].
  rewrite Htot. eexists. now repeat split.
Qed.

(** C1 as stated fails.  A scene numbered 0 has a number, a type and a
    positive duration, yet the guard takes 0 for missing and skips it: no
    clip is made and the function gives up.  When the voice-over audio does
    not load, no scene is processed at all.  And when an image does not
    open and the text of the error clip cannot be drawn, the exception of
    [TextClip] leaves the loop and the function. *)
Lemma compose_skips_scene_number_zero :
  (exists number vtype d,
     scene_number scene_zero = Some number
     /\ visual_type scene_zero = Some vtype
     /\ duration_seconds scene_zero = Some d /\ 0 < d)
  /\ run_scenes bare_assets 1080 1920 imagemagick [scene_zero] cstate0
     = Ok cstate0
  /\ run_compose_final_video bare_assets 1080 1920 imagemagick [scene_zero]
     = Ok None
  /\ well_formed_scene scene_one
  /\ run_compose_final_video silent_assets 1080 1920 imagemagick [scene_one]
     = Ok None
  /\ Forall well_formed_scene two_image_scenes
  /\ run_scenes unreadable_assets 1080 1920 no_imagemagick two_image_scenes
       cstate0
     = Raise (OSError "convert")
  /\ run_compose_final_video unreadable_assets 1080 1920 no_imagemagick
       two_image_scenes
     = Raise (OSError "convert").
Proof.
  split.
  { exists 0%Z, "hook", 3. now repeat split. }
  split; [reflexivity|]. split; [reflexivity|].
  split.
  { exists 1%Z, "hook", 3. repeat split; try reflexivity; discriminate. }
  split; [reflexivity|].
  split.
  { constructor; [|constructor; [|constructor]].
    - exists 3%Z, "ai_image", 5. repeat split; try reflexivity; discriminate.
    - exists 5%Z, "ai_image", 4. repeat split; try reflexivity; discriminate. }
  split; reflexivity.
Qed.

Lemma compose_one_clip_per_scene_witness :
  Forall well_formed_scene [scene_one]
  /\ text_is_drawn imagemagick
  /\ exists st,
      run_scenes bare_assets 1080 1920 imagemagick [scene_one] cstate0 = Ok st
      /\ List.length (video_clips st) = List.length [scene_one]
      /\ total_duration (video_clips st)
         = Some (sum_durations (declared [scene_one])).
Proof.
  assert (Hwf : Forall well_formed_scene [scene_one]).
  { constructor; [|constructor].
    exists 1%Z, "hook", 3. repeat split; try reflexivity; discriminate. }
  assert (Hdraws : text_is_drawn imagemagick).
  { intros number. now exists tt. }
  destruct (compose_one_clip_per_scene bare_assets 1080 1920 imagemagick
              [scene_one] Hwf Hdraws)
    as (st & Hrun & Hlen & _ & Htot & _).
  split; [exact Hwf|]. split; [exact Hdraws|].
  exists st. split; [exact Hrun|]. split; [exact Hlen | exact Htot].
Defined.

(** C6, amended.  [compose_final_video] processes the scenes and
    concatenates their clips in the order in which the scenes stand in the
    list, without sorting: the scene numbers logged as processed, and the
    durations of the clips of the track, are those of the accepted scenes in
    list order, and the clips made for a prefix of the list stay in front.
    The order is ascending in [scene_number] when the list is. *)
Theorem compose_keeps_list_order env target_w target_h scenes :
  let st := process_scenes env target_w target_h scenes in
  let acc := omap accepted scenes in
  processing_log st = List.map (fun a => fst (fst a)) acc
  /\ List.map duration (video_clips st) = List.map (fun a => Some (snd a)) acc
  /\ (forall before after,
        scenes = before ++ after ->
        exists later,
          video_clips st
          = video_clips (process_scenes env target_w target_h before)
              ++ later)
  /\ (forall tl,
        compose_final_video env target_w target_h scenes = Some tl ->
        track tl = video_clips st)
  /\ (Sorted Z.lt (List.map (fun a => fst (fst a)) acc) ->
      Sorted Z.lt (processing_log st)).
Proof.
  cbv zeta.
  destruct (process_scenes_spec env target_w target_h scenes)
    as (Hdur & Hlog & _).
  split; [exact Hlog|]. split; [exact Hdur|]. split; [|split].
  - intros before after ->. unfold process_scenes.
    rewrite List.fold_left_app.
    destruct (process_scenes_from env target_w target_h after
                (List.fold_left (process_scene env target_w target_h)
                                before cstate0))
      as (later & Hlater & _).
    now exists later.
  - intros tl. unfold compose_final_video.
    destruct scenes as [|sc scenes']; [discriminate|].
    destruct (audio_duration env); [|discriminate].
    destruct (video_clips (process_scenes env target_w target_h
                                          (sc :: scenes'))) as [|c clips];
      [discriminate|].
    destruct (total_duration (c :: clips)); [|discriminate].
    now intros [= <-].
  - now rewrite Hlog.
Qed.

(** C6 as stated fails: scenes listed as 2, 1 are processed as 2, 1, and the
    three-second clip of scene 2 precedes the five-second clip of scene 1
    in the track. *)
Lemma compose_does_not_sort_scenes :
  processing_log (process_scenes bare_assets 1080 1920 scenes_two_then_one)
  = [2%Z; 1%Z]
  /\ ~ Sorted Z.le [2%Z; 1%Z]
  /\ (exists tl,
        compose_final_video bare_assets 1080 1920 scenes_two_then_one
        = Some tl
        /\ List.map duration (track tl) = [Some 3; Some 5]).
Proof.
  split; [reflexivity|]. split.
  - intros H. inversion H as [|? ? _ Hhd]; subst.
    inversion Hhd as [|? ? Hle]; subst. lia.
  - eexists. split; reflexivity.
Qed.

Lemma compose_keeps_list_order_witness :
  Sorted Z.lt (List.map (fun a => fst (fst a))
                        (omap accepted scenes_one_then_two))
  /\ Sorted Z.lt (processing_log
                    (process_scenes bare_assets 1080 1920
                                    scenes_one_then_two)).
Proof.
  assert (Hs : Sorted Z.lt (List.map (fun a => fst (fst a))
                                     (omap accepted scenes_one_then_two))).
  { repeat constructor. }
  destruct (compose_keeps_list_order bare_assets 1080 1920
              scenes_one_then_two) as (_ & _ & _ & _ & Hsorted).
  split; [exact Hs | exact (Hsorted Hs)].
Defined.

(** *** Trimming and looping *)









(** *** The pool of generated images *)

(** C5, at ten generated images.  The pool is sorted as strings, which puts
    [10.jpeg] right after [1.jpeg]; the second [ai_image] scene is given
    [10.jpeg], where the numeric order of the file names has [2.jpeg].  With
    no image at all the scene gets a black placeholder of its duration. *)
Theorem second_image_scene_gets_tenth_image :
  sorted (glob_jpeg ten_images)
  = ["1.jpeg"; "10.jpeg"; "2.jpeg"; "3.jpeg"; "4.jpeg"; "5.jpeg"; "6.jpeg";
     "7.jpeg"; "8.jpeg"; "9.jpeg"]
  /\ sorted_numeric (glob_jpeg ten_images) = ten_images
  /\ List.map src
       (video_clips (process_scenes image_assets 1080 1920 two_image_scenes))
     = [ImageClip "1.jpeg"; ImageClip "10.jpeg"]
  /\ List.nth 1 (sorted_numeric (glob_jpeg ten_images)) "" = "2.jpeg"
  /\ video_clips (process_scenes bare_assets 1080 1920 two_image_scenes)
     = [Clip (ColorClip DEFAULT_BG_COLOR) Natural (1080, 1920)%Z (Some 5);
        Clip (ColorClip DEFAULT_BG_COLOR) Natural (1080, 1920)%Z (Some 4)].
Proof. repeat split; reflexivity. Qed.

End ComposerFacts.

(** ** Caption grouping: where blocks break *)

Module BlockFacts.
Import CaptionOverlay Runs Scenarios.

Local Open Scope Q_scope.

Lemma Forall_removelast {A} (P : A -> Prop) (l : list A) :
  Forall P l -> Forall P (List.removelast l).
Proof.
  induction l as [|x l IH]; intros H; [exact H|].
  apply List.Forall_cons_iff in H. destruct H as [Hx Hl].
  destruct l as [|y l]; [apply List.Forall_nil|].
  change (Forall P (x :: List.removelast (y :: l))).
  apply List.Forall_cons; [exact Hx | now apply IH].
Qed.

Lemma interior_snoc {A} (x : A) (r : list A) (y : A) :
  interior (x :: r ++ [y]) = r.
Proof. unfold interior. simpl. apply List.removelast_last. Qed.

Lemma gtb_false (x y : Q) : Py.gtb x y = false -> x <= y.
Proof.
  unfold Py.gtb. intros H. apply negb_false_iff in H.
  now apply Qle_bool_iff.
Qed.

(** A word that is not the last one keeps the loop variables tidy. *)
Lemma step_tidy mw md n i st word_text word_start word_end :
  tidy md st ->
  (i =? n - 1)%nat = false ->
  tidy md (step mw md n i st word_text word_start word_end).
Proof.
  intros [Hgr Hop Hsp] Hlast. unfold step.
  destruct (current_group_words st) as [|w0 r] eqn:Hcgw.
  - (* no group open: the word opens one *)
    simpl. constructor; simpl.
    + exact Hgr.
    + apply List.Forall_nil.
    + intros _. exists word_start, word_end.
      split; [reflexivity|]. split; [reflexivity|]. intros H. lia.
  - destruct (Hsp ltac:(discriminate)) as (s & e & Hs & He & Hspan).
    rewrite Hs, Hlast. cbn [is_nil negb andb].
    set (ewl := (mw <=? _)%Z).
    destruct (Py.gtb (word_end - s) md) eqn:Hed.
    + (* too long: the group closes before the word *)
      rewrite orb_true_r. cbn [negb orb andb].
      constructor; simpl.
      * apply Forall_app. split; [exact Hgr|].
        apply List.Forall_cons; [|apply List.Forall_nil]. split.
        -- simpl. unfold interior. now apply Forall_removelast.
        -- intros H2. exists e. split; [exact He|]. now apply Hspan.
      * apply List.Forall_nil.
      * intros _. exists word_start, word_end.
        split; [reflexivity|]. split; [reflexivity|]. intros H. lia.
    + apply gtb_false in Hed. rewrite orb_false_r.
      destruct ewl eqn:Hewl.
      * (* too many words: the same *)
        cbn [negb orb andb].
        constructor; simpl.
        -- apply Forall_app. split; [exact Hgr|].
           apply List.Forall_cons; [|apply List.Forall_nil]. split.
           ++ simpl. unfold interior. now apply Forall_removelast.
           ++ intros H2. exists e. split; [exact He|]. now apply Hspan.
        -- apply List.Forall_nil.
        -- intros _. exists word_start, word_end.
           split; [reflexivity|]. split; [reflexivity|]. intros H. lia.
      * destruct (existsb (Py.endswith word_text) punctuation) eqn:Hewp.
        -- (* a mark: the group closes with the word *)
           cbn [negb orb andb].
           constructor; simpl.
           ++ apply Forall_app. split; [exact Hgr|].
              apply List.Forall_cons; [|apply List.Forall_nil]. split.
              ** simpl. rewrite interior_snoc. exact Hop.
              ** intros _. exists word_end. split; [reflexivity | exact Hed].
           ++ apply List.Forall_nil.
           ++ intros H. congruence.
        -- (* the word joins the group *)
           cbn [negb orb andb].
           constructor; simpl.
           ++ exact Hgr.
           ++ apply Forall_app. split; [exact Hop|].
              apply List.Forall_cons; [exact Hewp | apply List.Forall_nil].
           ++ intros _. exists s, word_end.
              split; [reflexivity|]. split; [reflexivity|]. intros _.
              exact Hed.
Qed.

(** The last word closes the list. *)
Lemma step_last_tidy mw md n i st word_text word_start word_end :
  tidy md st ->
  (i =? n - 1)%nat = true ->
  tidy_blocks md (flush (step mw md n i st word_text word_start word_end)).
Proof.
  intros [Hgr Hop Hsp] Hlast. unfold step.
  assert (Hleft : Forall (fun g => Forall plain (interior (g_words g)))
                         (grouped_captions st)).
  { eapply List.Forall_impl; [|exact Hgr]. now intros g [H _]. }
  assert (Hright : Forall (within md) (grouped_captions st)).
  { eapply List.Forall_impl; [|exact Hgr]. now intros g [_ H]. }
  destruct (current_group_words st) as [|w0 r] eqn:Hcgw.
  - simpl. unfold flush. simpl. split.
    + apply Forall_app. split; [exact Hleft|].
      apply List.Forall_cons; [apply List.Forall_nil | apply List.Forall_nil].
    + now rewrite List.removelast_last.
  - destruct (Hsp ltac:(discriminate)) as (s & e & Hs & He & Hspan).
    rewrite Hs, Hlast. cbn [is_nil negb andb].
    rewrite !orb_true_r. cbn [negb orb andb].
    unfold flush. simpl. split.
    + apply Forall_app. split; [exact Hleft|].
      apply List.Forall_cons; [|apply List.Forall_nil].
      simpl. rewrite interior_snoc. exact Hop.
    + now rewrite List.removelast_last.
Qed.

Lemma loop_tidy mw md n : forall ws i st st',
  ws <> [] ->
  n = (i + List.length ws)%nat ->
  tidy md st ->
  loop mw md n i ws st = Ok st' ->
  tidy_blocks md (flush st').
Proof.
  induction ws as [|w rest IH]; intros i st st' Hne Hn Hst Hloop;
    [congruence|].
  simpl in Hloop.
  destruct (wi_text w) as [t|]; [|discriminate].
  destruct (wi_start w) as [s|]; [|discriminate].
  destruct (wi_end w) as [e|]; [|discriminate].
  cbn [getitem rbind] in Hloop.
  destruct rest as [|w' rest'].
  - simpl in Hloop. injection Hloop as <-.
    apply step_last_tidy; [exact Hst|].
    apply Nat.eqb_eq. simpl in Hn. lia.
  - apply (IH (S i) (step mw md n i st t s e) st');
      [discriminate | simpl in *; lia | | exact Hloop].
    apply step_tidy; [exact Hst|].
    apply Nat.eqb_neq. simpl in Hn. lia.
Qed.

Lemma group_runs_tidy mw md (ws : list word_info) (gs : list group) :
  group_runs mw md ws = Ok gs -> tidy_blocks md gs.
Proof.
  unfold group_runs. destruct ws as [|w0 rest].
  - intros H. injection H as <-. split; apply List.Forall_nil.
  - destruct (wi_start w0) as [s0|]; [|discriminate].
    destruct (wi_end w0) as [e0|]; [|discriminate].
    cbn [getitem rbind].
    destruct (loop mw md _ 0 (w0 :: rest) _) as [st|] eqn:Hloop;
      [|discriminate].
    cbn [rbind]. intros H. injection H as <-.
    eapply loop_tidy; [ | | | exact Hloop].
    + discriminate.
    + reflexivity.
    + constructor; simpl.
      * apply List.Forall_nil.
      * apply List.Forall_nil.
      * congruence.
Qed.

(** X1.  Whenever [group_words_into_captions] returns, for any word list and
    any limits, a word ending with one of [. , ! ? ; :] is the first or the
    last word of its block: no block has such a word strictly inside. *)
Theorem group_words_break_at_punctuation mw md (ws : list word_info) gs :
  group_runs mw md ws = Ok gs ->
  group_words_into_captions mw md ws = Ok (List.map caption_of_group gs)
  /\ Forall (fun g => Forall plain (interior (g_words g))) gs.
Proof.
  intros H. split.
  - unfold group_words_into_captions. now rewrite H.
  - now apply (group_runs_tidy mw md ws gs).
Qed.

Lemma group_words_break_at_punctuation_witness :
  group_runs 3 10 (List.map to_dict marked_words)
  = Ok [Group 0 (Some 2) ["Oui,"; "non."]; Group 2 (Some 4) ["Et"; "toi?"]]
  /\ Forall (fun g => Forall plain (interior (g_words g)))
            [Group 0 (Some 2) ["Oui,"; "non."];
             Group 2 (Some 4) ["Et"; "toi?"]].
Proof.
  split; [reflexivity|].
  apply (group_words_break_at_punctuation 3 10
           (List.map to_dict marked_words)).
  reflexivity.
Defined.

End BlockFacts.

(** ** From the captions file to the text clips *)

Module OverlayFacts.
Import CaptionOverlay Runs Scenarios GroupingFacts.

Local Open Scope Q_scope.

Lemma check_word_ok (w : json_word) (w' : word_info) :
  check_word w = Ok w' -> valid_word w /\ has_keys w'.
Proof.
  unfold check_word, valid_word, has_keys.
  destruct (jw_start w) as [s|]; [|discriminate].
  destruct (jw_end w) as [e|]; [|discriminate].
  destruct (jw_text w) as [t|]; [|discriminate].
  simpl.
  destruct (number_of s) as [qs|]; [|discriminate].
  destruct (number_of e) as [qe|]; [|discriminate].
  intros H. injection H as <-. simpl. repeat split; eexists; reflexivity.
Qed.

Lemma check_word_invalid (w : json_word) :
  ~ valid_word w -> check_word w = Raise ValueError.
Proof.
  unfold check_word, valid_word. intros H.
  destruct (jw_start w) as [s|]; [|reflexivity].
  destruct (jw_end w) as [e|]; [|reflexivity].
  destruct (jw_text w) as [t|]; [|reflexivity].
  simpl in *.
  destruct (number_of s) as [qs|]; [|reflexivity].
  destruct (number_of e) as [qe|]; [|reflexivity].
  exfalso. apply H. repeat split; eexists; reflexivity.
Qed.

Lemma check_word_valid (w : json_word) :
  valid_word w -> exists w', check_word w = Ok w'.
Proof.
  unfold check_word, valid_word. intros (Ht & Hs & He).
  destruct (jw_start w) as [s|]; [|now destruct Hs].
  destruct (jw_end w) as [e|]; [|now destruct He].
  destruct (jw_text w) as [t|]; [|now destruct Ht].
  simpl in *.
  destruct (number_of s) as [qs|]; [|now destruct Hs].
  destruct (number_of e) as [qe|]; [|now destruct He].
  eexists. reflexivity.
Qed.

Lemma check_words_ok : forall (data : list json_word) (ws : list word_info),
  check_words data = Ok ws ->
  Forall valid_word data /\ Forall has_keys ws
  /\ List.length ws = List.length data.
Proof.
  induction data as [|w rest IH]; intros ws H; simpl in H.
  - injection H as <-. repeat split; apply List.Forall_nil.
  - destruct (check_word w) as [w'|] eqn:Hw; [|discriminate].
    destruct (check_words rest) as [rest'|] eqn:Hrest; [|discriminate].
    cbn [rbind] in H. injection H as <-.
    apply check_word_ok in Hw. destruct Hw as [Hv Hk].
    destruct (IH rest' eq_refl) as (Hvs & Hks & Hlen).
    split; [now apply List.Forall_cons|].
    split; [now apply List.Forall_cons|]. simpl. now rewrite Hlen.
Qed.

Lemma check_words_valid : forall (data : list json_word),
  Forall valid_word data -> exists ws, check_words data = Ok ws.
Proof.
  induction data as [|w rest IH]; intros H; simpl.
  - now exists [].
  - apply List.Forall_cons_iff in H. destruct H as [Hw Hrest].
    destruct (check_word_valid w Hw) as [w' ->].
    destruct (IH Hrest) as [rest' ->]. cbn [rbind]. eexists. reflexivity.
Qed.

Lemma check_words_invalid : forall (data : list json_word),
  Exists (fun w => ~ valid_word w) data ->
  check_words data = Raise ValueError.
Proof.
  induction data as [|w rest IH]; intros H; simpl.
  - now apply List.Exists_nil in H.
  - apply List.Exists_cons in H.
    destruct (check_word w) as [w'|e] eqn:Hw.
    + cbn [rbind]. destruct H as [H | H].
      * apply check_word_ok in Hw. now destruct Hw.
      * now rewrite (IH H).
    + cbn [rbind].
      unfold check_word in Hw.
      destruct (jw_start w) as [s|], (jw_end w) as [e'|],
               (jw_text w) as [t|];
        try (injection Hw as <-; reflexivity).
      destruct (number_of s), (number_of e');
        try discriminate; injection Hw as <-; reflexivity.
Qed.

Lemma check_words_to_json (ws : list TimedWord) :
  check_words (List.map to_json ws) = Ok (List.map to_dict ws).
Proof.
  induction ws as [|w rest IH]; [reflexivity|].
  simpl. rewrite IH. reflexivity.
Qed.

(** X4.  [load_captions] returns the words when each has the three keys
    with numbers under ["start"] and ["end"]; with one word that has not, it
    raises [ValueError], and [add_captions_to_video] then copies the video
    unchanged and raises. *)
Theorem load_captions_checks_every_word (data : list json_word) :
  (Forall valid_word data ->
   exists ws,
     load_captions (JList data) = Ok ws
     /\ Forall has_keys ws /\ List.length ws = List.length data)
  /\ (Exists (fun w => ~ valid_word w) data ->
      load_captions (JList data) = Raise ValueError
      /\ add_captions_to_video (JList data) = CopiedThenRaised).
Proof.
  split.
  - intros Hv. destruct (check_words_valid data Hv) as [ws Hws].
    exists ws. split; [exact Hws|].
    now apply (check_words_ok data ws) in Hws.
  - intros Hx. apply check_words_invalid in Hx.
    unfold add_captions_to_video. simpl. rewrite Hx. now split.
Qed.

Lemma load_captions_checks_every_word_witness :
  Forall valid_word (List.map to_json bonjour)
  /\ (exists ws,
        load_captions (JList (List.map to_json bonjour)) = Ok ws
        /\ Forall has_keys ws
        /\ List.length ws = List.length (List.map to_json bonjour))
  /\ Exists (fun w => ~ valid_word w) [word_without_number]
  /\ load_captions (JList [word_without_number]) = Raise ValueError
  /\ add_captions_to_video (JList [word_without_number]) = CopiedThenRaised.
Proof.
  assert (Hv : Forall valid_word (List.map to_json bonjour)).
  { repeat (apply List.Forall_cons || apply List.Forall_nil);
      (split; [|split]); eexists; reflexivity. }
  assert (Hx : Exists (fun w => ~ valid_word w) [word_without_number]).
  { apply List.Exists_cons_hd. intros (_ & _ & He). now destruct He. }
  split; [exact Hv|].
  split;
    [exact (proj1 (load_captions_checks_every_word
                     (List.map to_json bonjour)) Hv)|].
  split; [exact Hx|].
  exact (proj2 (load_captions_checks_every_word [word_without_number]) Hx).
Defined.

Lemma seg_spans_strict (segs : list seg) :
  StronglySorted Qle (List.map start (flatten segs)) ->
  Forall (fun w => start w < end_ w) (flatten segs) ->
  Forall (fun s => start (fst s) < end_ (seg_last s)) segs.
Proof.
  induction segs as [|s segs IH]; intros Hs Hwf; [apply List.Forall_nil|].
  rewrite flatten_cons in Hs, Hwf. rewrite List.map_app in Hs.
  apply ss_app_inv in Hs. destruct Hs as (Hs1 & Hs2 & _).
  apply List.Forall_app in Hwf. destruct Hwf as [Hwf1 Hwf2].
  constructor; [|now apply IH].
  assert (Hlast : start (seg_last s) < end_ (seg_last s)).
  { eapply List.Forall_forall in Hwf1; [exact Hwf1 | apply seg_last_in]. }
  apply Qle_lt_trans with (start (seg_last s)); [|exact Hlast].
  unfold seg_last.
  destruct (last_default_or_in (snd s) (fst s)) as [[_ ->] | Hin].
  - apply Qle_refl.
  - unfold seg_words in Hs1. simpl in Hs1.
    apply StronglySorted_inv in Hs1. destruct Hs1 as [_ Hall].
    eapply List.Forall_forall in Hall; [exact Hall|].
    now apply List.in_map.
Qed.

Lemma caption_clips_segments (segs : list seg) :
  Forall (fun s => start (fst s) < end_ (seg_last s)) segs ->
  caption_clips (List.map caption_of_group (List.map group_of_seg segs))
  = Some (List.map clip_of_seg segs).
Proof.
  induction segs as [|s segs IH]; intros H; [reflexivity|].
  apply List.Forall_cons_iff in H. destruct H as [Hs Hrest].
  simpl. rewrite (IH Hrest).
  destruct (Qle_bool (end_ (seg_last s) - start (fst s)) 0) eqn:Hd.
  - apply Qle_bool_iff in Hd. lra.
  - reflexivity.
Qed.

Lemma clips_of_segments (segs : list seg) :
  List.map tc_text (List.map clip_of_seg segs)
  = List.map c_text
      (List.map caption_of_group (List.map group_of_seg segs))
  /\ List.map tc_start (List.map clip_of_seg segs)
     = List.map c_start
         (List.map caption_of_group (List.map group_of_seg segs))
  /\ Forall2 (fun c b =>
                exists e, c_end b = Some e
                          /\ tc_start c + tc_duration c == e)
             (List.map clip_of_seg segs)
             (List.map caption_of_group (List.map group_of_seg segs)).
Proof.
  split; [now rewrite !List.map_map|].
  split; [now rewrite !List.map_map|].
  induction segs as [|s segs IH]; [constructor|].
  simpl. constructor; [|exact IH].
  exists (end_ (seg_last s)). split; [reflexivity|]. simpl. ring.
Qed.

(** X5.  For a captions file whose words are sorted by start and each end
    after they start, [add_captions_to_video] composites one text clip per
    block of [group_words_into_captions], in order, with the block's text,
    starting at the block's start and lasting until the block's end; read
    one after the other the clips show every word of the file. *)
Theorem overlay_shows_every_block (ws : list TimedWord) :
  ws <> [] ->
  Sorted Qle (List.map start ws) ->
  Forall (fun w => start w < end_ w) ws ->
  exists blocks clips,
    group_words_into_captions 4 4 (List.map to_dict ws) = Ok blocks
    /\ add_captions_to_video (JList (List.map to_json ws)) = Composited clips
    /\ List.map tc_text clips = List.map c_text blocks
    /\ List.map tc_start clips = List.map c_start blocks
    /\ Forall2 (fun c b =>
                  exists e, c_end b = Some e
                            /\ tc_start c + tc_duration c == e)
               clips blocks
    /\ Forall (fun c => 0 < tc_duration c) clips
    /\ Py.join " " (List.map tc_text clips)
       = Py.join " " (List.map text ws).
Proof.
  intros Hne Hsorted Hpos.
  destruct (group_runs_segments 4 4 ws Hne) as (init & s & Hflat & Hruns & _).
  set (segs := init ++ [s]) in *.
  assert (Hspans : Forall (fun s => start (fst s) < end_ (seg_last s)) segs).
  { apply seg_spans_strict; rewrite <- Hflat; [|exact Hpos].
    now apply sorted_strongly. }
  pose proof (captions_of_runs 4 4 _ _ Hruns) as Hblocks.
  destruct (clips_of_segments segs) as (Htexts & Hstarts & Hends).
  exists (List.map caption_of_group (List.map group_of_seg segs)),
         (List.map clip_of_seg segs).
  split; [exact Hblocks|].
  split.
  { unfold add_captions_to_video, load_captions.
    rewrite check_words_to_json.
    destruct ws as [|w0 rest]; [congruence|].
    cbn [List.map is_nil].
    change (to_dict w0 :: List.map to_dict rest)
      with (List.map to_dict (w0 :: rest)).
    rewrite Hblocks, (caption_clips_segments segs Hspans).
    subst segs. destruct init; reflexivity. }
  split; [exact Htexts|]. split; [exact Hstarts|]. split; [exact Hends|].
  split.
  { apply List.Forall_forall. intros c Hc.
    apply List.in_map_iff in Hc. destruct Hc as (s' & <- & Hs').
    eapply List.Forall_forall in Hspans; [|exact Hs']. simpl. lra. }
  rewrite Htexts, text_of_segments. now rewrite <- Hflat.
Qed.

Lemma overlay_shows_every_block_witness :
  bonjour <> []
  /\ Sorted Qle (List.map start bonjour)
  /\ Forall (fun w => start w < end_ w) bonjour
  /\ exists blocks clips,
      group_words_into_captions 4 4 (List.map to_dict bonjour) = Ok blocks
      /\ add_captions_to_video (JList (List.map to_json bonjour))
         = Composited clips
      /\ List.map tc_text clips = List.map c_text blocks
      /\ List.map tc_start clips = List.map c_start blocks
      /\ Forall2 (fun c b =>
                    exists e, c_end b = Some e
                              /\ tc_start c + tc_duration c == e)
                 clips blocks
      /\ Forall (fun c => 0 < tc_duration c) clips
      /\ Py.join " " (List.map tc_text clips)
         = Py.join " " (List.map text bonjour).
Proof.
  assert (Hne : bonjour <> []) by discriminate.
  assert (Hs : Sorted Qle (List.map start bonjour)).
  { repeat constructor; unfold Qle; simpl; lia. }
  assert (Hp : Forall (fun w => start w < end_ w) bonjour).
  { repeat constructor; unfold Qlt; simpl; lia. }
  split; [exact Hne|]. split; [exact Hs|]. split; [exact Hp|].
  exact (overlay_shows_every_block bonjour Hne Hs Hp).
Defined.

Lemma caption_clips_sound : forall (cs : list caption) clips,
  caption_clips cs = Some clips ->
  Forall (fun c => 0 < tc_duration c) clips
  /\ sublist (List.map tc_text clips) (List.map c_text cs).
Proof.
  induction cs as [|c cs IH]; intros clips H; simpl in H.
  - injection H as <-. split; [apply List.Forall_nil | constructor].
  - destruct (c_end c) as [e|]; [|discriminate].
    destruct (Qle_bool (e - c_start c) 0) eqn:Hd.
    + destruct (IH clips H) as [Hpos Hsub].
      split; [exact Hpos|]. simpl. now apply sublist_cons.
    + destruct (caption_clips cs) as [rest|]; [|discriminate].
      simpl in H. injection H as <-.
      destruct (IH rest eq_refl) as [Hpos Hsub]. split.
      * apply List.Forall_cons; [|exact Hpos]. simpl.
        destruct (Qlt_le_dec 0 (e - c_start c)) as [Hlt | Hle];
          [exact Hlt|].
        apply Qle_bool_iff in Hle. congruence.
      * simpl. now apply sublist_skip.
Qed.

(** X6.  [add_captions_to_video] never composites a text clip of zero or
    negative duration, nor an empty list of clips: the clips it shows are
    blocks of the grouper, in their order, those whose end is not after
    their start being left out.  A file whose only word ends no later than
    it starts leaves a plain copy of the video. *)
Theorem overlay_drops_empty_blocks :
  (forall doc clips,
     add_captions_to_video doc = Composited clips ->
     clips <> []
     /\ Forall (fun c => 0 < tc_duration c) clips
     /\ exists ws blocks,
         load_captions doc = Ok ws
         /\ group_words_into_captions 4 4 ws = Ok blocks
         /\ sublist (List.map tc_text clips) (List.map c_text blocks))
  /\ (forall w : TimedWord,
        end_ w <= start w ->
        add_captions_to_video (JList [to_json w]) = Copied).
Proof.
  split.
  - intros doc clips. unfold add_captions_to_video.
    destruct (load_captions doc) as [ws|]; [|discriminate].
    destruct (is_nil ws); [discriminate|].
    destruct (group_words_into_captions 4 4 ws) as [blocks|] eqn:Hblocks;
      [|discriminate].
    destruct (is_nil blocks); [discriminate|].
    destruct (caption_clips blocks) as [[|c rest]|] eqn:Hclips;
      try discriminate.
    intros H. injection H as <-.
    destruct (caption_clips_sound blocks _ Hclips) as [Hpos Hsub].
    split; [discriminate|]. split; [exact Hpos|].
    exists ws, blocks.
    split; [reflexivity|]. split; [exact Hblocks | exact Hsub].
  - intros w Hw. unfold add_captions_to_video. simpl.
    destruct (Qle_bool (end_ w - start w) 0) eqn:Hd; [reflexivity|].
    assert (Hle : end_ w - start w <= 0) by lra.
    apply Qle_bool_iff in Hle. congruence.
Qed.

Lemma overlay_drops_empty_blocks_witness :
  add_captions_to_video (JList (List.map to_json unsorted_words)) = Copied
  /\ (exists clips,
        add_captions_to_video (JList (List.map to_json bonjour))
        = Composited clips
        /\ clips <> [] /\ Forall (fun c => 0 < tc_duration c) clips)
  /\ add_captions_to_video (JList [to_json (mkWord "a" 2 2)]) = Copied.
Proof.
  split; [reflexivity|].
  split.
  - eexists. split; [reflexivity|].
    split; apply (proj1 overlay_drops_empty_blocks
                    (JList (List.map to_json bonjour))); reflexivity.
  - apply (proj2 overlay_drops_empty_blocks (mkWord "a" 2 2)).
    unfold Qle. simpl. lia.
Defined.

End OverlayFacts.

(** ** The scene loop: media by type *)

Module SceneFacts.
Import VideoComposer Scenarios ComposerFacts.

Local Open Scope Q_scope.

Lemma durations_of_accepted (acc : list (Z * string * Q)) :
  List.map (fun a => Some (snd a)) acc = List.map Some (List.map snd acc).
Proof. now rewrite List.map_map. Qed.

(** The outcomes of a run whose loop returns. *)
Lemma compose_outcomes env target_w target_h (scenes : list scene) :
  let acc := omap accepted scenes in
  (compose_final_video env target_w target_h scenes = None
   <-> (exists e, audio_duration env = Raise e) \/ acc = [])
  /\ (forall tl,
        compose_final_video env target_w target_h scenes = Some tl ->
        List.length (track tl) = List.length acc
        /\ final_duration tl = sum_durations (List.map snd acc)
        /\ target_duration tl == final_duration tl).
Proof.
  intros acc.
  destruct (process_scenes_spec env target_w target_h scenes)
    as (Hdur & _ & Hcur).
  fold acc in Hdur, Hcur.
  rewrite durations_of_accepted in Hdur.
  pose proof (total_duration_sum _ _ Hdur) as Htotal.
  assert (Hlen : List.length
                   (video_clips (process_scenes env target_w target_h scenes))
                 = List.length acc).
  { apply (f_equal (@List.length _)) in Hdur.
    now rewrite !List.length_map in Hdur. }
  unfold compose_final_video.
  destruct scenes as [|sc scenes'].
  - split; [|discriminate]. split; [intros _; now right | reflexivity].
  - set (scs := sc :: scenes') in *.
    destruct (audio_duration env) as [a|e].
    + destruct (video_clips (process_scenes env target_w target_h scs))
        as [|c clips] eqn:Hclips.
      * split; [|discriminate].
        split; [intros _; right | reflexivity].
        destruct acc; [reflexivity | discriminate].
      * rewrite Htotal. split.
        -- split; [discriminate|]. intros [[e He] | Hacc]; [discriminate|].
           rewrite Hacc in Hlen. discriminate.
        -- intros tl H. injection H as <-. simpl.
           split; [exact Hlen|]. split; [reflexivity | exact Hcur].
    + split; [|discriminate].
      split; [intros _; left; now exists e | reflexivity].
Qed.

(** X7.  [compose_final_video] gives up before writing exactly when the
    audio cannot be loaded or no scene passes the guard of the loop.  It
    raises only out of the [except] branch of a scene, with the exception of
    the [TextClip] of the error clip, and never when that text can be
    drawn.  Otherwise the track has one clip per scene that passes the
    guard, and its duration is the sum of the durations declared by those
    scenes, which is also the target duration logged: the audio duration
    plays no part. *)
Theorem compose_fails_only_without_audio_or_scenes env target_w target_h
    text_clip (scenes : list scene) :
  let acc := omap accepted scenes in
  let outcome :=
    run_compose_final_video env target_w target_h text_clip scenes in
  (outcome = Ok None
   <-> (exists e, audio_duration env = Raise e) \/ acc = [])
  /\ (forall tl,
        outcome = Ok (Some tl) ->
        List.length (track tl) = List.length acc
        /\ final_duration tl = sum_durations (List.map snd acc)
        /\ target_duration tl == final_duration tl)
  /\ (forall e,
        outcome = Raise e ->
        (exists a, audio_duration env = Ok a)
        /\ exists sc number vtype d,
             In sc scenes /\ accepted sc = Some (number, vtype, d)
             /\ text_clip (error_text number) = Raise e)
  /\ (text_is_drawn text_clip -> exists o, outcome = Ok o).
Proof.
  intros acc outcome.
  destruct (compose_outcomes env target_w target_h scenes) as [Hnone Hsome].
  fold acc in Hnone, Hsome.
  destruct (run_scenes env target_w target_h text_clip scenes cstate0)
    as [st|e0] eqn:Hrun.
  - assert (Hout : outcome
                   = Ok (compose_final_video env target_w target_h scenes)).
    { exact (run_compose_returns env target_w target_h text_clip scenes st
               Hrun). }
    rewrite Hout. split; [|split; [|split]].
    + split.
      * intros [= H]. now apply Hnone.
      * intros H. f_equal. now apply Hnone.
    + intros tl [= H]. now apply Hsome.
    + discriminate.
    + intros _. eauto.
  - destruct (run_scenes_raises env target_w target_h text_clip scenes
                cstate0 e0 Hrun)
      as (sc & number & vtype & d & Hin & Hacc & Htext).
    assert (Hne : acc <> []).
    { unfold acc. destruct (List.in_split _ _ Hin) as (l1 & l2 & ->).
      rewrite omap_app. cbn [omap list_omap]. rewrite Hacc.
      now destruct (omap accepted l1). }
    unfold outcome, run_compose_final_video. rewrite Hrun.
    destruct scenes as [|sc0 scenes']; [destruct Hin|].
    destruct (audio_duration env) as [a|ea] eqn:Ha; cbn [rbind].
    + split; [|split; [|split]].
      * split; [discriminate|].
        intros [[e He] | Hnil]; [discriminate | contradiction].
      * discriminate.
      * intros e [= <-]. split; [now exists a|].
        now exists sc, number, vtype, d.
      * intros Hdraws. destruct (Hdraws number) as [u Hu]. congruence.
    + split; [|split; [|split]].
      * split; [intros _; left; now exists ea | reflexivity].
      * discriminate.
      * discriminate.
      * intros _. eauto.
Qed.

Lemma compose_fails_only_without_audio_or_scenes_witness :
  (exists tl,
     run_compose_final_video bare_assets 1080 1920 no_imagemagick
       scenes_two_then_one = Ok (Some tl)
     /\ List.length (track tl)
        = List.length (omap accepted scenes_two_then_one)
     /\ final_duration tl
        = sum_durations (List.map snd (omap accepted scenes_two_then_one))
     /\ target_duration tl == final_duration tl)
  /\ omap accepted [scene_zero] = []
  /\ run_compose_final_video bare_assets 1080 1920 no_imagemagick [scene_zero]
     = Ok None
  /\ run_compose_final_video unreadable_assets 1080 1920 no_imagemagick
       two_image_scenes
     = Raise (OSError "convert")
  /\ (exists a, audio_duration unreadable_assets = Ok a)
  /\ text_is_drawn imagemagick
  /\ exists o,
      run_compose_final_video unreadable_assets 1080 1920 imagemagick
        two_image_scenes = Ok o.
Proof.
  split.
  { eexists. split; [reflexivity|].
    apply (proj1 (proj2 (compose_fails_only_without_audio_or_scenes
                           bare_assets 1080 1920 no_imagemagick
                           scenes_two_then_one))).
    reflexivity. }
  split; [reflexivity|]. split.
  { apply (proj1 (compose_fails_only_without_audio_or_scenes
                    bare_assets 1080 1920 no_imagemagick [scene_zero])).
    right. reflexivity. }
  split; [reflexivity|]. split.
  { apply (proj1 (proj2 (proj2 (compose_fails_only_without_audio_or_scenes
                                  unreadable_assets 1080 1920 no_imagemagick
                                  two_image_scenes)))
             (OSError "convert")).
    reflexivity. }
  assert (Hdraws : text_is_drawn imagemagick).
  { intros number. now exists tt. }
  split; [exact Hdraws|].
  exact (proj2 (proj2 (proj2 (compose_fails_only_without_audio_or_scenes
                                unreadable_assets 1080 1920 imagemagick
                                two_image_scenes))) Hdraws).
Defined.

(** *** The pool of generated images *)

Lemma load_media_ai_index env st number vtype d :
  fst (fst (load_media env st number vtype d))
  = if String.eqb vtype "ai_image" then
      match List.nth_error (ai_image_files env) (ai_image_index st) with
      | Some p =>
          match image_file env p with
          | Ok _ => S (ai_image_index st)
          | Raise _ => ai_image_index st
          end
      | None => ai_image_index st
      end
    else ai_image_index st.
Proof.
  unfold load_media, ai_image_files.
  destruct (String.eqb vtype "hook") eqn:Hhook.
  { apply String.eqb_eq in Hhook. subst vtype. simpl.
    destruct (available env (hook_video_path env)) as [p|]; [|reflexivity].
    destruct (video_file env p) as [[sz a]|]; reflexivity. }
  destruct (String.eqb vtype "ai_image").
  { destruct (List.nth_error _ _) as [p|]; [|reflexivity].
    destruct (image_file env p); reflexivity. }
  destruct (String.eqb vtype "stock_video").
  { destruct (default [] (stock_videos_map env !! number)) as [|p0 pool];
      [reflexivity|].
    destruct (video_file env _); reflexivity. }
  destruct (String.eqb vtype "product_shot").
  { destruct (available env (product_image_path env)) as [p|]; [|reflexivity].
    destruct (image_file env p); reflexivity. }
  destruct (String.eqb vtype "product_video"); [|reflexivity].
  destruct (available env (main_product_video_path env)) as [p|];
    [|reflexivity].
  destruct (video_file env p); reflexivity.
Qed.

Lemma process_scene_ai_index env target_w target_h st sc :
  ai_image_index (process_scene env target_w target_h st sc)
  = match accepted sc with
    | None => ai_image_index st
    | Some (number, vtype, d) =>
        fst (fst (load_media env st number vtype d))
    end.
Proof.
  unfold process_scene, accepted.
  destruct (truthy_int (scene_number sc) && truthy_str (visual_type sc)
            && truthy_num (duration_seconds sc)); [|reflexivity].
  cbn [negb].
  destruct (scene_number sc) as [number|]; [|reflexivity].
  destruct (visual_type sc) as [vtype|]; [|reflexivity].
  destruct (duration_seconds sc) as [d|]; [|reflexivity].
  destruct (load_media env st number vtype d) as [[ai drawn] loaded].
  destruct (rbind loaded _); reflexivity.
Qed.

Lemma ai_image_scenes_cons (sc : scene) (scenes : list scene) :
  ai_image_scenes (sc :: scenes)
  = ((match accepted sc with
      | Some (_, vtype, _) => if String.eqb vtype "ai_image" then 1 else 0
      | None => 0
      end) + ai_image_scenes scenes)%nat.
Proof.
  unfold ai_image_scenes. cbn [omap list_omap].
  destruct (accepted sc) as [[[number vtype] d]|]; [|reflexivity].
  cbn [List.filter fst snd].
  destruct (String.eqb vtype "ai_image"); reflexivity.
Qed.

Section Pool.

Variable env : assets.
Variables target_w target_h : Z.

Hypothesis images_load :
  forall p, In p (ai_image_files env) -> exists sz, image_file env p = Ok sz.

Lemma ai_index_after : forall (scenes : list scene) (st : cstate),
  (ai_image_index st <= List.length (ai_image_files env))%nat ->
  ai_image_index
    (List.fold_left (process_scene env target_w target_h) scenes st)
  = Nat.min (ai_image_index st + ai_image_scenes scenes)
            (List.length (ai_image_files env)).
Proof.
  induction scenes as [|sc scenes IH]; intros st Hle.
  - unfold ai_image_scenes. simpl. lia.
  - cbn [List.fold_left]. rewrite ai_image_scenes_cons.
    pose proof (process_scene_ai_index env target_w target_h st sc) as Hstep.
    destruct (accepted sc) as [[[number vtype] d]|].
    + rewrite load_media_ai_index in Hstep.
      destruct (String.eqb vtype "ai_image").
      * destruct (List.nth_error (ai_image_files env) (ai_image_index st))
          as [p|] eqn:Hnth.
        -- assert (Hlt : (ai_image_index st
                          < List.length (ai_image_files env))%nat).
           { apply List.nth_error_Some. congruence. }
           destruct (images_load p) as [sz Hsz];
             [eapply List.nth_error_In; exact Hnth|].
           rewrite Hsz in Hstep.
           rewrite IH by (rewrite Hstep; lia). rewrite Hstep. lia.
        -- apply List.nth_error_None in Hnth.
           rewrite IH by (rewrite Hstep; lia). rewrite Hstep. lia.
      * rewrite IH by (rewrite Hstep; lia). rewrite Hstep. lia.
    + rewrite IH by (rewrite Hstep; lia). rewrite Hstep. lia.
Qed.

End Pool.

(** X8.  When every image of the pool opens, the scene loop hands the
    images out in the order of the sorted file list, one per processed
    scene of type [ai_image] and whatever other scenes come between: after
    [j] such scenes the next one gets the file at index [j], and once the
    pool is used up the scenes get no image (the black placeholder). *)
Theorem ai_image_scenes_take_pool_in_order env target_w target_h
    (before : list scene) (number : Z) (d : Q) :
  let pool := ai_image_files env in
  let st := process_scenes env target_w target_h before in
  let j := ai_image_scenes before in
  (forall p, In p pool -> exists sz, image_file env p = Ok sz) ->
  ai_image_index st = Nat.min j (List.length pool)
  /\ (forall p,
        List.nth_error pool j = Some p ->
        exists sz,
          image_file env p = Ok sz
          /\ load_media env st number "ai_image" d
             = ((S j, choices st),
                Ok (Some (set_duration (Clip (ImageClip p) Natural sz None)
                                       d))))
  /\ ((List.length pool <= j)%nat ->
      load_media env st number "ai_image" d
      = ((List.length pool, choices st), Ok None)).
Proof.
  intros pool st j Hload.
  assert (Hidx : ai_image_index st = Nat.min j (List.length pool)).
  { unfold st, process_scenes.
    rewrite (ai_index_after env target_w target_h Hload) by (simpl; lia).
    reflexivity. }
  split; [exact Hidx|]. split.
  - intros p Hp.
    assert (Hlt : (j < List.length pool)%nat).
    { apply List.nth_error_Some. congruence. }
    destruct (Hload p) as [sz Hsz];
      [eapply List.nth_error_In; exact Hp|].
    exists sz. split; [exact Hsz|].
    unfold load_media. cbn [String.eqb Ascii.eqb Bool.eqb].
    fold (ai_image_files env). fold pool.
    rewrite Hidx, Nat.min_l by lia. rewrite Hp, Hsz. reflexivity.
  - intros Hge. unfold load_media. cbn [String.eqb Ascii.eqb Bool.eqb].
    fold (ai_image_files env). fold pool.
    rewrite Hidx, Nat.min_r by lia.
    assert (Hnone : List.nth_error pool (List.length pool) = None)
      by (apply List.nth_error_None; lia).
    rewrite Hnone. reflexivity.
Qed.

Lemma ai_image_scenes_take_pool_in_order_witness :
  (forall p,
     In p (ai_image_files image_assets) ->
     exists sz, image_file image_assets p = Ok sz)
  /\ ai_image_scenes two_image_scenes = 2%nat
  /\ List.nth_error (ai_image_files image_assets) 2 = Some "2.jpeg"
  /\ ai_image_index (process_scenes image_assets 1080 1920 two_image_scenes)
     = Nat.min (ai_image_scenes two_image_scenes)
               (List.length (ai_image_files image_assets))
  /\ exists sz,
      image_file image_assets "2.jpeg" = Ok sz
      /\ load_media image_assets
           (process_scenes image_assets 1080 1920 two_image_scenes)
           7 "ai_image" 3
         = ((S (ai_image_scenes two_image_scenes),
             choices (process_scenes image_assets 1080 1920
                                     two_image_scenes)),
            Ok (Some (set_duration
                        (Clip (ImageClip "2.jpeg") Natural sz None) 3))).
Proof.
  assert (Hload : forall p,
             In p (ai_image_files image_assets) ->
             exists sz, image_file image_assets p = Ok sz).
  { intros p _. now exists (1008, 1792)%Z. }
  split; [exact Hload|]. split; [reflexivity|]. split; [reflexivity|].
  destruct (ai_image_scenes_take_pool_in_order image_assets 1080 1920
              two_image_scenes 7 3 Hload) as (Hidx & Hnext & _).
  split; [exact Hidx|].
  apply Hnext. reflexivity.
Defined.

Lemma process_scene_appends env target_w target_h st sc :
  match accepted sc with
  | None => process_scene env target_w target_h st sc = st
  | Some (number, vtype, d) =>
      exists c,
        video_clips (process_scene env target_w target_h st sc)
        = video_clips st ++ [c]
        /\ (error_occurred st = true ->
            error_occurred (process_scene env target_w target_h st sc) = true)
        /\ (forall e,
              snd (load_media env st number vtype d) = Raise e ->
              c = error_placeholder target_w target_h number d
              /\ error_occurred (process_scene env target_w target_h st sc)
                 = true)
  end.
Proof.
  unfold process_scene, accepted.
  destruct (truthy_int (scene_number sc) && truthy_str (visual_type sc)
            && truthy_num (duration_seconds sc)); [|reflexivity].
  cbn [negb].
  destruct (scene_number sc) as [number|]; [|reflexivity].
  destruct (visual_type sc) as [vtype|]; [|reflexivity].
  destruct (duration_seconds sc) as [d|]; [|reflexivity].
  destruct (load_media env st number vtype d) as [[ai drawn] loaded].
  destruct loaded as [raw|e0]; cbn [rbind snd].
  - destruct (finish_clip target_w target_h raw d) as [c|e1];
      eexists; (split; [reflexivity|]); (split; [now intros H|]);
      intros e He; discriminate.
  - eexists. split; [reflexivity|]. split; [reflexivity|].
    intros e _. now split.
Qed.

(** In a run whose error clips are built, an image that does not open
    stays in front of the pool. *)
Lemma unreadable_image_stays env target_w target_h
    (scenes : list scene) (st : cstate) (p : string) (e : exn) :
  List.nth_error (ai_image_files env) (ai_image_index st) = Some p ->
  image_file env p = Raise e ->
  let st' :=
    List.fold_left (process_scene env target_w target_h) scenes st in
  ai_image_index st' = ai_image_index st
  /\ (exists clips,
        video_clips st' = video_clips st ++ clips
        /\ Forall2 (fun a c =>
                      snd (fst a) = "ai_image" ->
                      c = error_placeholder target_w target_h
                            (fst (fst a)) (snd a))
                   (omap accepted scenes) clips)
  /\ ((0 < ai_image_scenes scenes)%nat -> error_occurred st' = true).
Proof.
  intros Hnth Hfile. revert st Hnth.
  induction scenes as [|sc scenes IH]; intros st Hnth; cbn [List.fold_left].
  - split; [reflexivity|]. split.
    + exists []. rewrite List.app_nil_r. split; [reflexivity | constructor].
    + unfold ai_image_scenes. simpl. lia.
  - pose proof (process_scene_ai_index env target_w target_h st sc) as Hidx.
    pose proof (process_scene_appends env target_w target_h st sc) as Happ.
    rewrite ai_image_scenes_cons. cbn [omap list_omap].
    destruct (accepted sc) as [[[number vtype] d]|].
    + rewrite load_media_ai_index, Hnth, Hfile in Hidx.
      assert (Hidx' : ai_image_index
                        (process_scene env target_w target_h st sc)
                      = ai_image_index st).
      { rewrite Hidx. now destruct (String.eqb vtype "ai_image"). }
      destruct Happ as (c & Hclips & Hmono & Herr).
      destruct (IH (process_scene env target_w target_h st sc))
        as (IHidx & (clips & IHclips & IHall) & IHerr).
      { now rewrite Hidx'. }
      assert (Hstays : forall s0,
                 error_occurred s0 = true ->
                 error_occurred
                   (List.fold_left (process_scene env target_w target_h)
                                   scenes s0) = true).
      { clear. induction scenes as [|sc' scenes' IH']; intros s0 H0;
          [exact H0|].
        cbn [List.fold_left]. apply IH'.
        pose proof (process_scene_appends env target_w target_h s0 sc')
          as Hs.
        destruct (accepted sc') as [[[n' v'] d']|].
        - destruct Hs as (c' & _ & Hm & _). now apply Hm.
        - now rewrite Hs. }
      split; [now rewrite IHidx, Hidx'|]. split.
      * exists (c :: clips). rewrite IHclips, Hclips, <- List.app_assoc.
        split; [reflexivity|].
        constructor; [|exact IHall].
        cbn [fst snd]. intros ->.
        apply (Herr e). unfold load_media.
        cbn [String.eqb Ascii.eqb Bool.eqb].
        fold (ai_image_files env). now rewrite Hnth, Hfile.
      * destruct (String.eqb vtype "ai_image") eqn:Hvt.
        -- intros _. apply Hstays.
           apply String.eqb_eq in Hvt. subst vtype.
           apply (Herr e). unfold load_media.
           cbn [String.eqb Ascii.eqb Bool.eqb].
           fold (ai_image_files env). now rewrite Hnth, Hfile.
        -- exact IHerr.
    + rewrite Happ. exact (IH st Hnth).
Qed.

(** X9.  An image of the pool that does not open is never stepped over.
    The scene of type [ai_image] that meets it goes through the [except]
    branch: when the text of the error clip can be drawn the scene gets the
    error clip, with its number and duration, and the index stays on the
    image; when it cannot, the exception of [TextClip] leaves the loop.  In
    a run where the text is drawn, the index stays on the image to the end,
    so every later scene of that type gets the error clip too, and the run
    is marked as having failed. *)
Theorem unreadable_image_blocks_later_scenes env target_w target_h text_clip
    (scenes : list scene) (st : cstate) (p : string) (e : exn) :
  List.nth_error (ai_image_files env) (ai_image_index st) = Some p ->
  image_file env p = Raise e ->
  (forall number d,
     number <> 0%Z -> ~ d == 0 ->
     run_scene env target_w target_h text_clip st
       (Scene (Some number) (Some "ai_image") (Some d))
     = match text_clip (error_text number) with
       | Ok _ =>
           Ok (CState (video_clips st
                         ++ [error_placeholder target_w target_h number d])
                      (ai_image_index st) (current_video_duration st + d)
                      true (choices st) (processing_log st ++ [number]))
       | Raise e' => Raise e'
       end)
  /\ (text_is_drawn text_clip ->
      exists st',
        run_scenes env target_w target_h text_clip scenes st = Ok st'
        /\ ai_image_index st' = ai_image_index st
        /\ (exists clips,
              video_clips st' = video_clips st ++ clips
              /\ Forall2 (fun a c =>
                            snd (fst a) = "ai_image" ->
                            c = error_placeholder target_w target_h
                                  (fst (fst a)) (snd a))
                         (omap accepted scenes) clips)
        /\ ((0 < ai_image_scenes scenes)%nat -> error_occurred st' = true)).
Proof.
  intros Hnth Hfile. split.
  - intros number d Hn Hd. unfold run_scene.
    cbn [scene_number visual_type duration_seconds].
    assert (Hnz : (number =? 0)%Z = false) by now apply Z.eqb_neq.
    assert (Hdz : Qeq_bool d 0 = false).
    { destruct (Qeq_bool d 0) eqn:Heq; [|reflexivity].
      apply Qeq_bool_iff in Heq. contradiction. }
    unfold truthy_int, truthy_str, truthy_num. rewrite Hnz, Hdz.
    cbn [String.eqb Ascii.eqb Bool.eqb negb andb].
    unfold load_media. cbn [String.eqb Ascii.eqb Bool.eqb].
    fold (ai_image_files env). rewrite Hnth, Hfile. cbn [rbind].
    unfold error_clip. now destruct (text_clip (error_text number)).
  - intros Hdraws.
    exists (List.fold_left (process_scene env target_w target_h) scenes st).
    split; [now apply run_scenes_draws|].
    exact (unreadable_image_stays env target_w target_h scenes st p e
             Hnth Hfile).
Qed.

Lemma unreadable_image_blocks_later_scenes_witness :
  List.nth_error (ai_image_files unreadable_assets) (ai_image_index cstate0)
  = Some "1.jpeg"
  /\ image_file unreadable_assets "1.jpeg" = Raise (OSError "1.jpeg")
  /\ run_scene unreadable_assets 1080 1920 no_imagemagick cstate0
       (Scene (Some 3%Z) (Some "ai_image") (Some 5))
     = Raise (OSError "convert")
  /\ text_is_drawn imagemagick
  /\ exists st',
      run_scenes unreadable_assets 1080 1920 imagemagick two_image_scenes
        cstate0 = Ok st'
      /\ ai_image_index st' = ai_image_index cstate0
      /\ video_clips st'
         = [error_placeholder 1080 1920 3 5; error_placeholder 1080 1920 5 4]
      /\ ((0 < ai_image_scenes two_image_scenes)%nat ->
          error_occurred st' = true).
Proof.
  split; [reflexivity|]. split; [reflexivity|].
  assert (Hdraws : text_is_drawn imagemagick).
  { intros number. now exists tt. }
  destruct (unreadable_image_blocks_later_scenes unreadable_assets 1080 1920
              no_imagemagick two_image_scenes cstate0 "1.jpeg"
              (OSError "1.jpeg") eq_refl eq_refl) as (Hone & _).
  destruct (unreadable_image_blocks_later_scenes unreadable_assets 1080 1920
              imagemagick two_image_scenes cstate0 "1.jpeg"
              (OSError "1.jpeg") eq_refl eq_refl) as (_ & Hall).
  destruct (Hall Hdraws) as (st' & Hrun & Hidx & _ & Herr).
  split.
  { rewrite (Hone 3%Z 5); [reflexivity | discriminate | discriminate]. }
  split; [exact Hdraws|].
  exists st'. split; [exact Hrun|]. split; [exact Hidx|].
  split; [|exact Herr].
  injection Hrun as <-. reflexivity.
Defined.

(** *** The hook *)



(** *** The frame *)








End SceneFacts.

(** ** Blank characters and the wrapping of subtitle text *)

Module WrapFacts.
Import CaptionOverlay AudioGenerator Scenarios.

Lemma lstrip_nil_iff (l : list ascii) :
  Py.lstrip_chars l = [] <-> forallb Py.is_space l = true.
Proof.
  induction l as [|c l IH]; simpl; [tauto|].
  destruct (Py.is_space c); simpl; [exact IH|].
  split; discriminate.
Qed.

Lemma lstrip_head (l : list ascii) (c : ascii) (rest : list ascii) :
  Py.lstrip_chars l = c :: rest -> Py.is_space c = false.
Proof.
  induction l as [|x l IH]; simpl; [discriminate|].
  destruct (Py.is_space x) eqn:Hx; [exact IH|].
  intros H. injection H as -> _. exact Hx.
Qed.

Lemma lstrip_app (a t : list ascii) :
  Py.lstrip_chars (a ++ t)
  = if forallb Py.is_space a then Py.lstrip_chars t
    else Py.lstrip_chars a ++ t.
Proof.
  induction a as [|c a IH]; simpl; [reflexivity|].
  destruct (Py.is_space c); simpl; [exact IH | reflexivity].
Qed.

(** Two strings that differ by leading blanks only. *)
Lemma lstrip_app_eq (a b t : list ascii) :
  Py.lstrip_chars a = Py.lstrip_chars b ->
  Py.lstrip_chars (a ++ t) = Py.lstrip_chars (b ++ t).
Proof.
  intros H. rewrite !lstrip_app.
  destruct (forallb Py.is_space a) eqn:Ha;
    destruct (forallb Py.is_space b) eqn:Hb.
  - reflexivity.
  - apply lstrip_nil_iff in Ha. rewrite Ha in H. symmetry in H.
    apply lstrip_nil_iff in H. congruence.
  - apply lstrip_nil_iff in Hb. rewrite Hb in H.
    apply lstrip_nil_iff in H. congruence.
  - now rewrite H.
Qed.

Lemma strip_lstrip_eq (a b : string) :
  Py.lstrip_chars (list_ascii_of_string a)
  = Py.lstrip_chars (list_ascii_of_string b) ->
  Py.strip a = Py.strip b.
Proof. intros H. unfold Py.strip. now rewrite H. Qed.

Lemma strip_empty_iff (s : string) :
  Py.strip s = "" <-> forallb Py.is_space (list_ascii_of_string s) = true.
Proof.
  unfold Py.strip. set (cs := list_ascii_of_string s). split.
  - intros H.
    assert (Hr : rev (Py.lstrip_chars (rev (Py.lstrip_chars cs))) = []).
    { destruct (rev _); [reflexivity | discriminate]. }
    apply (f_equal (@rev _)) in Hr. rewrite rev_involutive in Hr. simpl in Hr.
    apply lstrip_nil_iff in Hr. rewrite List.forallb_forall in Hr.
    destruct (Py.lstrip_chars cs) as [|c rest] eqn:Hl.
    + now apply lstrip_nil_iff.
    + apply lstrip_head in Hl.
      rewrite (Hr c) in Hl; [discriminate|].
      apply List.in_rev. rewrite rev_involutive. now left.
  - intros H. apply lstrip_nil_iff in H. rewrite H. reflexivity.
Qed.

Lemma succ_mod5 (i : nat) : (i mod 5 = 0 -> S i mod 5 <> 0)%nat.
Proof.
  intros H0 H1.
  pose proof (Nat.div_mod_eq i 5) as Hi.
  pose proof (Nat.div_mod_eq (S i) 5) as Hs.
  rewrite H0 in Hi. rewrite H1 in Hs. lia.
Qed.

Lemma kept_one (x : string) (l : list string) :
  Voice.kept (x :: l)
  = if is_nil (list_ascii_of_string x) then Voice.kept l
    else x :: Voice.kept l.
Proof.
  unfold Voice.kept. simpl.
  now destruct (is_nil (list_ascii_of_string x)).
Qed.

Lemma lstrip_snoc_word (a b w : string) :
  Py.lstrip_chars (list_ascii_of_string a)
  = Py.lstrip_chars (list_ascii_of_string b) ->
  Py.lstrip_chars (list_ascii_of_string (a ++ " " ++ w)%string)
  = Py.lstrip_chars (list_ascii_of_string (b ++ " " ++ w)%string).
Proof.
  intros H. rewrite !DigitFacts.list_ascii_app. now apply lstrip_app_eq.
Qed.

(** The two loops, from the same index on: either the lines being built
    differ by leading blanks only, or the loop of [audio_generator_fr.py]
    has closed a line that the loop of [voice.py] is about to close. *)
Lemma wrap_lines_agree (n : nat) : forall (ws : list string) i ca cv,
  n = (i + List.length ws)%nat ->
  (Py.lstrip_chars (list_ascii_of_string ca)
   = Py.lstrip_chars (list_ascii_of_string cv) ->
   (i = 0 \/ i mod 5 <> 0 \/ ws = [])%nat ->
   Voice.kept (AudioGenerator.wrap_lines n i ca ws)
   = Voice.kept (Voice.wrap_lines i cv ws))
  /\ ((0 < i)%nat -> (i mod 5 = 0)%nat -> ws <> [] ->
      Voice.kept (Py.strip cv :: AudioGenerator.wrap_lines n i "" ws)
      = Voice.kept (Voice.wrap_lines i cv ws)).
Proof.
  induction ws as [|w rest IH]; intros i ca cv Hn.
  - split; [|congruence]. intros Heq _.
    cbn [AudioGenerator.wrap_lines Voice.wrap_lines].
    rewrite (strip_lstrip_eq ca cv Heq), kept_one.
    destruct (is_nil (list_ascii_of_string (Py.strip cv))) eqn:Hnil;
      [reflexivity|].
    now rewrite kept_one, Hnil.
  - split.
    + intros Heq Hi.
      assert (Hv : ((0 <? i) && (i mod 5 =? 0))%nat = false).
      { destruct Hi as [-> | [Hi | Hi]]; [reflexivity | | discriminate].
        apply andb_false_iff. right. now apply Nat.eqb_neq. }
      cbn [AudioGenerator.wrap_lines Voice.wrap_lines]. rewrite Hv.
      pose proof (lstrip_snoc_word ca cv w Heq) as Heq'.
      destruct (S i mod 5 =? 0)%nat eqn:Hfive.
      * apply Nat.eqb_eq in Hfive.
        destruct rest as [|w' rest'].
        -- replace (i <? n - 1)%nat with false
             by (symmetry; apply Nat.ltb_ge; simpl in Hn; lia).
           cbn [andb].
           apply (IH (S i) _ _ ltac:(simpl in *; lia)); [exact Heq'|].
           right. now right.
        -- replace (i <? n - 1)%nat with true
             by (symmetry; apply Nat.ltb_lt; simpl in Hn; lia).
           cbn [andb].
           rewrite (strip_lstrip_eq _ _ Heq').
           apply (IH (S i) (ca ++ " " ++ w)%string _
                     ltac:(simpl in *; lia));
             [lia | exact Hfive | discriminate].
      * cbn [andb]. apply Nat.eqb_neq in Hfive.
        apply (IH (S i) _ _ ltac:(simpl in *; lia)); [exact Heq'|].
        right. now left.
    + intros Hpos Hmod _.
      assert (Hv : ((0 <? i) && (i mod 5 =? 0))%nat = true).
      { apply andb_true_iff. split;
          [now apply Nat.ltb_lt | now apply Nat.eqb_eq]. }
      cbn [AudioGenerator.wrap_lines Voice.wrap_lines]. rewrite Hv.
      pose proof (succ_mod5 i Hmod) as Hnext.
      replace (S i mod 5 =? 0)%nat with false
        by (symmetry; now apply Nat.eqb_neq).
      cbn [andb]. rewrite !(kept_one (Py.strip cv)).
      assert (Hrest :
                Voice.kept
                  (AudioGenerator.wrap_lines n (S i) ("" ++ " " ++ w) rest)
                = Voice.kept (Voice.wrap_lines (S i) w rest)).
      { apply (IH (S i) _ _ ltac:(simpl in *; lia)); [reflexivity|].
        right. now left. }
      now rewrite Hrest.
Qed.

(** X12.  The [formatter] of [audio_generator_fr.py] and the one of
    [voice.py] wrap alike: for every word list the two loops leave the same
    non-empty lines, so the text of a subtitle block is the same whichever
    module writes it. *)
Theorem formatters_wrap_alike :
  (forall words : list string,
     Voice.kept (AudioGenerator.wrap_lines (List.length words) 0 "" words)
     = Voice.kept (Voice.wrap_lines 0 "" words))
  /\ (forall idx start_time_ns end_time_ns sub_text,
        formatter idx start_time_ns end_time_ns sub_text
        = (Py.str_of_N (N.of_nat idx) ++ newline
           ++ format_time_srt (start_time_ns / 10000000) ++ " --> "
           ++ format_time_srt (end_time_ns / 10000000) ++ newline
           ++ Voice.formatted_text sub_text ++ newline)%string).
Proof.
  assert (Hwrap : forall words : list string,
             Voice.kept
               (AudioGenerator.wrap_lines (List.length words) 0 "" words)
             = Voice.kept (Voice.wrap_lines 0 "" words)).
  { intros words.
    apply (proj1 (wrap_lines_agree (List.length words) words 0 "" ""
                    eq_refl));
      [reflexivity | now left]. }
  split; [exact Hwrap|].
  intros idx s e sub_text. unfold formatter, Voice.formatted_text.
  cbv zeta. rewrite <- Hwrap. reflexivity.
Qed.

End WrapFacts.

(** ** Subtitle items and script lines *)

Module SubtitleFacts.
Import CaptionOverlay AudioGenerator Scenarios AlignFacts WrapFacts.

Local Open Scope Q_scope.

Lemma blank_is_nil (s : string) :
  is_nil (list_ascii_of_string (Py.strip s)) = true <-> blank s.
Proof. unfold blank. apply is_nil_chars. Qed.

Lemma strip_all_space (u : string) :
  forallb Py.is_space (list_ascii_of_string (Py.strip u)) = true ->
  Py.strip u = "".
Proof.
  unfold Py.strip.
  destruct (Py.lstrip_chars (rev (Py.lstrip_chars (list_ascii_of_string u))))
    as [|c rest] eqn:Hl; [reflexivity|].
  intros H. rewrite list_ascii_of_string_of_list_ascii in H.
  rewrite List.forallb_forall in H.
  apply lstrip_head in Hl. rewrite (H c) in Hl; [discriminate|].
  apply List.in_rev. rewrite rev_involutive. now left.
Qed.

(** A pending line to which a non-blank word is added is not blank. *)
Lemma pending_not_blank (line u : string) :
  Py.strip u <> "" -> ~ blank (line ++ " " ++ Py.strip u)%string.
Proof.
  intros Hw Hb. unfold blank in Hb. apply strip_empty_iff in Hb.
  rewrite !DigitFacts.list_ascii_app, !List.forallb_app in Hb.
  apply andb_true_iff in Hb. destruct Hb as [_ Hb].
  apply andb_true_iff in Hb. destruct Hb as [_ Hb].
  now apply strip_all_space in Hb.
Qed.

Section Loop.

Variable unescape : string -> string.
Variable script_lines : list string.

Lemma follows_script_snoc (items : list string) (s e : Q) :
  follows_script script_lines items ->
  (List.length items < List.length script_lines)%nat ->
  follows_script script_lines
    (items ++ [formatter (S (List.length items)) s e
                 (Py.strip (List.nth (List.length items) script_lines ""))]).
Proof.
  intros [Hlen Hitems] Hlt. split.
  - rewrite List.length_app. simpl. lia.
  - intros k item Hk.
    destruct (Nat.lt_ge_cases k (List.length items)) as [Hin | Hout].
    + rewrite List.nth_error_app1 in Hk by exact Hin. now apply Hitems.
    + rewrite List.nth_error_app2 in Hk by exact Hout.
      destruct (k - List.length items)%nat as [|m] eqn:Hm.
      * assert (k = List.length items) by lia. subst k.
        simpl in Hk. injection Hk as <-. now exists s, e.
      * simpl in Hk. now destruct m.
Qed.

Lemma align_word_aligned st is_last word start_ns end_ns :
  aligned script_lines st ->
  (script_line_idx st < List.length script_lines)%nat ->
  aligned script_lines
    (align_word script_lines st is_last word start_ns end_ns).
Proof.
  intros [Hidx Hline Hitems] Hlt. unfold align_word.
  destruct (_ || _ || is_last).
  - constructor; cbn [sub_index sub_items script_line_idx].
    + rewrite List.length_app, Hidx. simpl. lia.
    + rewrite List.length_app, Hline. simpl. lia.
    + rewrite Hidx, Hline. apply follows_script_snoc; [exact Hitems|].
      now rewrite <- Hline.
  - now constructor.
Qed.

Lemma align_loop_aligned : forall ss os st st',
  aligned script_lines st ->
  align_loop unescape script_lines ss os st = Ok st' ->
  aligned script_lines st'.
Proof.
  induction ss as [|sub ss IH]; intros os st st' Hal Hrun;
    cbn [align_loop] in Hrun.
  - now injection Hrun as <-.
  - destruct (script_line_idx st <? List.length script_lines)%nat eqn:Hlt;
      [|now injection Hrun as <-].
    apply Nat.ltb_lt in Hlt.
    destruct os as [|[start_ns end_ns] os]; [discriminate|].
    destruct (is_nil (list_ascii_of_string (Py.strip (unescape sub)))).
    + now apply (IH os st).
    + eapply IH; [|exact Hrun]. now apply align_word_aligned.
Qed.

Lemma append_remaining_follows sm st r :
  aligned script_lines st ->
  append_remaining script_lines sm st = Ok r ->
  follows_script script_lines (items r)
  /\ (productive script_lines st -> offset sm <> [] -> items r <> []).
Proof.
  intros [Hidx Hline Hitems] Happ. unfold append_remaining in Happ.
  destruct (negb (is_nil (list_ascii_of_string
                            (Py.strip (current_sub_line st))))) eqn:Hpend;
    cbn [andb] in Happ.
  - destruct (script_line_idx st <? List.length script_lines)%nat eqn:Hlt.
    + destruct (List.rev (offset sm)) as [|[s0 last_end] tl];
        [discriminate|].
      injection Happ as <-. cbn [items]. split.
      * rewrite Hidx, Hline. apply follows_script_snoc; [exact Hitems|].
        apply Nat.ltb_lt in Hlt. now rewrite <- Hline.
      * intros _ _. now destruct (sub_items st).
    + injection Happ as <-. cbn [items]. split; [exact Hitems|].
      intros [Hne | [_ Hlt']] _; [exact Hne|].
      apply Nat.ltb_ge in Hlt. lia.
  - injection Happ as <-. cbn [items]. split; [exact Hitems|].
    intros [Hne | [Hnb _]] _; [exact Hne|].
    exfalso. apply Hnb. apply blank_is_nil.
    now apply negb_false_iff in Hpend.
Qed.

Lemma align_word_productive st is_last u start_ns end_ns :
  Py.strip u <> "" ->
  (script_line_idx st < List.length script_lines)%nat ->
  productive script_lines
    (align_word script_lines st is_last (Py.strip u) start_ns end_ns).
Proof.
  intros Hw Hlt. unfold align_word, productive.
  destruct (_ || _ || is_last); cbn [sub_items current_sub_line
                                      script_line_idx].
  - left. now destruct (sub_items st).
  - right. split; [now apply pending_not_blank | exact Hlt].
Qed.

Lemma align_loop_productive : forall ss os st st',
  productive script_lines st ->
  align_loop unescape script_lines ss os st = Ok st' ->
  productive script_lines st'.
Proof.
  induction ss as [|sub ss IH]; intros os st st' Hp Hrun;
    cbn [align_loop] in Hrun.
  - now injection Hrun as <-.
  - destruct (script_line_idx st <? List.length script_lines)%nat eqn:Hlt;
      [|now injection Hrun as <-].
    apply Nat.ltb_lt in Hlt.
    destruct os as [|[start_ns end_ns] os]; [discriminate|].
    destruct (is_nil (list_ascii_of_string (Py.strip (unescape sub))))
      eqn:Hnil.
    + now apply (IH os st).
    + eapply IH; [|exact Hrun].
      apply align_word_productive; [|exact Hlt].
      now apply is_nil_chars_false.
Qed.

Lemma align_loop_first_word : forall ss os st st',
  Exists (fun sub => ~ blank (unescape sub)) ss ->
  (script_line_idx st < List.length script_lines)%nat ->
  align_loop unescape script_lines ss os st = Ok st' ->
  productive script_lines st'.
Proof.
  induction ss as [|sub ss IH]; intros os st st' Hex Hlt Hrun.
  - now apply List.Exists_nil in Hex.
  - cbn [align_loop] in Hrun.
    replace (script_line_idx st <? List.length script_lines)%nat with true
      in Hrun by (symmetry; now apply Nat.ltb_lt).
    destruct os as [|[start_ns end_ns] os]; [discriminate|].
    destruct (is_nil (list_ascii_of_string (Py.strip (unescape sub))))
      eqn:Hnil.
    + apply List.Exists_cons in Hex. destruct Hex as [Hsub | Hrest].
      * exfalso. apply Hsub. now apply blank_is_nil.
      * now apply (IH os st).
    + eapply align_loop_productive; [|exact Hrun].
      apply align_word_productive; [|exact Hlt].
      now apply is_nil_chars_false.
Qed.

Lemma align_loop_blank : forall ss os st,
  Forall (fun sub => blank (unescape sub)) ss ->
  (List.length ss <= List.length os)%nat ->
  align_loop unescape script_lines ss os st = Ok st.
Proof.
  induction ss as [|sub ss IH]; intros os st Hall Hlen; [reflexivity|].
  cbn [align_loop].
  destruct (script_line_idx st <? List.length script_lines)%nat;
    [|reflexivity].
  destruct os as [|[start_ns end_ns] os]; [simpl in Hlen; lia|].
  apply List.Forall_cons_iff in Hall. destruct Hall as [Hsub Hrest].
  apply blank_is_nil in Hsub. rewrite Hsub.
  apply IH; [exact Hrest | simpl in Hlen; lia].
Qed.

Lemma align_loop_returns : forall ss os st,
  (List.length ss <= List.length os)%nat ->
  exists st', align_loop unescape script_lines ss os st = Ok st'.
Proof.
  induction ss as [|sub ss IH]; intros os st Hlen; [now exists st|].
  cbn [align_loop].
  destruct (script_line_idx st <? List.length script_lines)%nat;
    [|now exists st].
  destruct os as [|[start_ns end_ns] os]; [simpl in Hlen; lia|].
  destruct (is_nil (list_ascii_of_string (Py.strip (unescape sub))));
    apply IH; simpl in Hlen; lia.
Qed.

End Loop.

Lemma aligned_start script_lines : aligned script_lines astate0.
Proof.
  constructor; try reflexivity. split; [simpl; lia|].
  intros k item Hk. now destruct k.
Qed.

Lemma append_remaining_returns script_lines sm st :
  offset sm <> [] -> exists r, append_remaining script_lines sm st = Ok r.
Proof.
  intros Hoff. unfold append_remaining.
  destruct (_ && _); [|eexists; reflexivity].
  destruct (List.rev (offset sm)) as [|[s0 last_end] tl] eqn:Hrev.
  - apply (f_equal (@List.rev _)) in Hrev.
    rewrite List.rev_involutive in Hrev. contradiction.
  - eexists. reflexivity.
Qed.

(** X13.  The subtitle items [create_subtitle] writes follow the script,
    not the words spoken: they are numbered from 1 without a gap, the item
    numbered [k + 1] shows the script line of index [k] whatever words fell
    into its block, and there are never more items than script lines. *)
Theorem subtitles_follow_script unescape script_lines sub_maker r :
  create_subtitle unescape script_lines sub_maker = Ok (Some r) ->
  items r <> []
  /\ (List.length (items r) <= List.length script_lines)%nat
  /\ forall k item,
       List.nth_error (items r) k = Some item ->
       exists s e,
         item = formatter (S k) s e (Py.strip (List.nth k script_lines "")).
Proof.
  unfold create_subtitle. intros H.
  destruct sub_maker as [sm|]; [|discriminate].
  destruct (is_nil (offset sm) || is_nil (subs sm)); [discriminate|].
  destruct (is_nil script_lines); [discriminate|].
  destruct (align_loop unescape script_lines (subs sm) (offset sm) astate0)
    as [st|] eqn:Hloop; [|discriminate].
  cbn [rbind] in H.
  destruct (append_remaining script_lines sm st) as [r'|] eqn:Happ;
    [|discriminate].
  cbn [rbind] in H.
  destruct (is_nil (items r')) eqn:Hnil; [discriminate|].
  injection H as <-.
  pose proof (align_loop_aligned unescape script_lines _ _ _ _
                (aligned_start script_lines) Hloop) as Hal.
  destruct (append_remaining_follows script_lines sm st r' Hal Happ)
    as [[Hlen Hitems] _].
  split; [now destruct (items r')|]. split; [exact Hlen | exact Hitems].
Qed.

Lemma subtitles_follow_script_witness :
  create_subtitle no_unescape ["Hello,"; "world."; "Bye."]
                  (Some hello_blank_stream)
  = Ok (Some (SubtitleItems [formatter 1 0 6000000 "Hello,"] true))
  /\ (List.length [formatter 1 0 6000000 "Hello,"]
      <= List.length ["Hello,"; "world."; "Bye."])%nat
  /\ forall k item,
       List.nth_error [formatter 1 0 6000000 "Hello,"] k = Some item ->
       exists s e,
         item = formatter (S k) s e
                  (Py.strip (List.nth k ["Hello,"; "world."; "Bye."] "")).
Proof.
  split; [reflexivity|].
  apply (subtitles_follow_script no_unescape ["Hello,"; "world."; "Bye."]
           (Some hello_blank_stream)
           (SubtitleItems [formatter 1 0 6000000 "Hello,"] true)).
  reflexivity.
Defined.

(** X14.  For a word stream with an offset for every word and a script
    with at least one line, [create_subtitle] raises nothing, and it gives
    up for want of items exactly when every word of the stream is blank:
    one word that is not blank is enough for a subtitle item. *)
Theorem create_subtitle_fails_only_on_blank_words unescape script_lines
    (sm : SubMaker) :
  subs sm <> [] ->
  script_lines <> [] ->
  (List.length (subs sm) <= List.length (offset sm))%nat ->
  (Forall (fun sub => blank (unescape sub)) (subs sm) ->
   create_subtitle unescape script_lines (Some sm) = Ok None)
  /\ (Exists (fun sub => ~ blank (unescape sub)) (subs sm) ->
      exists r,
        create_subtitle unescape script_lines (Some sm) = Ok (Some r)
        /\ items r <> []).
Proof.
  intros Hsubs Hscript Hlen.
  assert (Hoff : offset sm <> []).
  { destruct (offset sm); [|discriminate].
    destruct (subs sm); [congruence | simpl in Hlen; lia]. }
  unfold create_subtitle.
  replace (is_nil (offset sm) || is_nil (subs sm)) with false
    by (destruct (offset sm); [congruence|];
        destruct (subs sm); [congruence | reflexivity]).
  replace (is_nil script_lines) with false
    by (destruct script_lines; [congruence | reflexivity]).
  split.
  - intros Hall.
    rewrite (align_loop_blank unescape script_lines _ _ astate0 Hall Hlen).
    reflexivity.
  - intros Hex.
    destruct (align_loop_returns unescape script_lines _ _ astate0 Hlen)
      as [st Hloop].
    rewrite Hloop. cbn [rbind].
    destruct (append_remaining_returns script_lines sm st Hoff)
      as [r Happ].
    rewrite Happ. cbn [rbind].
    pose proof (align_loop_aligned unescape script_lines _ _ _ _
                  (aligned_start script_lines) Hloop) as Hal.
    assert (Hprod : productive script_lines st).
    { eapply align_loop_first_word; [exact Hex | | exact Hloop].
      destruct script_lines; [congruence | simpl; lia]. }
    destruct (append_remaining_follows script_lines sm st r Hal Happ)
      as [_ Hne].
    specialize (Hne Hprod Hoff).
    exists r. destruct (items r); [congruence|]. now split.
Qed.

Lemma create_subtitle_fails_only_on_blank_words_witness :
  subs hello_blank_stream <> []
  /\ ["Hello,"; "world."] <> []
  /\ (List.length (subs hello_blank_stream)
      <= List.length (offset hello_blank_stream))%nat
  /\ Exists (fun sub => ~ blank (no_unescape sub)) (subs hello_blank_stream)
  /\ (exists r,
        create_subtitle no_unescape ["Hello,"; "world."]
                        (Some hello_blank_stream) = Ok (Some r)
        /\ items r <> [])
  /\ Forall (fun sub => blank (no_unescape sub)) (subs blank_stream)
  /\ create_subtitle no_unescape ["Hello,"; "world."] (Some blank_stream)
     = Ok None.
Proof.
  assert (H1 : subs hello_blank_stream <> []) by discriminate.
  assert (H2 : ["Hello,"; "world."] <> []) by discriminate.
  assert (H3 : (List.length (subs hello_blank_stream)
                <= List.length (offset hello_blank_stream))%nat)
    by (simpl; lia).
  assert (H4 : Exists (fun sub => ~ blank (no_unescape sub))
                      (subs hello_blank_stream)).
  { apply List.Exists_cons_hd. discriminate. }
  assert (H5 : Forall (fun sub => blank (no_unescape sub))
                      (subs blank_stream)).
  { repeat constructor. }
  split; [exact H1|]. split; [exact H2|]. split; [exact H3|].
  split; [exact H4|].
  split;
    [exact (proj2 (create_subtitle_fails_only_on_blank_words
                     no_unescape ["Hello,"; "world."] hello_blank_stream
                     H1 H2 H3) H4)|].
  split; [exact H5|].
  apply (create_subtitle_fails_only_on_blank_words
           no_unescape ["Hello,"; "world."] blank_stream);
    [discriminate | discriminate | simpl; lia | exact H5].
Defined.

End SubtitleFacts.

(** ** Timed words read from the word stream *)

Module StreamFacts.
Import CaptionOverlay AudioGenerator Scenarios.

Local Open Scope Q_scope.

Section Stream.

Variable unescape : string -> string.





Lemma timed_words_loop_before (d : Q) : forall ss os,
  Forall (fun off => fst off / 10000000 <= d /\ snd off / 10000000 <= d)
         os ->
  Forall (fun w => end_ w <= Py.round3 d)
         (timed_words_loop unescape ss os).
Proof.
  induction ss as [|sub ss IH]; intros os Hall; [apply List.Forall_nil|].
  destruct os as [|off os]; [apply List.Forall_nil|].
  apply List.Forall_cons_iff in Hall. destruct Hall as [[Hs He] Hrest].
  cbn [timed_words_loop]. apply List.Forall_cons; [|now apply IH].
  unfold timed_word_of_sub. cbn [end_].
  apply RoundingFacts.round3_mono.
  now destruct (Py.ltb _ _).
Qed.

End Stream.



(** X16.  When no offset of the stream starts or ends after the end of the
    last one, no timed word ends after the duration [get_audio_duration]
    reports, rounded to the millisecond. *)
Theorem timed_words_end_within_audio unescape (sub_maker : option SubMaker) :
  (forall sm,
     sub_maker = Some sm ->
     Forall (fun off =>
               fst off / 10000000 <= get_audio_duration sub_maker
               /\ snd off / 10000000 <= get_audio_duration sub_maker)
            (offset sm)) ->
  Forall (fun w => end_ w <= Py.round3 (get_audio_duration sub_maker))
         (get_timed_words_from_submaker unescape sub_maker).
Proof.
  intros H. destruct sub_maker as [sm|]; [|apply List.Forall_nil].
  specialize (H sm eq_refl).
  unfold get_timed_words_from_submaker.
  destruct (is_nil (subs sm) || is_nil (offset sm));
    [apply List.Forall_nil|].
  now apply timed_words_loop_before.
Qed.

Lemma timed_words_end_within_audio_witness :
  get_audio_duration (Some hello_blank_stream) == 6 # 10
  /\ Forall (fun w =>
               end_ w
               <= Py.round3 (get_audio_duration (Some hello_blank_stream)))
            (get_timed_words_from_submaker no_unescape
               (Some hello_blank_stream)).
Proof.
  split; [reflexivity|].
  apply (timed_words_end_within_audio no_unescape (Some hello_blank_stream)).
  intros sm Hsm. injection Hsm as <-.
  repeat constructor; unfold Qle; simpl; lia.
Defined.

End StreamFacts.

(** ** Timed words read from an SRT file *)

Module SrtOrderFacts.
Import CaptionOverlay CaptionGenerator Scenarios.

Local Open Scope Q_scope.

Lemma spread_words_bounds tpw end_time :
  0 <= tpw ->
  forall words cur,
    cur <= end_time ->
    Forall (fun w => Py.round3 cur <= start w /\ start w <= end_ w
                     /\ end_ w <= Py.round3 end_time)
           (spread_words tpw end_time cur words)
    /\ StronglySorted Qle
         (List.map start (spread_words tpw end_time cur words)).
Proof.
  intros Htpw. induction words as [|word rest IH]; intros cur Hcur.
  - split; [apply List.Forall_nil | constructor].
  - cbn [spread_words].
    set (we := Qmin (cur + tpw) end_time).
    assert (Hwe : cur <= we).
    { unfold we. apply Q.min_glb; [lra | exact Hcur]. }
    assert (Hwe' : we <= end_time) by apply Q.le_min_r.
    destruct (IH we Hwe') as [Hall Hsorted].
    pose proof (RoundingFacts.round3_mono _ _ Hwe) as Hr.
    pose proof (RoundingFacts.round3_mono _ _ Hwe') as Hr'.
    split.
    + apply List.Forall_cons.
      * cbn [start end_]. split; [apply Qle_refl|]. now split.
      * eapply List.Forall_impl; [|exact Hall].
        intros w (H1 & H2 & H3). split; [|now split].
        now apply Qle_trans with (Py.round3 we).
    + cbn [List.map start]. constructor; [exact Hsorted|].
      apply List.Forall_forall. intros q Hq.
      apply List.in_map_iff in Hq. destruct Hq as (w & <- & Hw).
      eapply List.Forall_forall in Hall; [|exact Hw].
      destruct Hall as (H1 & _). now apply Qle_trans with (Py.round3 we).
Qed.

(** The words of one block lie between the two time stamps of the block,
    in order. *)
Lemma words_of_match_bounds (m : srt_match) :
  Forall (fun w => parse_srt_time (start_str m) <= start w
                   /\ start w <= end_ w
                   /\ end_ w <= parse_srt_time (end_str m))
         (words_of_match m)
  /\ StronglySorted Qle (List.map start (words_of_match m)).
Proof.
  unfold words_of_match.
  set (st := parse_srt_time (start_str m)).
  set (et := parse_srt_time (end_str m)).
  destruct (Qle_bool (et - st) 0) eqn:Hd;
    [split; [apply List.Forall_nil | constructor]|].
  destruct (block_words m) as [|w0 rest] eqn:Hwords;
    [split; [apply List.Forall_nil | constructor]|].
  assert (Hpos : 0 < et - st).
  { destruct (Qlt_le_dec 0 (et - st)) as [H | H]; [exact H|].
    apply Qle_bool_iff in H. congruence. }
  assert (Hn : 0 < inject_Z (Z.of_nat (List.length (w0 :: rest)))).
  { apply SrtFacts.length_positive. discriminate. }
  assert (Htpw : 0 <= (et - st)
                      / inject_Z (Z.of_nat (List.length (w0 :: rest)))).
  { apply Qlt_le_weak. apply Qlt_shift_div_l; [exact Hn | lra]. }
  destruct (spread_words_bounds _ et Htpw (w0 :: rest) st ltac:(lra))
    as [Hall Hsorted].
  split; [|exact Hsorted].
  eapply List.Forall_impl; [|exact Hall].
  intros w (H1 & H2 & H3).
  unfold st in H1. rewrite SrtFacts.round3_parse_srt_time in H1.
  unfold et in H3. rewrite SrtFacts.round3_parse_srt_time in H3.
  now repeat split.
Qed.

Lemma flat_words_after (bound : Q) (ms : list srt_match) :
  Forall (fun m => bound <= parse_srt_time (start_str m)) ms ->
  Forall (fun w => bound <= start w) (List.flat_map words_of_match ms).
Proof.
  induction ms as [|m ms IH]; intros H; [apply List.Forall_nil|].
  apply List.Forall_cons_iff in H. destruct H as [Hm Hms].
  cbn [List.flat_map]. apply List.Forall_app. split; [|now apply IH].
  destruct (words_of_match_bounds m) as [Hall _].
  eapply List.Forall_impl; [|exact Hall].
  intros w (H1 & _). now apply Qle_trans with (parse_srt_time (start_str m)).
Qed.

(** X17.  Every timed word [convert_srt_to_timed_words] writes starts no
    later than it ends and lies between the two time stamps of its block;
    when no block starts before an earlier block ends, the words come out
    sorted by start, which is what the grouper expects. *)
Theorem srt_words_are_ordered (matches : list srt_match) ws :
  convert_srt_to_timed_words matches = Some ws ->
  Forall (fun w => start w <= end_ w) ws
  /\ (forall m w,
        In m matches -> In w (words_of_match m) ->
        In w ws
        /\ parse_srt_time (start_str m) <= start w
        /\ end_ w <= parse_srt_time (end_str m))
  /\ (StronglySorted
        (fun a b => parse_srt_time (end_str a) <= parse_srt_time (start_str b))
        matches ->
      Sorted Qle (List.map start ws)).
Proof.
  unfold convert_srt_to_timed_words. intros H.
  assert (Hws : ws = List.flat_map words_of_match matches).
  { destruct matches; [discriminate | now injection H as <-]. }
  clear H. subst ws. split; [|split].
  - apply List.Forall_forall. intros w Hw.
    apply List.in_flat_map in Hw. destruct Hw as (m & _ & Hw).
    destruct (words_of_match_bounds m) as [Hall _].
    eapply List.Forall_forall in Hall; [|exact Hw]. tauto.
  - intros m w Hm Hw. split.
    + apply List.in_flat_map. now exists m.
    + destruct (words_of_match_bounds m) as [Hall _].
      eapply List.Forall_forall in Hall; [|exact Hw]. tauto.
  - intros Hsorted. apply StronglySorted_Sorted.
    induction matches as [|m ms IH]; [constructor|].
    apply StronglySorted_inv in Hsorted. destruct Hsorted as [Hms Hhd].
    cbn [List.flat_map]. rewrite List.map_app.
    destruct (words_of_match_bounds m) as [Hall Hblock].
    apply StronglySorted_app_2; [|exact Hblock | now apply IH].
    intros x y Hx Hy.
    apply list_elem_of_In in Hx, Hy.
    apply List.in_map_iff in Hx. destruct Hx as (w & <- & Hw).
    apply List.in_map_iff in Hy. destruct Hy as (w' & <- & Hw').
    eapply List.Forall_forall in Hall; [|exact Hw].
    destruct Hall as (_ & H2 & H3).
    pose proof (flat_words_after _ ms Hhd) as Hafter.
    eapply List.Forall_forall in Hafter; [|exact Hw'].
    apply Qle_trans with (end_ w); [exact H2|].
    now apply Qle_trans with (parse_srt_time (end_str m)).
Qed.

Lemma srt_words_are_ordered_witness :
  convert_srt_to_timed_words [dummy_block]
  = Some (List.flat_map words_of_match [dummy_block])
  /\ Forall (fun w => start w <= end_ w)
            (List.flat_map words_of_match [dummy_block])
  /\ Sorted Qle
       (List.map start (List.flat_map words_of_match [dummy_block])).
Proof.
  split; [reflexivity|].
  destruct (srt_words_are_ordered [dummy_block]
              (List.flat_map words_of_match [dummy_block]) eq_refl)
    as (Hspans & _ & Hsorted).
  split; [exact Hspans|].
  apply Hsorted. repeat constructor.
Defined.

End SrtOrderFacts.

(** ** The numbering of the generated images *)

Module NumberingFacts.
Import VideoComposer ImageGenerator Scenarios.

Lemma generate_images_succ (k : nat) (dir : list string) :
  generate_images (S k) dir = save_image (generate_images k dir).
Proof. reflexivity. Qed.

Lemma generate_images_beyond_ten (j : nat) :
  generate_images (10 + j) [] = ten_images.
Proof.
  induction j as [|j IH]; [reflexivity|].
  replace (10 + S j)%nat with (S (10 + j)) by lia.
  rewrite generate_images_succ, IH. reflexivity.
Qed.

(** X18.  In a directory that starts empty, [generate_images] names its
    files [1.jpeg] to [10.jpeg] and then stops counting: the last name of
    the sorted listing is then [9.jpeg], so the eleventh image and all the
    following ones are written over [10.jpeg], and the directory never holds
    more than ten images whatever the number of prompts. *)
Theorem image_numbering_stops_at_ten (prompts : nat) :
  generate_images prompts [] = List.firstn prompts ten_images
  /\ List.length (sorted (glob_jpeg (generate_images prompts [])))
     = Nat.min prompts 10
  /\ ((10 <= prompts)%nat ->
      next_number (generate_images prompts []) = 10%N).
Proof.
  destruct (Nat.lt_ge_cases prompts 10) as [Hlt | Hge].
  - do 10 (destruct prompts as [|prompts];
           [split; [reflexivity | split; [reflexivity | lia]]|]).
    lia.
  - replace prompts with (10 + (prompts - 10))%nat by lia.
    rewrite generate_images_beyond_ten.
    split; [symmetry; apply List.firstn_all2; simpl; lia|].
    split; [rewrite Nat.min_r by lia; reflexivity | reflexivity].
Qed.

Lemma image_numbering_stops_at_ten_witness :
  (10 <= 12)%nat
  /\ generate_images 12 [] = ten_images
  /\ next_number (generate_images 12 []) = 10%N.
Proof.
  split; [lia|].
  destruct (image_numbering_stops_at_ten 12) as (Hdir & _ & Hnext).
  split; [exact Hdir | apply Hnext; lia].
Defined.

(** X23.  [generate_images] and the scene loop agree on the order of the
    images as long as there are at most nine: the sorted listing of the
    composer is then the order of generation, so that the scene of type
    [ai_image] that comes after [j] others gets the image generated from
    the prompt of index [j].  From ten images on the listing puts
    [10.jpeg] second. *)
Theorem listing_is_generation_order_up_to_nine env (prompts : nat) :
  ai_images_dir env = generate_images prompts [] ->
  ((prompts <= 9)%nat ->
   ai_image_files env = List.firstn prompts ten_images
   /\ forall j, (j < prompts)%nat ->
        List.nth_error (ai_image_files env) j
        = Some (Py.str_of_N (N.of_nat (S j)) ++ ".jpeg")%string)
  /\ ((10 <= prompts)%nat ->
      List.nth_error (ai_image_files env) 1 = Some "10.jpeg").
Proof.
  intros Hdir. unfold ai_image_files. rewrite Hdir. split.
  - intros Hle.
    do 10 (destruct prompts as [|prompts];
           [split; [reflexivity|];
            intros j Hj;
            do 9 (destruct j as [|j]; [reflexivity || lia|]); lia|]).
    lia.
  - intros Hge.
    replace prompts with (10 + (prompts - 10))%nat by lia.
    now rewrite generate_images_beyond_ten.
Qed.

Lemma listing_is_generation_order_up_to_nine_witness :
  ai_images_dir image_assets = generate_images 12 []
  /\ (10 <= 12)%nat
  /\ List.nth_error (ai_image_files image_assets) 1 = Some "10.jpeg".
Proof.
  split; [reflexivity|]. split; [lia|].
  apply (proj2 (listing_is_generation_order_up_to_nine image_assets 12
                  eq_refl)).
  lia.
Defined.

End NumberingFacts.

(** ** The lines of a subtitle block *)

Module LineFacts.
Import CaptionOverlay AudioGenerator Lines Scenarios.

(** The first character is not a blank. *)
Lemma lstrip_headed (c : ascii) (l : list ascii) :
  Py.is_space c = false -> Py.lstrip_chars (c :: l) = c :: l.
Proof. intros H. simpl. now rewrite H. Qed.

Lemma nonspace_in (l : list ascii) (c : ascii) :
  forallb (fun c => negb (Py.is_space c)) l = true ->
  In c l -> Py.is_space c = false.
Proof.
  intros H Hc. rewrite List.forallb_forall in H.
  apply negb_true_iff. now apply H.
Qed.

Lemma split_ws_aux_tokens : forall (s cur : list ascii),
  forallb (fun c => negb (Py.is_space c)) cur = true ->
  Forall token (Py.split_ws_aux cur s).
Proof.
  assert (Hflush : forall cur rest,
             forallb (fun c => negb (Py.is_space c)) cur = true ->
             Forall token rest ->
             Forall token
               match cur with
               | [] => rest
               | _ => string_of_list_ascii (rev cur) :: rest
               end).
  { intros cur rest Hcur Hrest. destruct cur as [|c cur']; [exact Hrest|].
    apply List.Forall_cons; [|exact Hrest]. split.
    - intros H. apply (f_equal list_ascii_of_string) in H.
      rewrite list_ascii_of_string_of_list_ascii in H. simpl in H.
      now destruct (rev cur').
    - rewrite list_ascii_of_string_of_list_ascii.
      rewrite List.forallb_forall in *. intros x Hx.
      apply Hcur. now apply List.in_rev. }
  induction s as [|c s IH]; intros cur Hcur; cbn [Py.split_ws_aux].
  - apply Hflush; [exact Hcur | apply List.Forall_nil].
  - destruct (Py.is_space c) eqn:Hc.
    + apply Hflush; [exact Hcur | now apply IH].
    + apply IH. simpl. now rewrite Hc.
Qed.

Lemma split_tokens (s : string) : Forall token (Py.split s).
Proof. now apply split_ws_aux_tokens. Qed.

(** A string that neither starts nor ends with a blank. *)
Lemma strip_clean (l : list ascii) (c d : ascii) (l1 l2 : list ascii) :
  l = c :: l1 -> rev l = d :: l2 ->
  Py.is_space c = false -> Py.is_space d = false ->
  Py.strip (string_of_list_ascii (" "%char :: l)) = string_of_list_ascii l.
Proof.
  intros Hl Hr Hc Hd. unfold Py.strip.
  rewrite list_ascii_of_string_of_list_ascii.
  change (Py.lstrip_chars (" "%char :: l)) with (Py.lstrip_chars l).
  rewrite Hl, (lstrip_headed c l1 Hc), <- Hl.
  rewrite Hr, (lstrip_headed d l2 Hd), <- Hr.
  now rewrite List.rev_involutive.
Qed.

Lemma token_ends (w : string) :
  token w ->
  exists c l1 d l2,
    list_ascii_of_string w = c :: l1
    /\ rev (list_ascii_of_string w) = d :: l2
    /\ Py.is_space c = false /\ Py.is_space d = false.
Proof.
  intros [Hne Hall].
  destruct (list_ascii_of_string w) as [|c l1] eqn:Hw.
  - exfalso. apply Hne. rewrite <- (string_of_list_ascii_of_string w), Hw.
    reflexivity.
  - destruct (rev (c :: l1)) as [|d l2] eqn:Hrev.
    + apply (f_equal (@List.length _)) in Hrev.
      rewrite List.length_rev in Hrev. discriminate.
    + exists c, l1, d, l2. split; [reflexivity|]. split; [reflexivity|].
      split; [apply (nonspace_in _ c Hall); now left|].
      apply (nonspace_in _ d Hall). apply List.in_rev.
      rewrite Hrev. now left.
Qed.

(** Tokens joined by single spaces start and end with a character that is
    not blank. *)
Lemma join_ends (c0 : list string) :
  Forall token c0 -> c0 <> [] ->
  exists c l1 d l2,
    list_ascii_of_string (Py.join " " c0) = c :: l1
    /\ rev (list_ascii_of_string (Py.join " " c0)) = d :: l2
    /\ Py.is_space c = false /\ Py.is_space d = false.
Proof.
  induction c0 as [|w rest IH]; intros Hall Hne; [congruence|].
  apply List.Forall_cons_iff in Hall. destruct Hall as [Hw Hrest].
  destruct rest as [|w' rest'].
  - now apply token_ends.
  - destruct (token_ends w Hw) as (c & l1 & _ & _ & Hc & _ & Hsc & _).
    destruct (IH Hrest ltac:(discriminate))
      as (_ & _ & d & l2 & _ & Hd & _ & Hsd).
    change (Py.join " " (w :: w' :: rest'))
      with (w ++ " " ++ Py.join " " (w' :: rest'))%string.
    rewrite !DigitFacts.list_ascii_app, Hc.
    exists c. eexists. exists d. eexists.
    split; [reflexivity|]. split; [|now split].
    rewrite <- Hc, !List.rev_app_distr, Hd. reflexivity.
Qed.

Lemma pending_snoc (cur : list string) (w : string) :
  pending (cur ++ [w]) = (pending cur ++ " " ++ w)%string.
Proof. unfold pending. now rewrite List.fold_left_app. Qed.

Lemma pending_join (cur : list string) :
  cur <> [] -> pending cur = (" " ++ Py.join " " cur)%string.
Proof.
  induction cur as [|w cur IH] using List.rev_ind; intros Hne; [congruence|].
  rewrite pending_snoc.
  destruct cur as [|w0 cur0]; [reflexivity|].
  rewrite IH by discriminate.
  rewrite GroupingFacts.join_app by discriminate.
  now rewrite !GroupingFacts.string_app_assoc.
Qed.

Lemma strip_pending (cur : list string) :
  Forall token cur -> cur <> [] ->
  Py.strip (pending cur) = Py.join " " cur /\ Py.join " " cur <> "".
Proof.
  intros Hall Hne.
  destruct (join_ends cur Hall Hne) as (c & l1 & d & l2 & Hc & Hd & Hsc & Hsd).
  rewrite (pending_join cur Hne). split.
  - rewrite <- (string_of_list_ascii_of_string (Py.join " " cur)) at 1.
    change (" " ++ string_of_list_ascii
                     (list_ascii_of_string (Py.join " " cur)))%string
      with (string_of_list_ascii
              (" "%char :: list_ascii_of_string (Py.join " " cur))).
    rewrite (strip_clean _ c d l1 l2 Hc Hd Hsc Hsd).
    apply string_of_list_ascii_of_string.
  - intros H. rewrite H in Hc. discriminate.
Qed.

(** The loop on strings builds the lines the loop on word lists describes. *)
Lemma wrap_lines_chunks (n : nat) : forall (ws : list string) i cur,
  Forall token cur -> Forall token ws ->
  wrap_lines n i (pending cur) ws
  = List.map (Py.join " ") (chunks n i cur ws).
Proof.
  induction ws as [|w rest IH]; intros i cur Hcur Hws.
  - cbn [wrap_lines chunks]. destruct cur as [|w0 cur0]; [reflexivity|].
    destruct (strip_pending (w0 :: cur0) Hcur ltac:(discriminate))
      as [-> Hne].
    cbn [is_nil List.map].
    destruct (list_ascii_of_string (Py.join " " (w0 :: cur0))) eqn:Hj;
      [|reflexivity].
    exfalso. apply Hne.
    rewrite <- (string_of_list_ascii_of_string (Py.join " " (w0 :: cur0))).
    now rewrite Hj.
  - apply List.Forall_cons_iff in Hws. destruct Hws as [Hw Hrest].
    assert (Hcur' : Forall token (cur ++ [w])).
    { apply List.Forall_app. split; [exact Hcur|].
      apply List.Forall_cons; [exact Hw | apply List.Forall_nil]. }
    cbn [wrap_lines chunks]. rewrite <- pending_snoc.
    destruct (((S i) mod 5 =? 0) && (i <? n - 1))%nat.
    + cbn [List.map].
      destruct (strip_pending (cur ++ [w]) Hcur'
                  ltac:(now destruct cur)) as [-> _].
      f_equal. apply (IH (S i) []); [apply List.Forall_nil | exact Hrest].
    + now apply IH.
Qed.

Lemma chunks_concat (n : nat) : forall (ws : list string) i cur,
  List.concat (chunks n i cur ws) = cur ++ ws.
Proof.
  induction ws as [|w rest IH]; intros i cur; cbn [chunks].
  - destruct cur; simpl; now rewrite ?List.app_nil_r.
  - destruct (((S i) mod 5 =? 0) && (i <? n - 1))%nat.
    + cbn [List.concat]. rewrite IH, <- List.app_assoc. reflexivity.
    + rewrite IH, <- List.app_assoc. reflexivity.
Qed.

Lemma mod5_succ (i : nat) :
  ((S i mod 5 = 0 /\ i mod 5 = 4) \/ S i mod 5 = S (i mod 5))%nat.
Proof.
  pose proof (Nat.div_mod_eq i 5) as Hi.
  pose proof (Nat.mod_upper_bound i 5 ltac:(lia)) as Hr.
  destruct (Nat.eq_dec (i mod 5) 4) as [H4 | H4].
  - left. split; [|exact H4].
    symmetry. apply (Nat.mod_unique (S i) 5 (S (i / 5))); lia.
  - right. symmetry. apply (Nat.mod_unique (S i) 5 (i / 5)); lia.
Qed.

(** Every line but the last holds five words, the last one to five. *)
Lemma chunks_sizes (n : nat) : forall (ws : list string) i cur,
  n = (i + List.length ws)%nat ->
  List.length cur = (i mod 5)%nat ->
  Forall (fun c => (1 <= List.length c <= 5)%nat) (chunks n i cur ws)
  /\ Forall (fun c => List.length c = 5%nat)
            (List.removelast (chunks n i cur ws)).
Proof.
  induction ws as [|w rest IH]; intros i cur Hn Hcur; cbn [chunks].
  - pose proof (Nat.mod_upper_bound i 5 ltac:(lia)) as Hr.
    destruct cur as [|w0 cur0]; cbn [is_nil].
    + split; apply List.Forall_nil.
    + split; [|apply List.Forall_nil].
      apply List.Forall_cons; [|apply List.Forall_nil].
      cbn [List.length] in *. lia.
  - assert (Hlen : List.length (cur ++ [w]) = S (i mod 5))
      by (rewrite List.length_app, Hcur; cbn [List.length]; lia).
    destruct (mod5_succ i) as [[H0 H4] | Hs].
    + rewrite H0. cbn [Nat.eqb andb].
      destruct rest as [|w' rest'].
      * replace (i <? n - 1)%nat with false
          by (symmetry; apply Nat.ltb_ge; simpl in Hn; lia).
        cbn [chunks].
        replace (is_nil (cur ++ [w])) with false by now destruct cur.
        split; [|apply List.Forall_nil].
        apply List.Forall_cons; [lia | apply List.Forall_nil].
      * replace (i <? n - 1)%nat with true
          by (symmetry; apply Nat.ltb_lt; simpl in Hn; lia).
        destruct (IH (S i) [] ltac:(simpl in *; lia)
                     ltac:(now rewrite H0)) as [Hall Hinit].
        split; [apply List.Forall_cons; [lia | exact Hall]|].
        destruct (chunks n (S i) [] (w' :: rest')) as [|c cs] eqn:Hch.
        -- pose proof (chunks_concat n (w' :: rest') (S i) []) as Hc.
           rewrite Hch in Hc. discriminate.
        -- change (List.removelast ((cur ++ [w]) :: c :: cs))
             with ((cur ++ [w]) :: List.removelast (c :: cs)).
           apply List.Forall_cons; [lia | exact Hinit].
    + replace ((S i) mod 5 =? 0)%nat with false
        by (symmetry; apply Nat.eqb_neq; lia).
      cbn [andb].
      apply (IH (S i)); [simpl in *; lia | lia].
Qed.

Lemma kept_joined (cs : list (list string)) :
  Forall token (List.concat cs) ->
  Forall (fun c => (1 <= List.length c)%nat) cs ->
  Voice.kept (List.map (Py.join " ") cs) = List.map (Py.join " ") cs.
Proof.
  induction cs as [|c cs IH]; intros Htok Hlen; [reflexivity|].
  cbn [List.concat] in Htok. apply List.Forall_app in Htok.
  destruct Htok as [Hc Hcs].
  apply List.Forall_cons_iff in Hlen. destruct Hlen as [H1 Hlen].
  cbn [List.map]. rewrite WrapFacts.kept_one, (IH Hcs Hlen).
  destruct (strip_pending c Hc ltac:(destruct c; [simpl in H1; lia
                                                 | discriminate]))
    as [_ Hne].
  destruct (list_ascii_of_string (Py.join " " c)) eqn:Hj; [|reflexivity].
  exfalso. apply Hne.
  rewrite <- (string_of_list_ascii_of_string (Py.join " " c)).
  now rewrite Hj.
Qed.

(** X19.  The text of a subtitle block is the words of its script line, in
    order and none missing, separated by single spaces and set five to a
    line: every line but the last holds exactly five words, the last one
    between one and five.  This holds for the [formatter] of
    [audio_generator_fr.py] and for the one of [voice.py]. *)
Theorem subtitle_text_has_five_words_a_line (sub_text : string) :
  exists lines : list (list string),
    List.concat lines = Py.split sub_text
    /\ Forall (fun c => (1 <= List.length c <= 5)%nat) lines
    /\ Forall (fun c => List.length c = 5%nat) (List.removelast lines)
    /\ Voice.formatted_text sub_text
       = Py.join newline (List.map (Py.join " ") lines)
    /\ forall idx start_time_ns end_time_ns,
         formatter idx start_time_ns end_time_ns sub_text
         = (Py.str_of_N (N.of_nat idx) ++ newline
            ++ format_time_srt (start_time_ns / 10000000) ++ " --> "
            ++ format_time_srt (end_time_ns / 10000000) ++ newline
            ++ Py.join newline (List.map (Py.join " ") lines)
            ++ newline)%string.
Proof.
  set (words := Py.split sub_text).
  set (lines := chunks (List.length words) 0 [] words).
  pose proof (split_tokens sub_text) as Htok. fold words in Htok.
  pose proof (chunks_concat (List.length words) words 0 []) as Hconcat.
  fold lines in Hconcat. simpl in Hconcat.
  destruct (chunks_sizes (List.length words) words 0 [] eq_refl eq_refl)
    as [Hsizes Hinit].
  fold lines in Hsizes, Hinit.
  pose proof (wrap_lines_chunks (List.length words) words 0 []
                (List.Forall_nil _) Htok) as Hwrap.
  change (pending []) with "" in Hwrap. fold lines in Hwrap.
  assert (Hkept : Voice.kept (List.map (Py.join " ") lines)
                  = List.map (Py.join " ") lines).
  { apply kept_joined; [now rewrite Hconcat|].
    eapply List.Forall_impl; [|exact Hsizes].
    intros c Hc. cbv beta in Hc. now destruct Hc. }
  exists lines.
  split; [exact Hconcat|]. split; [exact Hsizes|]. split; [exact Hinit|].
  split.
  - unfold Voice.formatted_text. cbv zeta. fold words.
    rewrite <- (proj1 (WrapFacts.wrap_lines_agree (List.length words) words
                         0 "" "" eq_refl) eq_refl (or_introl eq_refl)).
    now rewrite Hwrap, Hkept.
  - intros idx s e. unfold formatter. cbv zeta. fold words.
    rewrite Hwrap.
    change (List.filter
              (fun l => negb (is_nil (list_ascii_of_string l)))
              (List.map (Py.join " ") lines))
      with (Voice.kept (List.map (Py.join " ") lines)).
    now rewrite Hkept.
Qed.

End LineFacts.

(** ** The speaking rate as a percentage *)

Module RateFacts.
Import AudioGenerator.

Local Open Scope Q_scope.






End RateFacts.

(** ** The script text before it is cut into lines *)

Module TextFacts.
Import CaptionOverlay AudioGenerator Lines.

(** The words of [str.split()] are made of characters of the string. *)
Lemma split_ws_aux_chars (P : ascii -> bool) : forall (s cur : list ascii),
  forallb P cur = true -> forallb P s = true ->
  Forall (fun w => forallb P (list_ascii_of_string w) = true)
         (Py.split_ws_aux cur s).
Proof.
  assert (Hflush : forall cur rest,
             forallb P cur = true ->
             Forall (fun w => forallb P (list_ascii_of_string w) = true)
                    rest ->
             Forall (fun w => forallb P (list_ascii_of_string w) = true)
               match cur with
               | [] => rest
               | _ => string_of_list_ascii (rev cur) :: rest
               end).
  { intros cur rest Hcur Hrest. destruct cur as [|c cur']; [exact Hrest|].
    apply List.Forall_cons; [|exact Hrest].
    rewrite list_ascii_of_string_of_list_ascii.
    rewrite List.forallb_forall in *. intros x Hx.
    apply Hcur. now apply List.in_rev. }
  induction s as [|c s IH]; intros cur Hcur Hs; cbn [Py.split_ws_aux].
  - apply Hflush; [exact Hcur | apply List.Forall_nil].
  - simpl in Hs. apply andb_true_iff in Hs. destruct Hs as [Hc Hs].
    destruct (Py.is_space c).
    + apply Hflush; [exact Hcur|]. now apply IH.
    + apply IH; [|exact Hs]. simpl. now rewrite Hc.
Qed.

Lemma split_ws_aux_word : forall (w cur rest : list ascii),
  forallb (fun c => negb (Py.is_space c)) w = true ->
  rev cur ++ w <> [] ->
  Py.split_ws_aux cur (w ++ " "%char :: rest)
  = string_of_list_ascii (rev cur ++ w) :: Py.split_ws_aux [] rest.
Proof.
  induction w as [|c w IH]; intros cur rest Hw Hne.
  - rewrite List.app_nil_r in *. cbn [List.app Py.split_ws_aux].
    change (Py.is_space " "%char) with true. cbv iota.
    destruct cur as [|c0 cur0]; [now simpl in Hne | reflexivity].
  - simpl in Hw. apply andb_true_iff in Hw. destruct Hw as [Hc Hw].
    apply negb_true_iff in Hc.
    cbn [List.app Py.split_ws_aux]. rewrite Hc.
    rewrite (IH (c :: cur) rest Hw).
    + simpl. now rewrite <- List.app_assoc.
    + simpl. rewrite <- List.app_assoc. now destruct (rev cur).
Qed.

Lemma split_ws_aux_last : forall (w cur : list ascii),
  forallb (fun c => negb (Py.is_space c)) w = true ->
  rev cur ++ w <> [] ->
  Py.split_ws_aux cur w = [string_of_list_ascii (rev cur ++ w)].
Proof.
  induction w as [|c w IH]; intros cur Hw Hne.
  - rewrite List.app_nil_r in *. cbn [Py.split_ws_aux].
    destruct cur as [|c0 cur0]; [now simpl in Hne | reflexivity].
  - simpl in Hw. apply andb_true_iff in Hw. destruct Hw as [Hc Hw].
    apply negb_true_iff in Hc.
    cbn [Py.split_ws_aux]. rewrite Hc.
    rewrite (IH (c :: cur) Hw).
    + simpl. now rewrite <- List.app_assoc.
    + simpl. rewrite <- List.app_assoc. now destruct (rev cur).
Qed.

Lemma token_chars (w : string) :
  token w ->
  forallb (fun c => negb (Py.is_space c)) (list_ascii_of_string w) = true
  /\ list_ascii_of_string w <> [].
Proof.
  intros [Hne Hall]. split; [exact Hall|]. intros H. apply Hne.
  rewrite <- (string_of_list_ascii_of_string w), H. reflexivity.
Qed.

(** Splitting what was joined with single spaces gives the words back. *)
Lemma split_join (ws : list string) :
  Forall token ws -> Py.split (Py.join " " ws) = ws.
Proof.
  induction ws as [|w rest IH]; intros Hall; [reflexivity|].
  apply List.Forall_cons_iff in Hall. destruct Hall as [Hw Hrest].
  destruct (token_chars w Hw) as [Hchars Hne].
  unfold Py.split. destruct rest as [|w' rest'].
  - change (Py.join " " [w]) with w.
    rewrite (split_ws_aux_last _ [] Hchars Hne). simpl.
    now rewrite string_of_list_ascii_of_string.
  - change (Py.join " " (w :: w' :: rest'))
      with (w ++ " " ++ Py.join " " (w' :: rest'))%string.
    rewrite !DigitFacts.list_ascii_app.
    change (list_ascii_of_string " " ++ ?l) with (" "%char :: l).
    rewrite (split_ws_aux_word _ [] _ Hchars Hne). simpl rev. simpl List.app.
    rewrite string_of_list_ascii_of_string. f_equal.
    apply (IH Hrest).
Qed.

Lemma strip_joined (ws : list string) :
  Forall token ws -> Py.strip (Py.join " " ws) = Py.join " " ws.
Proof.
  intros Hall. destruct ws as [|w rest]; [reflexivity|].
  destruct (LineFacts.strip_pending (w :: rest) Hall ltac:(discriminate))
    as [Hs _].
  rewrite <- Hs at 2.
  rewrite (LineFacts.pending_join (w :: rest)) by discriminate.
  now apply WrapFacts.strip_lstrip_eq.
Qed.

Lemma joined_chars (P : ascii -> bool) (ws : list string) :
  P " "%char = true ->
  Forall (fun w => forallb P (list_ascii_of_string w) = true) ws ->
  forallb P (list_ascii_of_string (Py.join " " ws)) = true.
Proof.
  intros Hsp. induction ws as [|w rest IH]; intros Hall; [reflexivity|].
  apply List.Forall_cons_iff in Hall. destruct Hall as [Hw Hrest].
  destruct rest as [|w' rest']; [exact Hw|].
  change (Py.join " " (w :: w' :: rest'))
    with (w ++ " " ++ Py.join " " (w' :: rest'))%string.
  rewrite !DigitFacts.list_ascii_app, !List.forallb_app, Hw.
  simpl. rewrite Hsp. simpl. now apply IH.
Qed.

Lemma brackets_to_spaces_chars (text : string) :
  forallb (fun c => negb (is_bracket c))
          (list_ascii_of_string (brackets_to_spaces text)) = true.
Proof.
  unfold brackets_to_spaces. rewrite list_ascii_of_string_of_list_ascii.
  induction (list_ascii_of_string text) as [|c l IH]; [reflexivity|].
  simpl. rewrite IH.
  destruct (is_bracket c) eqn:Hc; [reflexivity|]. now rewrite Hc.
Qed.

Lemma brackets_to_spaces_plain (text : string) :
  forallb (fun c => negb (is_bracket c)) (list_ascii_of_string text) = true ->
  brackets_to_spaces text = text.
Proof.
  unfold brackets_to_spaces. intros H.
  rewrite <- (string_of_list_ascii_of_string text) at 2. f_equal.
  induction (list_ascii_of_string text) as [|c l IH]; [reflexivity|].
  simpl in H. apply andb_true_iff in H. destruct H as [Hc Hl].
  apply negb_true_iff in Hc. simpl. rewrite Hc. f_equal. now apply IH.
Qed.

(** X21.  [_format_text] returns the words of the text, brackets counting
    as blanks, joined by single spaces: the result has no bracket, splits
    into the same words, and formatting it again changes nothing. *)
Theorem format_text_normalises (text : string) :
  let words := Py.split (brackets_to_spaces text) in
  _format_text text = Py.join " " words
  /\ Py.split (_format_text text) = words
  /\ forallb (fun c => negb (is_bracket c))
             (list_ascii_of_string (_format_text text)) = true
  /\ _format_text (_format_text text) = _format_text text.
Proof.
  intros words.
  pose proof (LineFacts.split_tokens (brackets_to_spaces text)) as Htok.
  fold words in Htok.
  assert (Hfmt : _format_text text = Py.join " " words).
  { unfold _format_text. cbv zeta. fold words. now apply strip_joined. }
  assert (Hplain : forallb (fun c => negb (is_bracket c))
                           (list_ascii_of_string (Py.join " " words))
                   = true).
  { apply joined_chars; [reflexivity|].
    apply split_ws_aux_chars; [reflexivity|].
    apply brackets_to_spaces_chars. }
  rewrite Hfmt.
  split; [reflexivity|]. split; [now apply split_join|].
  split; [exact Hplain|].
  unfold _format_text. cbv zeta.
  rewrite (brackets_to_spaces_plain _ Hplain), (split_join words Htok).
  now apply strip_joined.
Qed.

End TextFacts.

(** ** The script cut into lines at the punctuation marks *)

Module PunctuationFacts.
Import CaptionOverlay AudioGenerator Lines.

Lemma marks_facts :
  Forall (fun m => m <> [] /\ inked m = m /\ ~ In lt_char m) marks.
Proof.
  repeat (apply List.Forall_cons || apply List.Forall_nil);
    (split; [discriminate|]; split; [reflexivity|]);
    simpl; intros H; repeat (destruct H as [H | H]; [discriminate H|]);
    exact H.
Qed.

Lemma mark_facts (m : list ascii) :
  In m marks -> m <> [] /\ inked m = m /\ ~ In lt_char m.
Proof.
  intros H. pose proof marks_facts as Hall.
  rewrite List.Forall_forall in Hall. now apply Hall.
Qed.

(** A mark neither starts nor ends with a blank, and no mark starts inside
    a mark. *)
Lemma marks_ends :
  Forall (fun m =>
            (exists c l, m = c :: l /\ Py.is_space c = false)
            /\ (exists d l, rev m = d :: l /\ Py.is_space d = false)
            /\ (forall l b, m = l ++ b -> l <> [] -> mark_at b = None))
         marks.
Proof.
  repeat (apply List.Forall_cons || apply List.Forall_nil);
    (split; [eexists; eexists; split; reflexivity|]);
    (split; [eexists; eexists; split; reflexivity|]);
    intros l b H Hl;
    destruct l as [|x1 [|x2 [|x3 [|x4 l]]]]; try congruence;
    simpl in H; try discriminate H;
    injection H; intros; subst; reflexivity.
Qed.

Lemma mark_ends (m : list ascii) :
  In m marks ->
  (exists c l, m = c :: l /\ Py.is_space c = false)
  /\ (exists d l, rev m = d :: l /\ Py.is_space d = false)
  /\ (forall l b, m = l ++ b -> l <> [] -> mark_at b = None).
Proof.
  intros H. pose proof marks_ends as Hall.
  rewrite List.Forall_forall in Hall. now apply Hall.
Qed.

Lemma starts_with_app (p s : list ascii) :
  starts_with p s = true -> s = p ++ List.skipn (List.length p) s.
Proof.
  revert s. induction p as [|a p IH]; intros s H; [reflexivity|].
  destruct s as [|b s]; [discriminate|]. simpl in H.
  apply andb_true_iff in H. destruct H as [Hab Hp].
  apply Ascii.eqb_eq in Hab. subst b. simpl. f_equal. now apply IH.
Qed.

Lemma starts_with_more (p s x : list ascii) :
  starts_with p s = true -> starts_with p (s ++ x) = true.
Proof.
  revert s. induction p as [|a p IH]; intros s H; [reflexivity|].
  destruct s as [|b s]; [discriminate|]. simpl in *.
  apply andb_true_iff in H. destruct H as [Hab Hp].
  rewrite Hab. simpl. now apply IH.
Qed.

Lemma starts_with_self (p x : list ascii) : starts_with p (p ++ x) = true.
Proof.
  induction p as [|a p IH]; [reflexivity|].
  simpl. now rewrite Ascii.eqb_refl.
Qed.

Lemma mark_at_some (s m : list ascii) :
  mark_at s = Some m -> In m marks /\ starts_with m s = true.
Proof.
  unfold mark_at. intros H.
  apply (List.find_some (fun m => starts_with m s)) in H. exact H.
Qed.

Lemma mark_at_more (s x : list ascii) :
  mark_at s <> None -> mark_at (s ++ x) <> None.
Proof.
  intros H. destruct (mark_at s) as [m|] eqn:Hm; [|congruence].
  apply mark_at_some in Hm. destruct Hm as [Hin Hp].
  intros Hnone. unfold mark_at in Hnone.
  apply (List.find_none _ _ Hnone) in Hin.
  now rewrite (starts_with_more m s x Hp) in Hin.
Qed.

Lemma mark_at_less (s x : list ascii) :
  mark_at (s ++ x) = None -> mark_at s = None.
Proof.
  intros H. destruct (mark_at s) eqn:Hs; [|reflexivity].
  exfalso. apply (mark_at_more s x); [congruence | exact H].
Qed.

Lemma lstrip_suffix (l : list ascii) :
  exists sp, l = sp ++ Py.lstrip_chars l /\ inked sp = [].
Proof.
  induction l as [|c l IH]; [now exists []|].
  simpl. destruct (Py.is_space c) eqn:Hc.
  - destruct IH as (sp & Hl & Hsp). exists (c :: sp).
    split; [simpl; now f_equal|]. unfold inked. simpl. now rewrite Hc.
  - now exists [].
Qed.

Lemma inked_app (a b : list ascii) : inked (a ++ b) = inked a ++ inked b.
Proof. apply List.filter_app. Qed.

Lemma inked_lstrip (l : list ascii) : inked (Py.lstrip_chars l) = inked l.
Proof.
  destruct (lstrip_suffix l) as (sp & Hl & Hsp).
  rewrite Hl at 2. now rewrite inked_app, Hsp.
Qed.

Lemma lstrip_length (l : list ascii) :
  (List.length (Py.lstrip_chars l) <= List.length l)%nat.
Proof.
  destruct (lstrip_suffix l) as (sp & Hl & _).
  rewrite Hl at 2. rewrite List.length_app. lia.
Qed.

Lemma lstrip_in (l : list ascii) (c : ascii) :
  In c (Py.lstrip_chars l) -> In c l.
Proof.
  destruct (lstrip_suffix l) as (sp & Hl & _). intros H.
  rewrite Hl. apply List.in_or_app. now right.
Qed.

Lemma flat_cons (g : list ascii) segs last :
  flat (g :: segs) last = g ++ SPLIT ++ flat segs last.
Proof. unfold flat. simpl. now rewrite <- !List.app_assoc. Qed.

(** What [re.sub] returns: pieces that end with the mark matched, the
    marker after each, and the rest of the string. *)
Lemma re_sub_shape : forall (fuel : nat) (s : list ascii),
  (List.length s < fuel)%nat ->
  ~ In lt_char s ->
  exists segs last,
    re_sub fuel s = flat segs last
    /\ Forall marked segs
    /\ Forall (fun g => ~ In lt_char g) segs
    /\ ~ In lt_char last
    /\ quiet last []
    /\ inked (List.concat segs ++ last) = inked s
    /\ (segs = [] -> last = s)
    /\ (forall g gs, segs = g :: gs -> exists rest, s = g ++ rest).
Proof.
  induction fuel as [|fuel IH]; intros s Hlen Hlt; [lia|].
  destruct s as [|c s'].
  - exists [], []. cbn [re_sub]. repeat split; try constructor; auto.
    + intros a b Hab Hb. now destruct a, b.
    + intros g gs H. discriminate.
  - cbn [re_sub]. destruct (mark_at (c :: s')) as [m|] eqn:Hmark.
    + (* a mark starts here *)
      destruct (mark_at_some _ _ Hmark) as [Hin Hpre].
      destruct (mark_facts m Hin) as (Hne & Hink & Hmlt).
      pose proof (starts_with_app _ _ Hpre) as Hs.
      set (rest := List.skipn (List.length m) (c :: s')) in *.
      assert (Hrlen : (List.length rest < List.length (c :: s'))%nat).
      { apply (f_equal (@List.length _)) in Hs.
        rewrite List.length_app in Hs.
        destruct m; [congruence | simpl in *; lia]. }
      destruct (IH (Py.lstrip_chars rest)) as
        (segs & last & Hsub & Hmk & Hfree & Hlast & Hq & Hcontent & _ & _).
      { pose proof (lstrip_length rest). simpl in *. lia. }
      { intros H. apply lstrip_in in H. apply Hlt. rewrite Hs.
        apply List.in_or_app. now right. }
      exists (m :: segs), last. rewrite Hsub, flat_cons.
      split; [reflexivity|].
      split.
      { apply List.Forall_cons; [|exact Hmk].
        exists [], m. split; [exact Hin|]. split; [reflexivity|].
        intros a b Hab Hb. now destruct a, b. }
      split; [now apply List.Forall_cons|].
      split; [exact Hlast|]. split; [exact Hq|].
      split.
      { cbn [List.concat]. rewrite <- List.app_assoc, inked_app, Hcontent.
        rewrite inked_lstrip, <- inked_app, <- Hs. reflexivity. }
      split; [discriminate|].
      intros g gs Hg. injection Hg as <- <-. now exists rest.
    + (* the character is copied *)
      destruct (IH s') as
        (segs & last & Hsub & Hmk & Hfree & Hlast & Hq & Hcontent
         & Hnil & Hcons).
      { simpl in Hlen. lia. }
      { intros H. apply Hlt. now right. }
      assert (Hc : c <> lt_char) by (intros ->; apply Hlt; now left).
      rewrite Hsub. destruct segs as [|g gs].
      * exists [], (c :: last). specialize (Hnil eq_refl). subst last.
        split; [reflexivity|]. split; [constructor|].
        split; [constructor|].
        split; [intros [H | H]; [now apply Hc | now apply Hlast]|].
        split.
        { intros a b Hab Hb. rewrite List.app_nil_r.
          destruct a as [|a0 a'].
          - simpl in Hab. now subst b.
          - injection Hab as _ Hab.
            specialize (Hq a' b Hab Hb). now rewrite List.app_nil_r in Hq. }
        split; [reflexivity|]. split; [reflexivity | discriminate].
      * exists ((c :: g) :: gs), last.
        apply List.Forall_cons_iff in Hmk. destruct Hmk as [Hg Hgs].
        apply List.Forall_cons_iff in Hfree. destruct Hfree as [Hgf Hgsf].
        destruct (Hcons g gs eq_refl) as [rest Hrest].
        split; [now rewrite !flat_cons|].
        split.
        { apply List.Forall_cons; [|exact Hgs].
          destruct Hg as (pre & m & Hin & Hgeq & Hquiet).
          exists (c :: pre), m. split; [exact Hin|].
          split; [now rewrite Hgeq|].
          intros a b Hab Hb. destruct a as [|a0 a'].
          - simpl in Hab. subst b.
            apply (mark_at_less _ rest).
            rewrite Hrest, Hgeq in Hmark. exact Hmark.
          - injection Hab as _ Hab. now apply (Hquiet a' b). }
        split.
        { apply List.Forall_cons; [|exact Hgsf].
          intros [H | H]; [now apply Hc | now apply Hgf]. }
        split; [exact Hlast|]. split; [exact Hq|].
        split.
        { cbn [List.concat List.app] in *. unfold inked in *.
          cbn [List.filter]. now rewrite Hcontent. }
        split; [discriminate|].
        intros g' gs' Hg'. injection Hg' as <- <-.
        exists rest. now rewrite Hrest.
Qed.

(** *** Splitting at the marker *)

Lemma split_piece : forall (g : list ascii),
  ~ In lt_char g ->
  forall fuel cur rest,
    split_at SPLIT (List.length g + fuel) cur (g ++ rest)
    = split_at SPLIT fuel (rev g ++ cur) rest.
Proof.
  induction g as [|c g IH]; intros Hlt fuel cur rest; [reflexivity|].
  assert (Hc : Ascii.eqb lt_char c = false).
  { apply Ascii.eqb_neq. intros <-. apply Hlt. now left. }
  cbn [List.length Nat.add List.app split_at].
  change (starts_with SPLIT (c :: g ++ rest))
    with (Ascii.eqb lt_char c
          && starts_with (List.tl SPLIT) (g ++ rest)).
  rewrite Hc. cbn [andb].
  rewrite IH by (intros H; apply Hlt; now right).
  simpl. now rewrite <- List.app_assoc.
Qed.

Lemma split_marker (fuel : nat) (cur rest : list ascii) :
  split_at SPLIT (S fuel) cur (SPLIT ++ rest)
  = string_of_list_ascii (rev cur) :: split_at SPLIT fuel [] rest.
Proof. reflexivity. Qed.

(** The steps [split_at] needs on the pieces. *)
Lemma split_flat : forall (segs : list (list ascii)) last cur fuel,
  Forall (fun g => ~ In lt_char g) segs ->
  ~ In lt_char last ->
  (list_sum (List.map (fun g => S (List.length g)) segs)
   + S (List.length last) <= fuel)%nat ->
  split_at SPLIT fuel cur (flat segs last)
  = match segs with
    | [] => [string_of_list_ascii (rev cur ++ last)]
    | g :: gs =>
        string_of_list_ascii (rev cur ++ g)
          :: List.map string_of_list_ascii (gs ++ [last])
    end.
Proof.
  induction segs as [|g gs IH]; intros last cur fuel Hfree Hlast Hfuel.
  - unfold flat. cbn [List.map List.concat List.app list_sum] in *.
    pose proof (split_piece last Hlast (S (fuel - S (List.length last)))
                  cur []) as Hstep.
    rewrite List.app_nil_r in Hstep.
    replace (List.length last + S (fuel - S (List.length last)))%nat
      with fuel in Hstep by lia.
    rewrite Hstep. cbn [split_at].
    now rewrite List.rev_app_distr, List.rev_involutive.
  - apply List.Forall_cons_iff in Hfree. destruct Hfree as [Hg Hgs].
    simpl in Hfuel.
    rewrite flat_cons.
    pose proof (split_piece g Hg (S (fuel - S (List.length g))) cur
                  (SPLIT ++ flat gs last)) as Hstep.
    replace (List.length g + S (fuel - S (List.length g)))%nat
      with fuel in Hstep by lia.
    rewrite Hstep, split_marker.
    rewrite List.rev_app_distr, List.rev_involutive. f_equal.
    rewrite (IH last [] _ Hgs Hlast) by lia.
    now destruct gs.
Qed.

Lemma flat_length (segs : list (list ascii)) (last : list ascii) :
  (list_sum (List.map (fun g => S (List.length g)) segs)
   + S (List.length last)
   <= S (List.length (flat segs last)))%nat.
Proof.
  induction segs as [|g gs IH].
  - unfold flat. simpl. lia.
  - rewrite flat_cons, !List.length_app. simpl. lia.
Qed.

(** The parts [s.split('<SPLIT>')] returns. *)
Lemma split_parts (s : list ascii) :
  ~ In lt_char s ->
  exists segs last,
    split_at SPLIT (S (List.length (re_sub (S (List.length s)) s))) []
             (re_sub (S (List.length s)) s)
    = List.map string_of_list_ascii (segs ++ [last])
    /\ Forall marked segs
    /\ quiet last []
    /\ inked (List.concat segs ++ last) = inked s.
Proof.
  intros Hlt.
  destruct (re_sub_shape (S (List.length s)) s ltac:(lia) Hlt)
    as (segs & last & Hsub & Hmk & Hfree & Hlast & Hq & Hcontent & _).
  exists segs, last. rewrite Hsub.
  rewrite (split_flat segs last [] _ Hfree Hlast (flat_length segs last)).
  split; [now destruct segs|]. now repeat split.
Qed.

(** *** Stripping the parts *)

Lemma strip_chars (l : list ascii) :
  list_ascii_of_string (Py.strip (string_of_list_ascii l))
  = rev (Py.lstrip_chars (rev (Py.lstrip_chars l))).
Proof.
  unfold Py.strip. now rewrite !list_ascii_of_string_of_list_ascii.
Qed.

Lemma inked_rev_nil (l : list ascii) : inked l = [] -> inked (rev l) = [].
Proof. unfold inked. intros H. now rewrite List.filter_rev, H. Qed.

(** Stripping removes blanks at both ends and nothing else. *)
Lemma strip_decompose (l : list ascii) :
  exists sp1 sp2,
    l = sp1 ++ list_ascii_of_string (Py.strip (string_of_list_ascii l))
          ++ sp2
    /\ inked (list_ascii_of_string (Py.strip (string_of_list_ascii l)))
       = inked l.
Proof.
  rewrite strip_chars.
  destruct (lstrip_suffix l) as (sp1 & Hl & Hsp1).
  destruct (lstrip_suffix (rev (Py.lstrip_chars l))) as (sp' & Hr & Hsp').
  set (core := Py.lstrip_chars (rev (Py.lstrip_chars l))) in *.
  assert (Hl1 : Py.lstrip_chars l = rev core ++ rev sp').
  { rewrite <- (List.rev_involutive (Py.lstrip_chars l)), Hr.
    apply List.rev_app_distr. }
  exists sp1, (rev sp'). split; [now rewrite <- Hl1|].
  transitivity (inked (sp1 ++ Py.lstrip_chars l)); [|now rewrite <- Hl].
  rewrite inked_app, Hsp1, Hl1, inked_app, (inked_rev_nil sp' Hsp').
  now rewrite List.app_nil_r.
Qed.

Lemma strip_marked (g : list ascii) :
  marked g ->
  exists pre2 m,
    In m marks
    /\ list_ascii_of_string (Py.strip (string_of_list_ascii g)) = pre2 ++ m
    /\ quiet pre2 m.
Proof.
  intros (pre & m & Hin & -> & Hq).
  destruct (mark_ends m Hin) as ((c & l & Hm & Hc) & (d & l' & Hrev & Hd) & _).
  assert (Hlm : Py.lstrip_chars m = m).
  { rewrite Hm. now apply LineFacts.lstrip_headed. }
  assert (Hl : exists sp pre2,
             pre = sp ++ pre2
             /\ Py.lstrip_chars (pre ++ m) = pre2 ++ m).
  { rewrite WrapFacts.lstrip_app.
    destruct (forallb Py.is_space pre).
    - exists pre, []. now rewrite List.app_nil_r, Hlm.
    - destruct (lstrip_suffix pre) as (sp & Hsp & _).
      now exists sp, (Py.lstrip_chars pre). }
  destruct Hl as (sp & pre2 & Hpre & Hl).
  exists pre2, m. split; [exact Hin|]. split.
  - rewrite strip_chars, Hl, List.rev_app_distr, Hrev.
    cbn [List.app]. rewrite (LineFacts.lstrip_headed d _ Hd).
    change (d :: l' ++ rev pre2) with ((d :: l') ++ rev pre2).
    rewrite <- Hrev, <- List.rev_app_distr. apply List.rev_involutive.
  - intros a b Hab Hb. apply (Hq (sp ++ a) b); [|exact Hb].
    now rewrite Hpre, Hab, List.app_assoc.
Qed.

Lemma mark_only_last_marked (pre2 m : list ascii) :
  In m marks -> quiet pre2 m -> mark_only_last (pre2 ++ m).
Proof.
  intros Hin Hq a b Hab Hmark.
  destruct (mark_ends m Hin) as (_ & _ & Hsuffix).
  apply List.app_eq_app in Hab. destruct Hab as (l & [[Hp Hb] | [Ha Hm]]).
  - destruct l as [|x l'].
    + simpl in Hb. now subst b.
    + exfalso. apply Hmark. rewrite Hb.
      apply (Hq a (x :: l')); [exact Hp | discriminate].
  - destruct l as [|x l'].
    + simpl in Hm. now subst b.
    + exfalso. apply Hmark.
      apply (Hsuffix (x :: l') b); [exact Hm | discriminate].
Qed.

Lemma mark_only_last_quiet (last : list ascii) :
  quiet last [] ->
  mark_only_last
    (list_ascii_of_string (Py.strip (string_of_list_ascii last))).
Proof.
  intros Hq a b Hab Hmark. exfalso. apply Hmark.
  destruct b as [|x b']; [reflexivity|].
  destruct (strip_decompose last) as (sp1 & sp2 & Hlast & _).
  rewrite Hab in Hlast.
  apply (mark_at_less _ sp2). apply (mark_at_less _ []).
  apply (Hq (sp1 ++ a)); [|now destruct b'].
  rewrite Hlast at 1. now rewrite <- !List.app_assoc.
Qed.

Lemma string_of_list_app (a b : list ascii) :
  string_of_list_ascii (a ++ b)
  = (string_of_list_ascii a ++ string_of_list_ascii b)%string.
Proof. induction a as [|c a IH]; [reflexivity|]. simpl. now rewrite IH. Qed.

Lemma substring_all (p : string) : substring 0 (String.length p) p = p.
Proof. induction p as [|c p IH]; [reflexivity|]. simpl. now rewrite IH. Qed.

Lemma endswith_app (a p : string) : Py.endswith (a ++ p) p = true.
Proof.
  unfold Py.endswith. rewrite FormatFacts.string_length_app.
  replace (String.length p <=? String.length a + String.length p)%nat
    with true by (symmetry; apply Nat.leb_le; lia).
  replace (String.length a + String.length p - String.length p)%nat
    with (String.length a) by lia.
  cbn [andb]. apply String.eqb_eq.
  induction a as [|c a IH]; [apply substring_all | exact IH].
Qed.

Lemma ends_with_any_marked (l : string) (pre2 m : list ascii) :
  In m marks -> list_ascii_of_string l = pre2 ++ m ->
  ends_with_any l = true.
Proof.
  intros Hin Hl. unfold marks in Hin. apply List.in_map_iff in Hin.
  destruct Hin as (p & <- & Hp).
  unfold ends_with_any. apply List.existsb_exists. exists p.
  split; [exact Hp|].
  rewrite <- (string_of_list_ascii_of_string l), Hl, string_of_list_app.
  rewrite string_of_list_ascii_of_string. apply endswith_app.
Qed.

(** *** The lines *)

Lemma nonempty_chars (l : string) :
  list_ascii_of_string l <> [] -> l <> "".
Proof. intros H ->. now apply H. Qed.

Lemma stripped_piece (g : list ascii) :
  marked g ->
  let l := Py.strip (string_of_list_ascii g) in
  is_nil (list_ascii_of_string l) = false
  /\ l <> "" /\ mark_only_last (list_ascii_of_string l)
  /\ ends_with_any l = true
  /\ inked (list_ascii_of_string l) = inked g.
Proof.
  intros Hg l.
  destruct (strip_marked g Hg) as (pre2 & m & Hin & Hl & Hq). fold l in Hl.
  destruct (mark_facts m Hin) as (Hne & _).
  assert (Hchars : list_ascii_of_string l <> []).
  { rewrite Hl. intros H. apply List.app_eq_nil in H. now destruct H. }
  split; [now destruct (list_ascii_of_string l)|].
  split; [now apply nonempty_chars|].
  split; [rewrite Hl; now apply mark_only_last_marked|].
  split; [now apply (ends_with_any_marked l pre2 m)|].
  destruct (strip_decompose g) as (_ & _ & _ & Hink). exact Hink.
Qed.

Lemma stripped_pieces (segs : list (list ascii)) (tail : list string) :
  Forall marked segs ->
  let lines := List.map Py.strip (List.map string_of_list_ascii segs) in
  List.filter (fun part => negb (is_nil (list_ascii_of_string part)))
              (lines ++ tail)
  = lines
      ++ List.filter (fun part => negb (is_nil (list_ascii_of_string part)))
                     tail
  /\ Forall (fun l => l <> "" /\ mark_only_last (list_ascii_of_string l))
            lines
  /\ Forall (fun l => ends_with_any l = true) lines
  /\ inked (List.concat (List.map list_ascii_of_string lines))
     = inked (List.concat segs).
Proof.
  induction segs as [|g gs IH]; intros Hall lines.
  - repeat split; constructor.
  - apply List.Forall_cons_iff in Hall. destruct Hall as [Hg Hgs].
    destruct (IH Hgs) as (Hkept & Hgood & Hends & Hink).
    destruct (stripped_piece g Hg) as (Hnil & Hne & Honly & Hend & Hinkg).
    unfold lines. cbn [List.map List.app List.filter List.concat].
    rewrite Hnil. cbn [negb].
    split; [f_equal; exact Hkept|].
    split; [apply List.Forall_cons; [now split | exact Hgood]|].
    split; [now apply List.Forall_cons|].
    now rewrite !inked_app, Hinkg, Hink.
Qed.

(** X22.  For a text without the character [<],
    [split_string_by_punctuations] cuts after every punctuation mark of its
    list and nowhere else: no line is empty, a mark occurs in a line only
    as its end, every line but the last ends with a mark, and the lines
    hold the characters of the text that are not blank, in order. *)
Theorem script_is_cut_after_every_mark (text : string) :
  ~ In "<"%char (list_ascii_of_string text) ->
  let lines := split_string_by_punctuations text in
  Forall (fun l => l <> "" /\ mark_only_last (list_ascii_of_string l)) lines
  /\ Forall (fun l => ends_with_any l = true) (List.removelast lines)
  /\ inked (List.concat (List.map list_ascii_of_string lines))
     = inked (list_ascii_of_string text).
Proof.
  intros Hlt lines. unfold lines, split_string_by_punctuations.
  destruct (String.eqb text "") eqn:Hempty.
  { apply String.eqb_eq in Hempty. subst text.
    repeat split; constructor. }
  cbv zeta.
  destruct (split_parts (list_ascii_of_string text) Hlt)
    as (segs & last & -> & Hmk & Hq & Hcontent).
  rewrite !List.map_app. cbn [List.map].
  destruct (stripped_pieces segs [Py.strip (string_of_list_ascii last)] Hmk)
    as (-> & Hgood & Hends & Hink).
  set (A := List.map Py.strip (List.map string_of_list_ascii segs)) in *.
  set (x := Py.strip (string_of_list_ascii last)).
  destruct (strip_decompose last) as (_ & _ & _ & Hinklast). fold x in Hinklast.
  cbn [List.filter].
  destruct (is_nil (list_ascii_of_string x)) eqn:Hnil; cbn [negb].
  - rewrite List.app_nil_r.
    split; [exact Hgood|].
    split; [now apply BlockFacts.Forall_removelast|].
    rewrite Hink, <- Hcontent, inked_app, <- Hinklast.
    destruct (list_ascii_of_string x); [|discriminate].
    now rewrite List.app_nil_r.
  - split.
    { apply List.Forall_app. split; [exact Hgood|].
      apply List.Forall_cons; [|constructor]. split.
      - apply nonempty_chars. now destruct (list_ascii_of_string x).
      - now apply mark_only_last_quiet. }
    split; [now rewrite List.removelast_last|].
    rewrite List.map_app, List.concat_app, inked_app, Hink.
    cbn [List.map List.concat]. rewrite List.app_nil_r, Hinklast.
    now rewrite <- Hcontent, inked_app.
Qed.

Lemma script_is_cut_after_every_mark_witness :
  ~ In "<"%char (list_ascii_of_string "Oui, non.  Et toi")
  /\ split_string_by_punctuations "Oui, non.  Et toi"
     = ["Oui,"; "non."; "Et toi"]
  /\ Forall (fun l => ends_with_any l = true)
            (List.removelast
               (split_string_by_punctuations "Oui, non.  Et toi"))
  /\ inked (List.concat
              (List.map list_ascii_of_string
                 (split_string_by_punctuations "Oui, non.  Et toi")))
     = inked (list_ascii_of_string "Oui, non.  Et toi").
Proof.
  assert (H : ~ In "<"%char (list_ascii_of_string "Oui, non.  Et toi")).
  { simpl. intros H.
    repeat (destruct H as [H | H]; [discriminate H|]). exact H. }
  split; [exact H|]. split; [reflexivity|].
  destruct (script_is_cut_after_every_mark "Oui, non.  Et toi" H)
    as (_ & Hends & Hink).
  split; [exact Hends | exact Hink].
Defined.

End PunctuationFacts.

(** ** Prompts and scenes *)

Module PromptFacts.
Import VideoComposer ImagePrompts Scenarios.

Lemma strip_nonempty (description : string) :
  Py.strip description <> "" -> description <> "".
Proof. intros H ->. now apply H. Qed.

Lemma ai_scene_numbers_cons (sc : scene) (scenes : list scene) :
  List.map (fun a => fst (fst a))
    (List.filter (fun a => String.eqb (snd (fst a)) "ai_image")
                 (omap accepted (sc :: scenes)))
  = match accepted sc with
    | Some (number, vtype, _) =>
        if String.eqb vtype "ai_image" then [number] else []
    | None => []
    end
      ++ List.map (fun a => fst (fst a))
           (List.filter (fun a => String.eqb (snd (fst a)) "ai_image")
                        (omap accepted scenes)).
Proof.
  cbn [omap list_omap].
  destruct (accepted sc) as [[[number vtype] d]|]; [|reflexivity].
  cbn [List.filter fst snd].
  destruct (String.eqb vtype "ai_image"); reflexivity.
Qed.

Lemma prompt_of_accepted (sc : script_scene) :
  complete sc ->
  option_map fst (prompt_of sc)
  = match accepted (base sc) with
    | Some (number, vtype, _) =>
        if String.eqb vtype "ai_image" then Some number else None
    | None => None
    end.
Proof.
  unfold complete, prompt_of, accepted. intros Hsc.
  destruct (visual_type (base sc)) as [vtype|].
  2:{ now rewrite !andb_false_r. }
  destruct (String.eqb vtype "ai_image") eqn:Hai.
  - apply String.eqb_eq in Hai. subst vtype.
    destruct (Hsc eq_refl) as ((description & Hd & Hstrip) & Hn & Hdur).
    rewrite Hd, Hn, Hdur. cbn [String.eqb Ascii.eqb Bool.eqb andb].
    replace (truthy_str (Some description)) with true.
    2:{ simpl. symmetry. apply negb_true_iff. apply String.eqb_neq.
        now apply strip_nonempty. }
    replace (truthy_str (Some "ai_image")) with true by reflexivity.
    destruct (scene_number (base sc)) as [number|]; [|discriminate].
    destruct (duration_seconds (base sc)) as [d|]; [|discriminate].
    replace (String.eqb (Py.strip description) "") with false
      by (symmetry; now apply String.eqb_neq).
    reflexivity.
  - assert (Hnone : (if String.eqb vtype "product_video" then None
                     else if false && truthy_str (visual_description sc)
                          then match scene_number (base sc),
                                     visual_description sc with
                               | Some number, Some description =>
                                   if String.eqb (Py.strip description) ""
                                   then None
                                   else Some (number, Py.strip description)
                               | _, _ => None
                               end
                          else None)
                    = (None : option (Z * string)))
      by now destruct (String.eqb vtype "product_video").
    rewrite Hnone. cbn [option_map].
    destruct (truthy_int (scene_number (base sc))
              && truthy_str (Some vtype)
              && truthy_num (duration_seconds (base sc)));
      [|reflexivity].
    destruct (scene_number (base sc)), (duration_seconds (base sc));
      try reflexivity.
    now rewrite Hai.
Qed.

(** X24.  When every scene of type [ai_image] has a description that is
    not blank, a number other than 0 and a duration other than 0,
    [extract_ai_image_prompts] writes one prompt per scene of that type the
    composer processes, in the same order and with the same scene numbers:
    the prompt of index [j] is the one of the scene that gets the image of
    index [j]. *)
Theorem prompts_match_ai_image_scenes (scenes : list script_scene) :
  Forall complete scenes ->
  List.map fst (extract_ai_image_prompts scenes)
  = List.map (fun a => fst (fst a))
      (List.filter (fun a => String.eqb (snd (fst a)) "ai_image")
                   (omap accepted (List.map base scenes)))
  /\ List.length (extract_ai_image_prompts scenes)
     = ai_image_scenes (List.map base scenes).
Proof.
  intros Hall.
  assert (Hnumbers :
            List.map fst (extract_ai_image_prompts scenes)
            = List.map (fun a => fst (fst a))
                (List.filter (fun a => String.eqb (snd (fst a)) "ai_image")
                             (omap accepted (List.map base scenes)))).
  { induction scenes as [|sc scenes IH]; [reflexivity|].
    apply List.Forall_cons_iff in Hall. destruct Hall as [Hsc Hrest].
    cbn [List.map]. rewrite ai_scene_numbers_cons, <- (IH Hrest).
    pose proof (prompt_of_accepted sc Hsc) as Hone.
    unfold extract_ai_image_prompts. cbn [omap list_omap].
    destruct (prompt_of sc) as [[number prompt]|];
      destruct (accepted (base sc)) as [[[number' vtype] d]|];
      cbn [option_map fst] in Hone;
      try destruct (String.eqb vtype "ai_image");
      try discriminate Hone; try reflexivity.
    injection Hone as <-. reflexivity. }
  split; [exact Hnumbers|].
  unfold ai_image_scenes.
  apply (f_equal (@List.length _)) in Hnumbers.
  now rewrite !List.length_map in Hnumbers.
Qed.

Lemma prompts_match_ai_image_scenes_witness :
  Forall complete described_scenes
  /\ List.map fst (extract_ai_image_prompts described_scenes) = [3%Z; 5%Z]
  /\ List.length (extract_ai_image_prompts described_scenes)
     = ai_image_scenes (List.map base described_scenes).
Proof.
  assert (H : Forall complete described_scenes).
  { repeat (apply List.Forall_cons || apply List.Forall_nil);
      intros Hv; try discriminate Hv;
      (split; [eexists; split; [reflexivity | discriminate]|]);
      split; reflexivity. }
  split; [exact H|]. split; [reflexivity|].
  exact (proj2 (prompts_match_ai_image_scenes described_scenes H)).
Defined.

End PromptFacts.

(** ** Rotation of the API keys *)

Module RotationFacts.
Import StockVideoFinder.

Lemma key_at_in_range (api_keys : list string) (idx : nat) :
  (idx < List.length api_keys)%nat ->
  exists key, api_keys !! idx = Some key /\ key_at api_keys idx = Ok key.
Proof.
  intros H. destruct (lookup_lt_is_Some_2 api_keys idx H) as [key Hkey].
  exists key. split; [exact Hkey|]. unfold key_at. now rewrite Hkey.
Qed.

Lemma requests_pexels (api_keys : list string) (j n i : nat) :
  (i < List.length api_keys)%nat ->
  requests n (KeyList api_keys) "pexels" (KeyIndices i j)
  = (List.map (fun k => key_at api_keys ((i + k) mod List.length api_keys)%nat)
       (List.seq 0 n),
     KeyIndices ((i + n) mod List.length api_keys)%nat j).
Proof.
  revert i. induction n as [|n IH]; intros i Hi.
  - cbn [requests List.seq List.map]. rewrite Nat.add_0_r.
    now rewrite Nat.mod_small.
  - assert (Hlen : List.length api_keys <> 0%nat) by lia.
    cbn [requests]. destruct api_keys as [|key0 api_keys'] eqn:Hkeys;
      [cbn in Hi; lia|]. rewrite <- Hkeys in *.
    assert (Hcall : get_rotating_api_key (KeyList api_keys) "pexels"
                      (KeyIndices i j)
                    = (key_at api_keys i,
                       KeyIndices ((i + 1) mod List.length api_keys)%nat j)).
    { rewrite Hkeys. reflexivity. }
    rewrite Hkeys at 1. rewrite <- Hkeys. rewrite Hcall.
    rewrite IH by (apply Nat.mod_upper_bound; exact Hlen).
    f_equal.
    + cbn [List.seq List.map]. rewrite Nat.add_0_r, (Nat.mod_small i) by lia.
      f_equal. rewrite <- List.seq_shift, List.map_map.
      apply List.map_ext. intros k.
      rewrite Nat.Div0.add_mod_idemp_l. f_equal. f_equal. lia.
    + f_equal. rewrite Nat.Div0.add_mod_idemp_l. f_equal. lia.
Qed.

(** X25.  With a list of keys and the Pexels index inside it, the calls of
    [get_rotating_api_key] never raise and take the keys in turn: the call
    that comes after [k] others returns the key [k] places after the index,
    counted round the list, the index is moved by one place per call, and
    the Pixabay index is left alone.  A round of as many calls as there are
    keys returns every key once, from the index on, and leaves the index
    where it was. *)
Theorem keys_are_used_in_turn (api_keys : list string) (i j n : nat) :
  (i < List.length api_keys)%nat ->
  let len := List.length api_keys in
  (forall k, (k < n)%nat ->
     exists key,
       api_keys !! ((i + k) mod len)%nat = Some key
       /\ fst (requests n (KeyList api_keys) "pexels" (KeyIndices i j)) !! k
          = Some (Ok key))
  /\ snd (requests n (KeyList api_keys) "pexels" (KeyIndices i j))
     = KeyIndices ((i + n) mod len)%nat j
  /\ requests len (KeyList api_keys) "pexels" (KeyIndices i j)
     = (List.map Ok (drop i api_keys ++ take i api_keys), KeyIndices i j).
Proof.
  intros Hi len. assert (Hlen : len <> 0%nat) by (unfold len; lia).
  split; [|split].
  - intros k Hk. rewrite requests_pexels by exact Hi. cbn [fst].
    destruct (key_at_in_range api_keys ((i + k) mod len)%nat) as
      [key [Hkey Hat]]; [apply Nat.mod_upper_bound; exact Hlen|].
    exists key. split; [exact Hkey|].
    rewrite list_lookup_fmap.
    rewrite lookup_seq_lt by exact Hk. cbn. fold len. now rewrite Hat.
  - rewrite requests_pexels by exact Hi. reflexivity.
  - rewrite requests_pexels by exact Hi. fold len. f_equal.
    + apply list_eq. intros k.
      rewrite !list_lookup_fmap.
      destruct (Nat.lt_ge_cases k len) as [Hk|Hk].
      * rewrite lookup_seq_lt by exact Hk. cbn.
        destruct (key_at_in_range api_keys ((i + k) mod len)%nat) as
          [key [Hkey Hat]]; [apply Nat.mod_upper_bound; exact Hlen|].
        rewrite Hat.
        destruct (Nat.lt_ge_cases (i + k) len) as [Hlow|Hhigh].
        -- rewrite Nat.mod_small in Hkey by exact Hlow.
           rewrite lookup_app_l
             by (rewrite length_drop; fold len; lia).
           rewrite lookup_drop, Hkey. reflexivity.
        -- assert (Hmod : ((i + k) mod len = i + k - len)%nat).
           { symmetry. apply (Nat.mod_unique (i + k) len 1); lia. }
           rewrite Hmod in Hkey.
           rewrite lookup_app_r
             by (rewrite length_drop; fold len; lia).
           rewrite length_drop. fold len.
           rewrite lookup_take_lt by lia.
           replace (k - (len - i))%nat with (i + k - len)%nat by lia.
           rewrite Hkey. reflexivity.
      * rewrite lookup_seq_ge by exact Hk. cbn.
        rewrite lookup_ge_None_2; [reflexivity|].
        rewrite length_app, length_drop, length_take. fold len. lia.
    + f_equal. replace (i + len)%nat with (i + 1 * len)%nat by lia.
      rewrite Nat.Div0.mod_add. now apply Nat.mod_small.
Qed.

Lemma keys_are_used_in_turn_witness :
  fst (requests 5 (KeyList Scenarios.three_keys) "pexels" (KeyIndices 1 0))
  = [Ok "k1"; Ok "k2"; Ok "k0"; Ok "k1"; Ok "k2"]
  /\ snd (requests 5 (KeyList Scenarios.three_keys) "pexels" (KeyIndices 1 0))
     = KeyIndices 0 0
  /\ requests 3 (KeyList Scenarios.three_keys) "pexels" (KeyIndices 1 0)
     = ([Ok "k1"; Ok "k2"; Ok "k0"], KeyIndices 1 0).
Proof.
  pose proof (keys_are_used_in_turn Scenarios.three_keys 1 0 5
                ltac:(cbn; lia)) as [_ [Hsnd _]].
  pose proof (keys_are_used_in_turn Scenarios.three_keys 1 0 3
                ltac:(cbn; lia)) as [_ [_ Hround]].
  split; [reflexivity|]. split; [exact Hsnd|exact Hround].
Defined.

End RotationFacts.

(** ** The file chosen for a Pexels video *)

Module PexelsFacts.
Import StockVideoFinder.

Local Open Scope Z_scope.

Lemma pick_chosen (video_files seen : list video_file)
    (found_link : option string) (best_area : Z) (link : string) :
  chosen seen found_link best_area ->
  pick found_link best_area video_files = Some link ->
  exists w h,
    In (VideoFile (Some w) (Some h) (Some link)) (seen ++ video_files)
    /\ w < h
    /\ ((w = video_width /\ h = video_height)
        \/ forall w' h' l',
             In (VideoFile (Some w') (Some h') (Some l')) (seen ++ video_files) ->
             w' < h' ->
             ~ (w' = video_width /\ h' = video_height) /\ w' * h' <= w * h).
Proof.
  revert seen found_link best_area.
  induction video_files as [|video rest IH];
    intros seen found_link best_area (Hpos & Hseen & Hfound) Hpick.
  - cbn [pick] in Hpick. rewrite List.app_nil_r.
    destruct (Hfound link Hpick) as (w & h & Hin & Hwh & Harea).
    exists w, h. split; [exact Hin|]. split; [exact Hwh|]. right.
    intros w' h' l' Hin' Hwh'. rewrite Harea. now apply (Hseen w' h' l').
  - assert (Hskip :
      (forall w h l, video = VideoFile (Some w) (Some h) (Some l) -> ~ w < h) ->
      pick found_link best_area rest = Some link ->
      exists w h,
        In (VideoFile (Some w) (Some h) (Some link)) (seen ++ video :: rest)
        /\ w < h
        /\ ((w = video_width /\ h = video_height)
            \/ forall w' h' l',
                 In (VideoFile (Some w') (Some h') (Some l'))
                    (seen ++ video :: rest) ->
                 w' < h' ->
                 ~ (w' = video_width /\ h' = video_height)
                 /\ w' * h' <= w * h)).
    { intros Hno Hrest.
      replace (seen ++ video :: rest) with ((seen ++ [video]) ++ rest)
        by now rewrite <- List.app_assoc.
      apply (IH (seen ++ [video]) found_link best_area); [|exact Hrest].
      split; [exact Hpos|]. split.
      - intros w h l Hin Hwh. apply List.in_app_or in Hin.
        destruct Hin as [Hin|[Heq|[]]]; [now apply (Hseen w h l)|].
        exfalso. now apply (Hno w h l).
      - intros l Hl. destruct (Hfound l Hl) as (w & h & Hin & Hwh & Harea).
        exists w, h. split; [|now split].
        apply List.in_or_app. now left. }
    cbn [pick] in Hpick.
    destruct video as [[w|] [h|] [l|]]; cbn [vf_width vf_height vf_link] in Hpick;
      try (apply Hskip; [intros ? ? ? [=]|exact Hpick]).
    destruct (Z.gtb_spec h w) as [Hgt|Hle];
      [|apply Hskip; [intros ? ? ? [= <- <- <-]; lia|exact Hpick]].
    destruct ((w =? video_width) && (h =? video_height)) eqn:Hexact.
    + injection Hpick as <-.
      apply andb_true_iff in Hexact. destruct Hexact as [Hw Hh].
      apply Z.eqb_eq in Hw, Hh.
      exists w, h. split; [apply List.in_or_app; right; now left|].
      split; [lia|]. left. now split.
    + assert (Hnot : ~ (w = video_width /\ h = video_height)).
      { intros [-> ->]. now rewrite !Z.eqb_refl in Hexact. }
      replace (seen ++ VideoFile (Some w) (Some h) (Some l) :: rest)
        with ((seen ++ [VideoFile (Some w) (Some h) (Some l)]) ++ rest)
        by now rewrite <- List.app_assoc.
      destruct (Z.gtb_spec (w * h) best_area) as [Hbetter|Hworse].
      * apply (IH _ (Some l) (w * h)); [|exact Hpick].
        split; [lia|]. split.
        -- intros w' h' l' Hin Hwh. apply List.in_app_or in Hin.
           destruct Hin as [Hin|[Heq|[]]].
           ++ destruct (Hseen w' h' l' Hin Hwh) as [Hn Ha].
              split; [exact Hn|lia].
           ++ injection Heq as <- <- <-. split; [exact Hnot|lia].
        -- intros l' [= <-]. exists w, h.
           split; [apply List.in_or_app; right; now left|].
           split; [lia|reflexivity].
      * apply (IH _ found_link best_area); [|exact Hpick].
        split; [exact Hpos|]. split.
        -- intros w' h' l' Hin Hwh. apply List.in_app_or in Hin.
           destruct Hin as [Hin|[Heq|[]]]; [now apply (Hseen w' h' l')|].
           injection Heq as <- <- <-. split; [exact Hnot|lia].
        -- intros l' Hl'.
           destruct (Hfound l' Hl') as (w' & h' & Hin & Hwh & Harea).
           exists w', h'. split; [|now split].
           apply List.in_or_app. now left.
Qed.

(** X26.  Every item the Pexels search returns comes from a video that is
    at least [minimum_duration] long, and its address is not empty and is
    the link of one of the files of that video that give width, height and
    link and are taller than wide: a file of exactly 1080 by 1920 if the
    video has one, and otherwise a file of the largest area among them. *)
Theorem pexels_item_is_exact_or_largest (minimum_duration : Z)
    (videos : list pexels_video) (item : video_item) :
  In item (search_videos_pexels minimum_duration videos) ->
  minimum_duration <= duration item
  /\ url item <> ""
  /\ exists v w h,
       In v videos
       /\ default 0 (pv_duration v) = duration item
       /\ In (VideoFile (Some w) (Some h) (Some (url item)))
             (default [] (pv_video_files v))
       /\ w < h
       /\ ((w = 1080 /\ h = 1920)
           \/ forall w' h' l',
                In (VideoFile (Some w') (Some h') (Some l'))
                   (default [] (pv_video_files v)) ->
                w' < h' ->
                ~ (w' = 1080 /\ h' = 1920) /\ w' * h' <= w * h).
Proof.
  induction videos as [|v rest IH]; intros Hin; [destruct Hin|].
  assert (Hrest : In item (search_videos_pexels minimum_duration rest) ->
    minimum_duration <= duration item
    /\ url item <> ""
    /\ exists v0 w h,
         In v0 (v :: rest)
         /\ default 0 (pv_duration v0) = duration item
         /\ In (VideoFile (Some w) (Some h) (Some (url item)))
               (default [] (pv_video_files v0))
         /\ w < h
         /\ ((w = 1080 /\ h = 1920)
             \/ forall w' h' l',
                  In (VideoFile (Some w') (Some h') (Some l'))
                     (default [] (pv_video_files v0)) ->
                  w' < h' ->
                  ~ (w' = 1080 /\ h' = 1920) /\ w' * h' <= w * h)).
  { intros H. destruct (IH H) as (Hd & Hu & v0 & w & h & Hv0 & Hrest').
    split; [exact Hd|]. split; [exact Hu|].
    exists v0, w, h. split; [now right|exact Hrest']. }
  cbn [search_videos_pexels] in Hin.
  destruct (Z.ltb_spec (default 0 (pv_duration v)) minimum_duration)
    as [Hshort|Hlong]; [now apply Hrest|].
  destruct (pick None 0 (default [] (pv_video_files v))) as [[|c link]|]
    eqn:Hpick; try now apply Hrest.
  destruct Hin as [<-|Hin]; [|now apply Hrest].
  cbn [duration url]. split; [exact Hlong|]. split; [discriminate|].
  destruct (pick_chosen (default [] (pv_video_files v)) [] None 0
              (String c link)) as (w & h & Hfile & Hwh & Hbest).
  - split; [lia|]. split; [intros ? ? ? []|discriminate].
  - exact Hpick.
  - exists v, w, h. split; [now left|]. split; [reflexivity|].
    split; [exact Hfile|]. split; [exact Hwh|exact Hbest].
Qed.

Lemma pexels_item_is_exact_or_largest_witness :
  search_videos_pexels 5 Scenarios.pexels_videos
  = [VideoItem "pexels" "large" 12]
  /\ 5 <= 12.
Proof.
  split; [reflexivity|].
  exact (proj1 (pexels_item_is_exact_or_largest 5 Scenarios.pexels_videos
                  (VideoItem "pexels" "large" 12)
                  ltac:(left; reflexivity))).
Defined.

End PexelsFacts.

(** ** The downloads of a scene *)

Module DownloadFacts.
Import StockVideoFinder.

Local Open Scope Z_scope.

Lemma download_from (save_video : string -> string) (videos_per_scene : Z)
    (found : list video_item) (download_count : Z) :
  download save_video videos_per_scene download_count found
  = firstn (Z.to_nat (videos_per_scene - download_count))
      (List.filter nonempty
         (List.map save_video (List.filter nonempty (List.map url found)))).
Proof.
  revert download_count.
  induction found as [|video_info rest IH]; intros download_count.
  - cbn. now rewrite List.firstn_nil.
  - cbn [download].
    destruct (Z.geb_spec download_count videos_per_scene) as [Hfull|Hroom].
    + now replace (Z.to_nat (videos_per_scene - download_count)) with 0%nat
        by lia.
    + cbn [List.map List.filter].
      destruct (nonempty (url video_info)) eqn:Hurl; [|apply IH].
      cbn [List.map List.filter].
      destruct (nonempty (save_video (url video_info))) eqn:Hsaved;
        [|apply IH].
      rewrite IH.
      replace (Z.to_nat (videos_per_scene - download_count))
        with (S (Z.to_nat (videos_per_scene - (download_count + 1))))
        by lia.
      reflexivity.
Qed.

(** X27.  The paths recorded for a scene are the first [videos_per_scene]
    successful downloads, in the order of the candidates: a candidate
    without address and a download that fails are passed over and the next
    candidate is tried.  There are never more than [videos_per_scene]
    paths, and none is empty. *)
Theorem downloads_are_first_successes (save_video : string -> string)
    (videos_per_scene : Z) (found : list video_item) :
  download save_video videos_per_scene 0 found
  = firstn (Z.to_nat videos_per_scene)
      (List.filter nonempty
         (List.map save_video (List.filter nonempty (List.map url found))))
  /\ Z.of_nat (List.length (download save_video videos_per_scene 0 found))
     <= Z.max 0 videos_per_scene
  /\ Forall (fun saved_path => saved_path <> "")
       (download save_video videos_per_scene 0 found).
Proof.
  rewrite download_from, Z.sub_0_r.
  split; [reflexivity|]. split.
  - rewrite List.length_firstn. lia.
  - apply Forall_take, List.Forall_forall.
    intros saved_path Hin%List.filter_In. destruct Hin as [_ Hin].
    intros ->. discriminate Hin.
Qed.

End DownloadFacts.
